(** * MediaUploader: a shallow embedding of [src/media-uploader.tsx]

    The component keeps four pieces of React state (local pending files,
    active remote files, pending-deletion entries, confirmed-deletion ids),
    three effects (host re-synchronisation, upload-complete notification,
    removal sweep) and two kinds of [setInterval] timers.  Handlers are
    modelled as functions on a [Widget] record that also carries the log of
    callback invocations; one [step] is one handler followed by the effects
    whose dependencies changed.  The handlers of the three smaller widgets
    (array input, combobox, date picker) that are functions of their props
    are modelled in modules of their own.  An add is asynchronous: a
    [Session] is the widget together with the adds that wait for their
    previews, and its moves are the steps of the widget, the call of an add
    and the arrival of its previews. *)

From Stdlib Require Import List ZArith QArith Bool String Ascii Lia Arith.
From Stdlib Require Import DecimalString Lqa Permutation.
Import ListNotations.

Local Open Scope string_scope.
Local Open Scope Z_scope.

(** ** JavaScript string and array primitives used by the component *)

Module JS.

(** [String.prototype.startsWith]. *)
Definition startsWith (s p : string) : bool := String.prefix p s.

(** [String.prototype.endsWith]. *)
Definition endsWith (s p : string) : bool :=
  let n := String.length s in
  let m := String.length p in
  (m <=? n)%nat && String.eqb (String.substring (n - m) m s) p.

Definition lower_ascii (c : ascii) : ascii :=
  let n := nat_of_ascii c in
  if ((65 <=? n) && (n <=? 90))%nat then ascii_of_nat (n + 32) else c.

(** [String.prototype.toLowerCase] on strings of ASCII characters: the
    letters A to Z are mapped and every other character is kept.  Outside
    ASCII the platform maps further letters, some of them by their
    context; a statement that is to hold there takes the platform's
    function as a parameter. *)
Fixpoint toLowerCase (s : string) : string :=
  match s with
  | EmptyString => EmptyString
  | String c r => String (lower_ascii c) (toLowerCase r)
  end.

Definition is_space (c : ascii) : bool :=
  let n := nat_of_ascii c in
  ((n =? 32) || ((9 <=? n) && (n <=? 13)))%nat.

Fixpoint trimStart (s : string) : string :=
  match s with
  | String c r => if is_space c then trimStart r else s
  | EmptyString => EmptyString
  end.

Fixpoint rev_string (s acc : string) : string :=
  match s with
  | EmptyString => acc
  | String c r => rev_string r (String c acc)
  end.

(** [String.prototype.trim], on ASCII white space. *)
Definition trim (s : string) : string :=
  rev_string (trimStart (rev_string (trimStart s) "")) "".

(** [s.split(",")]: always at least one piece. *)
Fixpoint split_comma (s : string) : list string :=
  match s with
  | EmptyString => [EmptyString]
  | String c r =>
      if Ascii.eqb c ","%char then EmptyString :: split_comma r
      else match split_comma r with
           | piece :: rest => String c piece :: rest
           | [] => [String c EmptyString]
           end
  end.

(** [s.replace("*", ".*")]: only the first occurrence is replaced. *)
Fixpoint replace_star (s : string) : string :=
  match s with
  | EmptyString => EmptyString
  | String c r =>
      if Ascii.eqb c "*"%char then String "."%char (String "*"%char r)
      else String c (replace_star r)
  end.

(** [parts.join(",")]. *)
Fixpoint join_comma (l : list string) : string :=
  match l with
  | [] => ""
  | [x] => x
  | x :: r => x ++ "," ++ join_comma r
  end.

(** Template interpolation of an integral number. *)
Definition show (n : Z) : string := NilZero.string_of_int (Z.to_int n).

(** [arr.slice(0, n)]; a negative [n] counts from the end. *)
Definition slice0 {A} (n : Z) (l : list A) : list A :=
  if n <? 0 then firstn (Z.to_nat (Z.max 0 (Z.of_nat (List.length l) + n))) l
  else firstn (Z.to_nat n) l.

(** Truthiness of [string | undefined]. *)
Definition truthy (o : option string) : bool :=
  match o with
  | Some s => negb (String.eqb s "")
  | None => false
  end.

(** [x || undefined] on [string | null]. *)
Definition or_undefined (o : option string) : option string :=
  if truthy o then o else None.

End JS.

(** A matcher for the fragment of regular expressions that the accept
    mini-language produces ([^type/.*$], [^type/subtype$]): literal
    characters, [.], a postfix [*] and the two anchors.  Every other
    character, the metacharacters [+], [?] and the brackets among them, is
    taken literally, which the platform's engine does not do.  It is used
    to run the component on concrete inputs with MIME types of letters,
    digits, [/] and [-]; the development itself is parametric in the
    engine. *)
Module Wildcard.

Definition eqc (p c : ascii) : bool :=
  Ascii.eqb p "."%char || Ascii.eqb p c.

Fixpoint to_list (s : string) : list ascii :=
  match s with
  | EmptyString => []
  | String c r => c :: to_list r
  end.

Fixpoint matchhere (re : list ascii) : list ascii -> bool :=
  match re with
  | [] => fun _ => true
  | p :: re' =>
      match re' with
      | q :: re'' =>
          if Ascii.eqb q "*"%char then
            fix star (s : list ascii) : bool :=
              matchhere re'' s
              || match s with
                 | c :: s' => eqc p c && star s'
                 | [] => false
                 end
          else fun s =>
            match s with
            | c :: s' => eqc p c && matchhere re' s'
            | [] => false
            end
      | [] =>
          fun s =>
            if Ascii.eqb p "$"%char then
              match s with [] => true | _ => false end
            else match s with
                 | c :: s' => eqc p c
                 | [] => false
                 end
      end
  end.

Fixpoint search (re s : list ascii) : bool :=
  matchhere re s
  || match s with
     | _ :: s' => search re s'
     | [] => false
     end.

Definition test (pattern subject : string) : bool :=
  match to_list pattern with
  | p :: re =>
      if Ascii.eqb p "^"%char then matchhere re (to_list subject)
      else search (p :: re) (to_list subject)
  | [] => true
  end.

End Wildcard.

(** ** Data model *)

(** The fields of a DOM [File] the component reads: [name], [size] and
    [type]. *)
Record File := mkFile {
  File_name : string;
  File_size : Z;
  File_type : string
}.

Record UploadedFile := mkUploadedFile {
  id : string;
  name : string;
  file : File;
  preview : option string;
  progress : Q;
  error : option string;
  uploaded : bool
}.

(** Modelled from the spec: the declaration of [MediaType]
    ([@/types/media-type]) is not part of the sources; the fields are the
    ones of the spec's remote file record, under the names the component
    reads them by ([media_id] is its [id]).  [DisplayFile] is [MediaType]
    with [isNew: false]. *)
Record DisplayFile := mkDisplayFile {
  media_id : Z;
  file_name : string;
  size : Z;
  mime_type : option string;
  url : option string
}.

Record UndoableRemoval := mkUndoableRemoval {
  removal_id : Z;
  removal_file : DisplayFile;
  removedAt : Z
}.

(** [FileItem = UploadedFile | DisplayFile], discriminated by [isNew]. *)
Inductive FileItem :=
| NewItem (f : UploadedFile)
| ExistingItem (f : DisplayFile).

Inductive FileTypeCategory := image | video | audio | document | all.

Definition FILE_TYPE_MAPPINGS (c : FileTypeCategory) : string :=
  match c with
  | image => "image/*"
  | video => "video/*"
  | audio => "audio/*"
  | document => ".pdf,.doc,.docx,.txt,.rtf,.odt"
  | all => "image/*,video/*,audio/*,.pdf,.doc,.docx,.txt,.rtf,.odt"
  end.

Record Props := mkProps {
  accept : option string;
  fileTypes : list FileTypeCategory;
  maxFiles : Z;
  maxSize : Z;
  singleFile : bool;
  autoUpload : bool;
  allowRemove : bool;
  disabled : bool
}.

(** Invocations of the host's callbacks, in the order they are made. *)
Inductive Event :=
| onError (message : string)
| onFilesChange (files : list File)
| onUploadComplete (files : list UploadedFile)
| onExistingFileRemove (f : DisplayFile).

(** A running [simulateUpload] interval: its handle, the file id it closes
    over, and its local [progress] variable. *)
Record Upload := mkUpload {
  upload_handle : nat;
  upload_fileId : string;
  upload_progress : Q
}.

Record Widget := mkWidget {
  uploadedFiles : list UploadedFile;
  (** identity of the array held in [uploadedFiles]: every
      [setUploadedFiles] stores a fresh array *)
  uploadedFilesRef : nat;
  displayExistingFiles : list DisplayFile;
  removedImageIds : list Z;
  undoableRemovals : list UndoableRemoval;
  (** the [existingFiles] prop of the last render *)
  existingFiles : list DisplayFile;
  (** timers *)
  uploads : list Upload;
  sweepTimer : option nat;
  nextHandle : nat;
  (** dependency values of the last run of the two state-driven effects *)
  depAllNewUploaded : bool;
  depUploadedFilesRef : nat;
  depRemovalsLength : nat;
  (** callback invocations so far *)
  calls : list Event
}.

Local Open Scope list_scope.

(** ** State setters and the callback log *)

Definition setUploadedFiles (upd : list UploadedFile -> list UploadedFile)
    (w : Widget) : Widget :=
  {| uploadedFiles := upd (uploadedFiles w);
     uploadedFilesRef := S (uploadedFilesRef w);
     displayExistingFiles := displayExistingFiles w;
     removedImageIds := removedImageIds w;
     undoableRemovals := undoableRemovals w;
     existingFiles := existingFiles w;
     uploads := uploads w;
     sweepTimer := sweepTimer w;
     nextHandle := nextHandle w;
     depAllNewUploaded := depAllNewUploaded w;
     depUploadedFilesRef := depUploadedFilesRef w;
     depRemovalsLength := depRemovalsLength w;
     calls := calls w |}.

Definition setDisplayExistingFiles (upd : list DisplayFile -> list DisplayFile)
    (w : Widget) : Widget :=
  {| uploadedFiles := uploadedFiles w;
     uploadedFilesRef := uploadedFilesRef w;
     displayExistingFiles := upd (displayExistingFiles w);
     removedImageIds := removedImageIds w;
     undoableRemovals := undoableRemovals w;
     existingFiles := existingFiles w;
     uploads := uploads w;
     sweepTimer := sweepTimer w;
     nextHandle := nextHandle w;
     depAllNewUploaded := depAllNewUploaded w;
     depUploadedFilesRef := depUploadedFilesRef w;
     depRemovalsLength := depRemovalsLength w;
     calls := calls w |}.

Definition setRemovedImageIds (upd : list Z -> list Z) (w : Widget) : Widget :=
  {| uploadedFiles := uploadedFiles w;
     uploadedFilesRef := uploadedFilesRef w;
     displayExistingFiles := displayExistingFiles w;
     removedImageIds := upd (removedImageIds w);
     undoableRemovals := undoableRemovals w;
     existingFiles := existingFiles w;
     uploads := uploads w;
     sweepTimer := sweepTimer w;
     nextHandle := nextHandle w;
     depAllNewUploaded := depAllNewUploaded w;
     depUploadedFilesRef := depUploadedFilesRef w;
     depRemovalsLength := depRemovalsLength w;
     calls := calls w |}.

Definition setUndoableRemovals
    (upd : list UndoableRemoval -> list UndoableRemoval) (w : Widget) : Widget :=
  {| uploadedFiles := uploadedFiles w;
     uploadedFilesRef := uploadedFilesRef w;
     displayExistingFiles := displayExistingFiles w;
     removedImageIds := removedImageIds w;
     undoableRemovals := upd (undoableRemovals w);
     existingFiles := existingFiles w;
     uploads := uploads w;
     sweepTimer := sweepTimer w;
     nextHandle := nextHandle w;
     depAllNewUploaded := depAllNewUploaded w;
     depUploadedFilesRef := depUploadedFilesRef w;
     depRemovalsLength := depRemovalsLength w;
     calls := calls w |}.

Definition setUploads (upd : list Upload -> list Upload) (w : Widget) : Widget :=
  {| uploadedFiles := uploadedFiles w;
     uploadedFilesRef := uploadedFilesRef w;
     displayExistingFiles := displayExistingFiles w;
     removedImageIds := removedImageIds w;
     undoableRemovals := undoableRemovals w;
     existingFiles := existingFiles w;
     uploads := upd (uploads w);
     sweepTimer := sweepTimer w;
     nextHandle := nextHandle w;
     depAllNewUploaded := depAllNewUploaded w;
     depUploadedFilesRef := depUploadedFilesRef w;
     depRemovalsLength := depRemovalsLength w;
     calls := calls w |}.

(** [cb?.(args)]: the invocation is appended to the log. *)
Definition call (e : Event) (w : Widget) : Widget :=
  {| uploadedFiles := uploadedFiles w;
     uploadedFilesRef := uploadedFilesRef w;
     displayExistingFiles := displayExistingFiles w;
     removedImageIds := removedImageIds w;
     undoableRemovals := undoableRemovals w;
     existingFiles := existingFiles w;
     uploads := uploads w;
     sweepTimer := sweepTimer w;
     nextHandle := nextHandle w;
     depAllNewUploaded := depAllNewUploaded w;
     depUploadedFilesRef := depUploadedFilesRef w;
     depRemovalsLength := depRemovalsLength w;
     calls := calls w ++ [e] |}.

(** ** Progress simulator *)

(** [simulateUpload(fileId)]: a new interval whose local [progress] is 0. *)
Definition simulateUpload (fileId : string) (w : Widget) : Widget :=
  {| uploadedFiles := uploadedFiles w;
     uploadedFilesRef := uploadedFilesRef w;
     displayExistingFiles := displayExistingFiles w;
     removedImageIds := removedImageIds w;
     undoableRemovals := undoableRemovals w;
     existingFiles := existingFiles w;
     uploads := uploads w ++ [mkUpload (nextHandle w) fileId 0%Q];
     sweepTimer := sweepTimer w;
     nextHandle := S (nextHandle w);
     depAllNewUploaded := depAllNewUploaded w;
     depUploadedFilesRef := depUploadedFilesRef w;
     depRemovalsLength := depRemovalsLength w;
     calls := calls w |}.

Definition withProgress (f : UploadedFile) (p : Q) : UploadedFile :=
  mkUploadedFile (id f) (name f) (file f) (preview f) p (error f) (uploaded f).

Definition withUploaded (f : UploadedFile) : UploadedFile :=
  mkUploadedFile (id f) (name f) (file f) (preview f) 100%Q (error f) true.

(** The local variable after [progress += Math.random() * 25], where
    [random] is the value drawn, in exact arithmetic.  The source computes
    on doubles and rounds after the product and after the sum, so that the
    two can pass 100 at different ticks; [uploadTickWith] below takes the
    arithmetic as a parameter. *)
Definition advance (progress random : Q) : Q := (progress + random * 25)%Q.

(** [progress >= 100]. *)
Definition done (progress : Q) : bool := Qle_bool 100 progress.

(** The body of the interval callback of [simulateUpload], for the interval
    [u] and the number [random] returned by [Math.random()]. *)
Definition uploadTick (u : Upload) (random : Q) (w : Widget) : Widget :=
  let progress := advance (upload_progress u) random in
  let fileId := upload_fileId u in
  if done progress then
    setUploadedFiles
      (map (fun f => if String.eqb (id f) fileId then withUploaded f else f))
      (setUploads
         (filter (fun v => negb (Nat.eqb (upload_handle v) (upload_handle u))))
         w)
  else
    setUploadedFiles
      (map (fun f => if String.eqb (id f) fileId then withProgress f progress else f))
      (setUploads
         (map (fun v => if Nat.eqb (upload_handle v) (upload_handle u)
                        then mkUpload (upload_handle u) fileId progress else v))
         w).

(** The timer with handle [h] fires; a cleared handle never fires. *)
Definition fireUpload (h : nat) (random : Q) (w : Widget) : Widget :=
  match find (fun v => Nat.eqb (upload_handle v) h) (uploads w) with
  | Some u => uploadTick u random w
  | None => w
  end.

(** ** Upload pool manager *)

Definition getTotalFileCount (w : Widget) : Z :=
  Z.of_nat (List.length (displayExistingFiles w))
  + Z.of_nat (List.length (uploadedFiles w)).

(** A file handed to [processFiles] together with the outcomes of the two
    operations the component performs on it that are not functions of the
    state: the identifier drawn by
    [Math.random().toString(36).slice(2, 11)] and the result of the
    [FileReader] ([None] when reading failed). *)
Record Picked := mkPicked {
  picked_file : File;
  picked_id : string;
  picked_read : option string
}.

Definition generatePreview (f : File) (read : option string) : option string :=
  if JS.startsWith (File_type f) "image/" then read else None.

Definition acceptString (p : Props) : string :=
  if JS.truthy (accept p) then
    match accept p with Some a => a | None => "" end
  else if existsb (fun c => match c with all => true | _ => false end) (fileTypes p)
  then FILE_TYPE_MAPPINGS all
  else JS.join_comma (map FILE_TYPE_MAPPINGS (fileTypes p)).

Section Component.

(** [new RegExp(source).test(subject)], the platform's engine. *)
Variable RegExp_test : string -> string -> bool.

Definition validateFile (p : Props) (f : File) : option string :=
  if maxSize p * 1024 * 1024 <? File_size f then
    Some ("File size must be less than " ++ JS.show (maxSize p) ++ "MB")%string
  else if negb (String.eqb (acceptString p) "*")
          && negb (existsb
               (fun type =>
                  let trimmedType := JS.trim type in
                  if JS.startsWith trimmedType "." then
                    JS.endsWith (JS.toLowerCase (File_name f))
                                (JS.toLowerCase trimmedType)
                  else
                    RegExp_test ("^" ++ JS.replace_star trimmedType ++ "$")%string
                                (File_type f))
               (JS.split_comma (acceptString p)))
  then Some "File type not supported"
  else None.

Definition newUploadedFile (p : Props) (x : Picked) : UploadedFile :=
  {| id := picked_id x;
     name := File_name (picked_file x);
     file := picked_file x;
     preview := generatePreview (picked_file x) (picked_read x);
     progress := 0%Q;
     error := JS.or_undefined (validateFile p (picked_file x));
     uploaded := false |}.

Definition valid (f : UploadedFile) : bool := negb (JS.truthy (error f)).

(** [processFiles] when nothing else happens while it awaits the
    previews: it reads and writes the same state, that of the render that
    created it.  The function is [async]; its two halves, with whatever
    happens between them, are [processFilesCall] and [processFilesResume]
    below, and [Call] and [Resume] in a session. *)
Definition processFiles (p : Props) (files : list Picked) (w : Widget) : Widget :=
  let fileArray := files in
  let currentCount := getTotalFileCount w in
  let availableSlots := maxFiles p - currentCount in
  if singleFile p && (0 <? currentCount) then
    call (onError "Only one file allowed. Remove existing file first.") w
  else if availableSlots <=? 0 then
    call (onError ("Maximum " ++ JS.show (maxFiles p) ++ " files allowed")%string) w
  else
    let filesToProcess := JS.slice0 availableSlots fileArray in
    let newUploadedFiles := map (newUploadedFile p) filesToProcess in
    let w1 :=
      if singleFile p then
        setDisplayExistingFiles (fun _ => [])
          (setUploadedFiles (fun _ => newUploadedFiles) w)
      else setUploadedFiles (fun prev => prev ++ newUploadedFiles) w in
    let w2 :=
      if autoUpload p then
        fold_left (fun acc f => if valid f then simulateUpload (id f) acc else acc)
                  newUploadedFiles w1
      else w1 in
    let validFiles := map file (filter valid newUploadedFiles) in
    if (0 <? List.length validFiles)%nat then
      let allNewFiles := map file (uploadedFiles w) ++ validFiles in
      call (onFilesChange allNewFiles) w2
    else w2.

End Component.

Definition removeNewFile (fileId : string) (w : Widget) : Widget :=
  let updated := filter (fun f => negb (String.eqb (id f) fileId)) (uploadedFiles w) in
  call (onFilesChange (map file updated)) (setUploadedFiles (fun _ => updated) w).

Definition clearAll (w : Widget) : Widget :=
  call (onFilesChange [])
       (setDisplayExistingFiles (fun _ => []) (setUploadedFiles (fun _ => []) w)).

Definition manualUpload (w : Widget) : Widget :=
  fold_left
    (fun acc f => if negb (JS.truthy (error f)) && negb (uploaded f)
                  then simulateUpload (id f) acc else acc)
    (uploadedFiles w) w.

(** ** Removal grace window *)

(** [removeExistingFile(file)], with [now] the value of [Date.now()]. *)
Definition removeExistingFile (f : DisplayFile) (now : Z) (w : Widget) : Widget :=
  let undoableRemoval := mkUndoableRemoval (media_id f) f now in
  call (onExistingFileRemove f)
    (setDisplayExistingFiles
       (filter (fun g => negb (Z.eqb (media_id g) (media_id f))))
       (setUndoableRemovals (fun prev => prev ++ [undoableRemoval]) w)).

Definition undoRemoval (fileId : Z) (w : Widget) : Widget :=
  match find (fun r => Z.eqb (removal_id r) fileId) (undoableRemovals w) with
  | Some undoableRemoval =>
      setUndoableRemovals
        (filter (fun r => negb (Z.eqb (removal_id r) fileId)))
        (setDisplayExistingFiles (fun prev => prev ++ [removal_file undoableRemoval]) w)
  | None => w
  end.

Definition confirmRemoval (fileId : Z) (w : Widget) : Widget :=
  setRemovedImageIds (fun prev => prev ++ [fileId])
    (setUndoableRemovals (filter (fun r => negb (Z.eqb (removal_id r) fileId))) w).

(** [timeLeft <= 0] for [timeLeft = removal.removedAt + 10000 - now]. *)
Definition expired (now : Z) (r : UndoableRemoval) : bool :=
  removedAt r + 10000 - now <=? 0.

(** The callback of the sweep interval: the filter keeps the entries with
    time left and queues one [setRemovedImageIds] per expired entry, in the
    order of the list. *)
Fixpoint sweepFilter (now : Z) (prev : list UndoableRemoval)
    : list UndoableRemoval * list Z :=
  match prev with
  | [] => ([], [])
  | removal :: rest =>
      let (kept, ids) := sweepFilter now rest in
      if expired now removal then (kept, removal_id removal :: ids)
      else (removal :: kept, ids)
  end.

Definition sweepTick (now : Z) (w : Widget) : Widget :=
  let (updated, ids) := sweepFilter now (undoableRemovals w) in
  setRemovedImageIds (fun prevIds => prevIds ++ ids)
    (setUndoableRemovals (fun _ => updated) w).

(** The sweep interval fires only while it exists. *)
Definition fireSweep (now : Z) (w : Widget) : Widget :=
  match sweepTimer w with
  | Some _ => sweepTick now w
  | None => w
  end.

(** ** Reconciliation and effects *)

Definition allFiles (w : Widget) : list FileItem :=
  map ExistingItem (displayExistingFiles w) ++ map NewItem (uploadedFiles w).

Definition allNewUploaded (w : Widget) : bool :=
  (0 <? List.length (uploadedFiles w))%nat
  && forallb (fun f => uploaded f || JS.truthy (error f)) (uploadedFiles w).

(** [prev.every((p, i) => p.id === mapped[i]?.id)]. *)
Fixpoint everyIdMatches (prev mapped : list DisplayFile) (i : nat) : bool :=
  match prev with
  | [] => true
  | p :: rest =>
      match nth_error mapped i with
      | Some m => Z.eqb (media_id p) (media_id m)
      | None => false
      end && everyIdMatches rest mapped (S i)
  end.

(** The effect on [[existingFiles]]: the host renders the component with
    the list [existing]. *)
Definition syncExistingFiles (existing : list DisplayFile) (w : Widget) : Widget :=
  let mapped := existing in
  let w' :=
    {| uploadedFiles := uploadedFiles w;
       uploadedFilesRef := uploadedFilesRef w;
       displayExistingFiles := displayExistingFiles w;
       removedImageIds := removedImageIds w;
       undoableRemovals := undoableRemovals w;
       existingFiles := existing;
       uploads := uploads w;
       sweepTimer := sweepTimer w;
       nextHandle := nextHandle w;
       depAllNewUploaded := depAllNewUploaded w;
       depUploadedFilesRef := depUploadedFilesRef w;
       depRemovalsLength := depRemovalsLength w;
       calls := calls w |} in
  setDisplayExistingFiles
    (fun prev =>
       if Nat.eqb (List.length prev) (List.length mapped)
          && everyIdMatches prev mapped 0
       then prev else mapped)
    w'.

(** The effect on [[allNewUploaded, uploadedFiles]]. *)
Definition uploadCompleteEffect (w : Widget) : Widget :=
  let w' :=
    {| uploadedFiles := uploadedFiles w;
       uploadedFilesRef := uploadedFilesRef w;
       displayExistingFiles := displayExistingFiles w;
       removedImageIds := removedImageIds w;
       undoableRemovals := undoableRemovals w;
       existingFiles := existingFiles w;
       uploads := uploads w;
       sweepTimer := sweepTimer w;
       nextHandle := nextHandle w;
       depAllNewUploaded := allNewUploaded w;
       depUploadedFilesRef := uploadedFilesRef w;
       depRemovalsLength := depRemovalsLength w;
       calls := calls w |} in
  if allNewUploaded w && existsb uploaded (uploadedFiles w) then
    call (onUploadComplete (filter uploaded (uploadedFiles w))) w'
  else w'.

(** The effect on [[undoableRemovals.length]]: the previous interval is
    cleared by the cleanup, and a new one is created unless the list is
    empty. *)
Definition sweepEffect (w : Widget) : Widget :=
  let n := List.length (undoableRemovals w) in
  {| uploadedFiles := uploadedFiles w;
     uploadedFilesRef := uploadedFilesRef w;
     displayExistingFiles := displayExistingFiles w;
     removedImageIds := removedImageIds w;
     undoableRemovals := undoableRemovals w;
     existingFiles := existingFiles w;
     uploads := uploads w;
     sweepTimer := if Nat.eqb n 0 then None else Some (nextHandle w);
     nextHandle := if Nat.eqb n 0 then nextHandle w else S (nextHandle w);
     depAllNewUploaded := depAllNewUploaded w;
     depUploadedFilesRef := depUploadedFilesRef w;
     depRemovalsLength := n;
     calls := calls w |}.

(** After a render, the effects whose dependencies changed are run. *)
Definition runEffects (w : Widget) : Widget :=
  let w1 :=
    if Bool.eqb (depAllNewUploaded w) (allNewUploaded w)
       && Nat.eqb (depUploadedFilesRef w) (uploadedFilesRef w)
    then w else uploadCompleteEffect w in
  if Nat.eqb (depRemovalsLength w1) (List.length (undoableRemovals w1))
  then w1 else sweepEffect w1.

(** The first render: empty state, then every effect runs once. *)
Definition initial : Widget :=
  {| uploadedFiles := [];
     uploadedFilesRef := 0;
     displayExistingFiles := [];
     removedImageIds := [];
     undoableRemovals := [];
     existingFiles := [];
     uploads := [];
     sweepTimer := None;
     nextHandle := 0;
     depAllNewUploaded := false;
     depUploadedFilesRef := 0;
     depRemovalsLength := 0;
     calls := [] |}.

Definition mount (existing : list DisplayFile) : Widget :=
  sweepEffect (uploadCompleteEffect (syncExistingFiles existing initial)).

(** ** The widget as a transition system *)

Inductive Action :=
| Add (files : list Picked)
| RemoveNew (fileId : string)
| RemoveExisting (f : DisplayFile) (now : Z)
| Undo (fileId : Z)
| Confirm (fileId : Z)
| Clear
| ManualUpload
| UploadTimer (handle : nat) (random : Q)
| SweepTimer (now : Z)
| HostRender (existing : list DisplayFile).

Definition option_eqb {A} (eqb : A -> A -> bool) (x y : option A) : bool :=
  match x, y with
  | Some a, Some b => eqb a b
  | None, None => true
  | _, _ => false
  end.

Definition DisplayFile_eqb (f g : DisplayFile) : bool :=
  Z.eqb (media_id f) (media_id g)
  && String.eqb (file_name f) (file_name g)
  && Z.eqb (size f) (size g)
  && option_eqb String.eqb (mime_type f) (mime_type g)
  && option_eqb String.eqb (url f) (url g).

(** What the rendered controls let the user (or a timer) do. *)
Definition enabled (p : Props) (a : Action) (w : Widget) : bool :=
  match a with
  | Add _ => negb (disabled p)
  | RemoveNew fileId =>
      allowRemove p
      && existsb (fun f => String.eqb (id f) fileId) (uploadedFiles w)
  | RemoveExisting f _ =>
      allowRemove p && existsb (DisplayFile_eqb f) (displayExistingFiles w)
  | Undo fileId | Confirm fileId =>
      existsb (fun r => Z.eqb (removal_id r) fileId) (undoableRemovals w)
  | Clear => allowRemove p && (0 <? List.length (allFiles w))%nat
  | ManualUpload =>
      negb (autoUpload p)
      && (0 <? List.length (uploadedFiles w))%nat
      && negb (forallb (fun f => uploaded f || JS.truthy (error f)) (uploadedFiles w))
  | UploadTimer _ random => Qle_bool 0 random && negb (Qle_bool 1 random)
  | SweepTimer _ => true
  | HostRender _ => true
  end.

Section Transitions.

Variable RegExp_test : string -> string -> bool.

Definition handle (p : Props) (a : Action) (w : Widget) : Widget :=
  match a with
  | Add files => processFiles RegExp_test p files w
  | RemoveNew fileId => removeNewFile fileId w
  | RemoveExisting f now => removeExistingFile f now w
  | Undo fileId => undoRemoval fileId w
  | Confirm fileId => confirmRemoval fileId w
  | Clear => clearAll w
  | ManualUpload => manualUpload w
  | UploadTimer h random => fireUpload h random w
  | SweepTimer now => fireSweep now w
  | HostRender existing => syncExistingFiles existing w
  end.

Definition step (p : Props) (a : Action) (w : Widget) : Widget :=
  runEffects (handle p a w).

Definition run (p : Props) (actions : list Action) (w : Widget) : Widget :=
  fold_left (fun acc a => step p a acc) actions w.

(** States reached from the first render by enabled actions of the
    kinds [allowed]. *)
Inductive reachable (p : Props) (existing : list DisplayFile)
    (allowed : Action -> bool) : Widget -> Prop :=
| reachable_mount : reachable p existing allowed (mount existing)
| reachable_step a w :
    reachable p existing allowed w ->
    allowed a = true ->
    enabled p a w = true ->
    reachable p existing allowed (step p a w).

End Transitions.

Definition any_action (a : Action) : bool := true.

(** ** Observations on the callback log *)

Definition completions (l : list Event) : list (list UploadedFile) :=
  flat_map (fun e => match e with onUploadComplete fs => [fs] | _ => [] end) l.

Definition fileChanges (l : list Event) : list (list File) :=
  flat_map (fun e => match e with onFilesChange fs => [fs] | _ => [] end) l.

Definition errors (l : list Event) : list string :=
  flat_map (fun e => match e with onError m => [m] | _ => [] end) l.

(** The raw files of the validated local pending files. *)
Definition payload (w : Widget) : list File :=
  map file (filter valid (uploadedFiles w)).

(** Every local pending file is uploaded or carries an error, and one is
    uploaded. *)
Definition batchComplete (w : Widget) : bool :=
  allNewUploaded w && existsb uploaded (uploadedFiles w).

(** ** Notions used in the statements *)

(** The fields owned by the effects (timer of the sweep and remembered
    dependencies) are the same in both states. *)
Definition same_effect_fields (w w' : Widget) : Prop :=
  sweepTimer w' = sweepTimer w
  /\ depAllNewUploaded w' = depAllNewUploaded w
  /\ depUploadedFilesRef w' = depUploadedFilesRef w
  /\ depRemovalsLength w' = depRemovalsLength w.

(** The remote side of the state is the same in both states. *)
Definition same_remote (w w' : Widget) : Prop :=
  displayExistingFiles w' = displayExistingFiles w
  /\ removedImageIds w' = removedImageIds w
  /\ undoableRemovals w' = undoableRemovals w
  /\ existingFiles w' = existingFiles w.

(** The sweep interval exists exactly when the length it was created for
    is not zero. *)
Definition timer_tracks_length (w : Widget) : Prop :=
  sweepTimer w = None <-> depRemovalsLength w = 0%nat.

(** Every effect has seen the current values of its dependencies. *)
Definition settled (w : Widget) : Prop :=
  depAllNewUploaded w = allNewUploaded w
  /\ depUploadedFilesRef w = uploadedFilesRef w
  /\ depRemovalsLength w = List.length (undoableRemovals w)
  /\ timer_tracks_length w.

(** The entries that are still pending after the sweep fired at each of
    the times [nows], and the ids it confirmed. *)
Fixpoint survivors (nows : list Z) (pending : list UndoableRemoval)
    : list UndoableRemoval :=
  match nows with
  | [] => pending
  | now :: rest =>
      survivors rest (filter (fun r => negb (expired now r)) pending)
  end.

Fixpoint swept (nows : list Z) (pending : list UndoableRemoval) : list Z :=
  match nows with
  | [] => []
  | now :: rest =>
      map removal_id (filter (expired now) pending)
      ++ swept rest (filter (fun r => negb (expired now r)) pending)
  end.

(** The batch is refused: single-file exclusivity or no slot left. *)
Definition refused (p : Props) (w : Widget) : bool :=
  (singleFile p && (0 <? getTotalFileCount w))
  || (maxFiles p - getTotalFileCount w <=? 0).

(** The records [processFiles] creates for a batch that is not refused. *)
Definition accepted (RegExp_test : string -> string -> bool) (p : Props)
    (files : list Picked) (w : Widget) : list UploadedFile :=
  map (newUploadedFile RegExp_test p)
      (JS.slice0 (maxFiles p - getTotalFileCount w) files).

(** The state holds a new local-files array. *)
Definition arrayReplaced (w w' : Widget) : bool :=
  negb (Nat.eqb (uploadedFilesRef w) (uploadedFilesRef w')).

(** The dependencies [[allNewUploaded, uploadedFiles]] differ. *)
Definition completionDepsChanged (w w' : Widget) : bool :=
  arrayReplaced w w' || negb (Bool.eqb (allNewUploaded w) (allNewUploaded w')).

(** The record shown for [fileId], and the interval with handle [h]. *)
Definition shown (fileId : string) (w : Widget) : option UploadedFile :=
  find (fun f => String.eqb (id f) fileId) (uploadedFiles w).

Definition interval (h : nat) (w : Widget) : option Upload :=
  find (fun v => Nat.eqb (upload_handle v) h) (uploads w).

(** The interval [h] simulates the upload of the file shown as [f]: while
    it runs, its local variable is the progress of [f], which is not yet
    uploaded; once it is cleared, [f] is uploaded at 100. *)
Definition tracked (h : nat) (fileId : string) (w : Widget) (f : UploadedFile) : Prop :=
  shown fileId w = Some f
  /\ match interval h w with
     | Some u =>
         upload_fileId u = fileId
         /\ upload_progress u = progress f
         /\ uploaded f = false
         /\ (0 <= progress f)%Q /\ (progress f < 100)%Q
     | None => uploaded f = true /\ progress f = 100%Q
     end.

Definition upload_ticks (h : nat) (randoms : list Q) : list Action :=
  map (UploadTimer h) randoms.

(** The files that are active or wrapped by a pending-deletion entry. *)
Definition remoteUnion (w : Widget) : list DisplayFile :=
  displayExistingFiles w ++ map removal_file (undoableRemovals w).

(** The union invariant of the data model. *)
Definition union_invariant (w : Widget) : Prop :=
  forall f,
    In f (remoteUnion w)
    <-> In f (existingFiles w) /\ ~ In (media_id f) (removedImageIds w).

(** What the proof of the union invariant carries along: ids identify the
    host's files, no file is both active and pending, an entry is filed
    under the id of its file, and no two entries share an id. *)
Definition remote_wf (w : Widget) : Prop :=
  (forall f g, In f (existingFiles w) -> In g (existingFiles w) ->
               media_id f = media_id g -> f = g)
  /\ (forall f, In f (displayExistingFiles w) ->
                ~ In f (map removal_file (undoableRemovals w)))
  /\ Forall (fun r => removal_id r = media_id (removal_file r)) (undoableRemovals w)
  /\ NoDup (map removal_id (undoableRemovals w)).

Definition without_clear_or_render (a : Action) : bool :=
  match a with
  | Clear | HostRender _ => false
  | _ => true
  end.


(** [l] lists some of the elements of [m], in the order of [m]. *)
Inductive subseq {A : Type} : list A -> list A -> Prop :=
| subseq_nil : subseq [] []
| subseq_skip x l m : subseq l m -> subseq l (x :: m)
| subseq_cons x l m : subseq l m -> subseq (x :: l) (x :: m).

(** Every action of the run is of an allowed kind and enabled when its
    turn comes. *)
Fixpoint runnable (RegExp_test : string -> string -> bool) (p : Props)
    (allowed : Action -> bool) (actions : list Action) (w : Widget) : bool :=
  match actions with
  | [] => true
  | a :: rest =>
      allowed a && enabled p a w
      && runnable RegExp_test p allowed rest (step RegExp_test p a w)
  end.

(** The sum of the increments [Math.random() * 25] of a run of ticks. *)
Fixpoint increments (randoms : list Q) : Q :=
  match randoms with
  | [] => 0
  | r :: rest => r * 25 + increments rest
  end.

(** ** Concrete data *)

(** The defaults of the component's props. *)
Definition defaultProps : Props :=
  {| accept := None; fileTypes := [all]; maxFiles := 10; maxSize := 10;
     singleFile := false; autoUpload := true; allowRemove := true;
     disabled := false |}.

Definition twoFilesProps : Props :=
  {| accept := None; fileTypes := [all]; maxFiles := 2; maxSize := 10;
     singleFile := false; autoUpload := true; allowRemove := true;
     disabled := false |}.

Definition photo : Picked :=
  mkPicked (mkFile "photo.png" 2048 "image/png") "ida" (Some "data:image/png;base64,AA").

Definition report : Picked :=
  mkPicked (mkFile "report.pdf" 4096 "application/pdf") "idb" None.

Definition notes : Picked :=
  mkPicked (mkFile "notes.txt" 512 "text/plain") "idc" None.

(** A file of 50MB. *)
Definition oversized : Picked :=
  mkPicked (mkFile "movie.mp4" (50 * 1024 * 1024) "video/mp4") "idd" None.

Definition logo : DisplayFile :=
  mkDisplayFile 1 "logo.png" 100 (Some "image/png") (Some "/media/logo.png").

Definition banner : DisplayFile :=
  mkDisplayFile 2 "banner.png" 200 (Some "image/png") (Some "/media/banner.png").

(** One file added to an empty widget: its upload runs on interval 0. *)
Definition uploading : Widget :=
  step Wildcard.test defaultProps (Add [photo]) (mount []).

(** Two files added and both uploads run to the end, five ticks each. *)
Definition bothUploaded : Widget :=
  run Wildcard.test defaultProps
    (Add [photo; report]
     :: upload_ticks 0 [99#100; 99#100; 99#100; 99#100; 99#100]
     ++ upload_ticks 1 [99#100; 99#100; 99#100; 99#100; 99#100])%Q
    (mount []).

(** A remote file whose removal was requested at time 0. *)
Definition removalPending : Widget :=
  step Wildcard.test defaultProps (RemoveExisting logo 0) (mount [logo; banner]).

(** One file added and four ticks of its upload: the fifth completes it. *)
Definition almostUploaded : Widget :=
  run Wildcard.test defaultProps
    (Add [photo] :: upload_ticks 0 [99#100; 99#100; 99#100; 99#100])%Q
    (mount []).

(** ** Further notions *)

(** The intervals that consecutive calls of [simulateUpload] create for
    the file ids [fileIds], the first under the handle [start]. *)
Fixpoint freshUploads (start : nat) (fileIds : list string) : list Upload :=
  match fileIds with
  | [] => []
  | fileId :: rest => mkUpload start fileId 0%Q :: freshUploads (S start) rest
  end.

(** [!file.error && !file.uploaded]: the files [manualUpload] starts. *)
Definition startable (f : UploadedFile) : bool :=
  negb (JS.truthy (error f)) && negb (uploaded f).

(** What [processFiles] establishes for a record and the progress
    simulator keeps. *)
Definition wellFormedFile (RegExp_test : string -> string -> bool) (p : Props)
    (f : UploadedFile) : Prop :=
  name f = File_name (file f)
  /\ error f = validateFile RegExp_test p (file f)
  /\ (preview f <> None -> JS.startsWith (File_type (file f)) "image/" = true)
  /\ (0 <= progress f)%Q /\ (progress f <= 100)%Q.

(** The extensions of the [document] category. *)
Definition documentExtensions : list string :=
  [".pdf"; ".doc"; ".docx"; ".txt"; ".rtf"; ".odt"]%string.

(** ** The other widgets *)

(** [ArrayInput]: the list-of-text-fields editor.  The component is
    controlled: each handler is modelled by the argument it passes to
    [onChange], [None] when it does not call it. *)
Module ArrayInput.

(** [values.filter((_, i) => i !== index)], from position [i] on. *)
Fixpoint filterIndex (index i : nat) (values : list string) : list string :=
  match values with
  | [] => []
  | item :: rest =>
      if Nat.eqb i index then filterIndex index (S i) rest
      else item :: filterIndex index (S i) rest
  end.

(** [values.map((item, i) => (i === index ? value : item))], from
    position [i] on. *)
Fixpoint mapIndex (index : nat) (value : string) (i : nat) (values : list string)
    : list string :=
  match values with
  | [] => []
  | item :: rest =>
      (if Nat.eqb i index then value else item) :: mapIndex index value (S i) rest
  end.

(** [while (filled.length < minItems) filled.push('')], run for at most
    [fuel] iterations. *)
Fixpoint fillLoop (fuel : nat) (minItems : Z) (filled : list string) : list string :=
  match fuel with
  | O => filled
  | S fuel' =>
      if Z.of_nat (List.length filled) <? minItems
      then fillLoop fuel' minItems (filled ++ [""%string])
      else filled
  end.

(** The effect run on mount. *)
Definition mountEffect (minItems : Z) (values : list string) : option (list string) :=
  if Z.of_nat (List.length values) <? minItems
  then Some (fillLoop (Z.to_nat minItems) minItems values)
  else None.

Definition addItem (maxItems : Z) (values : list string) : option (list string) :=
  if Z.of_nat (List.length values) <? maxItems
  then Some (values ++ [""%string])
  else None.

Definition removeItem (minItems : Z) (index : nat) (values : list string)
    : option (list string) :=
  if minItems <? Z.of_nat (List.length values)
  then Some (filterIndex index 0 values)
  else None.

Definition updateItem (index : nat) (value : string) (values : list string)
    : option (list string) :=
  Some (mapIndex index value 0 values).

End ArrayInput.

(** [Combobox]: the searchable select.  Option values are strings or
    numbers; numbers are modelled as integers. *)
Module Combobox.

Inductive OptionValue :=
| Str (s : string)
| Num (n : Z).

(** [a === b] on [string | number]. *)
Definition strictEq (a b : OptionValue) : bool :=
  match a, b with
  | Str s, Str t => String.eqb s t
  | Num n, Num m => Z.eqb n m
  | _, _ => false
  end.

Record ComboboxOption := mkOption {
  value : OptionValue;
  label : string;
  disabled : bool
}.

(** The [value] prop, and the argument of [onValueChange]. *)
Inductive Value :=
| Undefined
| Single (v : OptionValue)
| Multiple (vs : list OptionValue).

(** [vs.includes(v)]. *)
Definition includes (vs : list OptionValue) (v : OptionValue) : bool :=
  existsb (strictEq v) vs.

(** [s.includes(part)] on strings. *)
Fixpoint stringIncludes (s part : string) : bool :=
  String.prefix part s
  || match s with
     | EmptyString => false
     | String _ rest => stringIncludes rest part
     end.

Definition selectedValues (v : Value) : list OptionValue :=
  match v with
  | Undefined => []
  | Multiple vs => vs
  | Single x => [x]
  end.

Definition selectedOptions (options : list ComboboxOption) (v : Value)
    : list ComboboxOption :=
  filter (fun option => includes (selectedValues v) (value option)) options.

(** [filteredOptions], for the platform's [String.prototype.toLowerCase]. *)
Definition filteredOptions (toLowerCase : string -> string)
    (options : list ComboboxOption) (searchValue : string) : list ComboboxOption :=
  if String.eqb searchValue "" then options
  else filter (fun option =>
                 stringIncludes (toLowerCase (label option))
                                (toLowerCase searchValue))
              options.

(** [handleSelect]: the argument of [onValueChange]. *)
Definition handleSelect (multiple : bool) (v : Value) (optionValue : OptionValue)
    : Value :=
  if multiple then
    Multiple
      (if includes (selectedValues v) optionValue
       then filter (fun x => negb (strictEq x optionValue)) (selectedValues v)
       else selectedValues v ++ [optionValue])
  else Single optionValue.

Definition handleClear (multiple : bool) : Value :=
  if multiple then Multiple [] else Undefined.

(** [handleRemoveSelected]: [None] when [onValueChange] is not called. *)
Definition handleRemoveSelected (multiple : bool) (v : Value)
    (optionValue : OptionValue) : option Value :=
  if multiple
  then Some (Multiple (filter (fun x => negb (strictEq x optionValue))
                              (selectedValues v)))
  else None.

End Combobox.

(** [DatePicker]: the list of years offered by the year select. *)
Module DatePicker.

(** [Array.from({ length: end - start + 1 }, (_, i) => start + i)]; a
    length below 0 is taken as 0. *)
Definition yearOptions (yearStart yearEnd : Z) : list Z :=
  map (fun i => yearStart + Z.of_nat i)
      (seq 0 (Z.to_nat (yearEnd - yearStart + 1))).

End DatePicker.

(** ** More concrete data *)

(** The defaults with auto-upload switched off. *)
Definition manualProps : Props :=
  {| accept := None; fileTypes := [all]; maxFiles := 10; maxSize := 10;
     singleFile := false; autoUpload := false; allowRemove := true;
     disabled := false |}.

(** Two files added while auto-upload is off: nothing runs yet. *)
Definition waiting : Widget :=
  step Wildcard.test manualProps (Add [photo; report]) (mount []).

(** A PDF whose name is in capitals and whose MIME type says nothing. *)
Definition shoutedReport : File :=
  mkFile "REPORT.PDF" 4096 "application/octet-stream".

(** ** The two halves of [processFiles] *)

(** [processFiles] is an [async] function: it reads the counts and
    [uploadedFiles] of the render it was created in, then awaits one
    [FileReader] per file, and only then writes the state.  Other handlers
    and timers run while it waits.  An add in flight is what the function
    keeps across the wait: the records it has built ([newUploadedFiles]) and
    the [uploadedFiles] array it closed over. *)
Record InFlight := mkInFlight {
  flight_records : list UploadedFile;
  flight_pool : list UploadedFile
}.

(** The part of [processFiles] after the loop, run on the state [w] of the
    moment the last preview arrives. *)
Definition processFilesResume (p : Props) (fl : InFlight) (w : Widget) : Widget :=
  let newUploadedFiles := flight_records fl in
  let w1 :=
    if singleFile p then
      setDisplayExistingFiles (fun _ => [])
        (setUploadedFiles (fun _ => newUploadedFiles) w)
    else setUploadedFiles (fun prev => prev ++ newUploadedFiles) w in
  let w2 :=
    if autoUpload p then
      fold_left (fun acc f => if valid f then simulateUpload (id f) acc else acc)
                newUploadedFiles w1
    else w1 in
  let validFiles := map file (filter valid newUploadedFiles) in
  if (0 <? List.length validFiles)%nat then
    let allNewFiles := map file (flight_pool fl) ++ validFiles in
    call (onFilesChange allNewFiles) w2
  else w2.

Section TwoHalves.

Variable RegExp_test : string -> string -> bool.

(** The part of [processFiles] up to the first [await]: the state after it
    and the add left in flight.  A refused batch ends in the call; so does a
    batch none of whose files is processed, since the loop then awaits
    nothing and the function runs to its end. *)
Definition processFilesCall (p : Props) (files : list Picked) (w : Widget)
    : Widget * option InFlight :=
  let fileArray := files in
  let currentCount := getTotalFileCount w in
  let availableSlots := maxFiles p - currentCount in
  if singleFile p && (0 <? currentCount) then
    (call (onError "Only one file allowed. Remove existing file first.") w, None)
  else if availableSlots <=? 0 then
    (call (onError ("Maximum " ++ JS.show (maxFiles p) ++ " files allowed")%string) w,
     None)
  else
    let filesToProcess := JS.slice0 availableSlots fileArray in
    let fl := mkInFlight (map (newUploadedFile RegExp_test p) filesToProcess)
                         (uploadedFiles w) in
    match filesToProcess with
    | [] => (processFilesResume p fl w, None)
    | _ :: _ => (w, Some fl)
    end.

(** The call as an event of its own, followed by the effects. *)
Definition callAdd (p : Props) (files : list Picked) (w : Widget)
    : Widget * option InFlight :=
  let (w', fl) := processFilesCall p files w in (runEffects w', fl).

End TwoHalves.

(** The previews have arrived: the add in flight stores its records. *)
Definition resumeAdd (p : Props) (fl : InFlight) (w : Widget) : Widget :=
  runEffects (processFilesResume p fl w).

(** ** The arithmetic of a tick *)

(** [uploadTick] for an arbitrary rendering [addDraw progress random] of
    [progress + Math.random() * 25]: the source computes it on doubles,
    rounding after the product and after the sum, where [advance] is
    exact. *)
Definition uploadTickWith (addDraw : Q -> Q -> Q) (u : Upload) (random : Q)
    (w : Widget) : Widget :=
  let progress := addDraw (upload_progress u) random in
  let fileId := upload_fileId u in
  if done progress then
    setUploadedFiles
      (map (fun f => if String.eqb (id f) fileId then withUploaded f else f))
      (setUploads
         (filter (fun v => negb (Nat.eqb (upload_handle v) (upload_handle u))))
         w)
  else
    setUploadedFiles
      (map (fun f => if String.eqb (id f) fileId then withProgress f progress else f))
      (setUploads
         (map (fun v => if Nat.eqb (upload_handle v) (upload_handle u)
                        then mkUpload (upload_handle u) fileId progress else v))
         w).

Definition fireUploadWith (addDraw : Q -> Q -> Q) (h : nat) (random : Q)
    (w : Widget) : Widget :=
  match find (fun v => Nat.eqb (upload_handle v) h) (uploads w) with
  | Some u => uploadTickWith addDraw u random w
  | None => w
  end.

(** Adding a draw that is not negative does not lower the progress: true
    of the exact sum and of the rounded one. *)
Definition neverLowers (addDraw : Q -> Q -> Q) : Prop :=
  forall progress random, (0 <= random)%Q -> (progress <= addDraw progress random)%Q.

(** ** Sessions: the widget and the adds in flight *)

Record Session := mkSession {
  widget : Widget;
  inFlight : list InFlight
}.

(** What can happen next: an action of the widget (an [Add] among them is
    an add during whose wait nothing else happens), the call of an add that
    is left in flight, or the arrival of the previews of the [k]-th add in
    flight. *)
Inductive Move :=
| Act (a : Action)
| Call (files : list Picked)
| Resume (k : nat).

Definition dropNth {A} (k : nat) (l : list A) : list A :=
  firstn k l ++ skipn (S k) l.

Section Sessions.

Variable addDraw : Q -> Q -> Q.
Variable RegExp_test : string -> string -> bool.

Definition stepWith (p : Props) (a : Action) (w : Widget) : Widget :=
  match a with
  | UploadTimer h random => runEffects (fireUploadWith addDraw h random w)
  | _ => step RegExp_test p a w
  end.

Definition play (p : Props) (m : Move) (s : Session) : Session :=
  match m with
  | Act a => mkSession (stepWith p a (widget s)) (inFlight s)
  | Call files =>
      let (w', fl) := callAdd RegExp_test p files (widget s) in
      mkSession w' (inFlight s ++ match fl with Some fl => [fl] | None => [] end)
  | Resume k =>
      match nth_error (inFlight s) k with
      | Some fl => mkSession (resumeAdd p fl (widget s)) (dropNth k (inFlight s))
      | None => s
      end
  end.

Definition playAll (p : Props) (moves : list Move) (s : Session) : Session :=
  fold_left (fun acc m => play p m acc) moves s.

Definition movable (p : Props) (m : Move) (s : Session) : bool :=
  match m with
  | Act a => enabled p a (widget s)
  | Call _ => negb (disabled p)
  | Resume k => (k <? List.length (inFlight s))%nat
  end.

(** The sessions reached from the first render by moves that are possible
    and that the discipline [ok] admits in the session they are made in. *)
Inductive reaches (p : Props) (existing : list DisplayFile)
    (ok : Move -> Session -> bool) : Session -> Prop :=
| reaches_mount : reaches p existing ok (mkSession (mount existing) [])
| reaches_play m s :
    reaches p existing ok s ->
    ok m s = true ->
    movable p m s = true ->
    reaches p existing ok (play p m s).

Fixpoint playable (p : Props) (ok : Move -> Session -> bool)
    (moves : list Move) (s : Session) : bool :=
  match moves with
  | [] => true
  | m :: rest => ok m s && movable p m s && playable p ok rest (play p m s)
  end.

End Sessions.

Definition anyMove (m : Move) (s : Session) : bool := true.

(** Actions of the kinds [allowed] only: every add stores its records
    before anything else happens. *)
Definition actsOnly (allowed : Action -> bool) (m : Move) (s : Session) : bool :=
  match m with
  | Act a => allowed a
  | _ => false
  end.

(** A run of ticks, each given by the handle of its interval and the
    number drawn. *)
Definition ticks (draws : list (nat * Q)) : list Move :=
  map (fun t => Act (UploadTimer (fst t) (snd t))) draws.

(** No [clear] and no new list from the host. *)
Definition keepsHostFiles (m : Move) (s : Session) : bool :=
  match m with
  | Act a => without_clear_or_render a
  | _ => true
  end.

(** No undo, no new list from the host, and no add is called while another
    one is in flight. *)
Definition oneAddAtATime (m : Move) (s : Session) : bool :=
  match m with
  | Act (Undo _) | Act (HostRender _) => false
  | Act (Add _) | Call _ =>
      match inFlight s with
      | [] => true
      | _ :: _ => false
      end
  | _ => true
  end.

(** What the sessions of [oneAddAtATime] keep: the total is within
    [maxFiles], and so it is with the records of the add in flight. *)
Definition withinCapacity (p : Props) (s : Session) : Prop :=
  getTotalFileCount (widget s) <= maxFiles p
  /\ (List.length (inFlight s) <= 1)%nat
  /\ Forall (fun fl => getTotalFileCount (widget s)
                       + Z.of_nat (List.length (flight_records fl)) <= maxFiles p)
            (inFlight s).

(** The ids that are in use: those of the local files, of the intervals
    (an interval outlives the removal of its file) and of the records of
    the adds in flight. *)
Definition poolIds (w : Widget) : list string := map id (uploadedFiles w).

Definition intervalIds (w : Widget) : list string := map upload_fileId (uploads w).

Definition flightIds (flights : list InFlight) : list string :=
  flat_map (fun fl => map id (flight_records fl)) flights.

Definition mem (i : string) (l : list string) : bool := existsb (String.eqb i) l.

Fixpoint distinct (l : list string) : bool :=
  match l with
  | [] => true
  | i :: rest => negb (mem i rest) && distinct rest
  end.

(** The ids drawn for a batch are new: no two of them are equal and none
    is in use. *)
Definition freshIds (ids : list string) (s : Session) : bool :=
  distinct ids
  && forallb (fun i => negb (mem i (poolIds (widget s)))
                       && negb (mem i (intervalIds (widget s)))
                       && negb (mem i (flightIds (inFlight s)))) ids.

(** No file that Upload would start has an interval already. *)
Definition noneRunning (w : Widget) : bool :=
  forallb (fun f => negb (startable f && mem (id f) (intervalIds w)))
          (uploadedFiles w).

(** The ids drawn by [Math.random().toString(36)] never repeat, and Upload
    is pressed only while none of the files it starts is being uploaded:
    every file is then simulated by at most one interval. *)
Definition oneUploadPerFile (m : Move) (s : Session) : bool :=
  match m with
  | Act (Add files) | Call files => freshIds (map picked_id files) s
  | Act ManualUpload => noneRunning (widget s)
  | _ => true
  end.

(** The interval that simulates the upload of the file [fileId]. *)
Definition intervalOf (fileId : string) (w : Widget) : option Upload :=
  find (fun u => String.eqb (upload_fileId u) fileId) (uploads w).

(** The record [f] and the intervals agree: while an interval runs for
    [f], its local variable is the progress of [f], below 100, and [f] is
    not uploaded; without one, [f] is uploaded at 100 or has not started. *)
Definition coupled (w : Widget) (f : UploadedFile) : Prop :=
  match intervalOf (id f) w with
  | Some u =>
      uploaded f = false /\ upload_progress u = progress f
      /\ (0 <= progress f)%Q /\ (progress f < 100)%Q
  | None =>
      (uploaded f = true /\ progress f = 100%Q)
      \/ (uploaded f = false /\ progress f = 0%Q)
  end.

Definition notStarted (f : UploadedFile) : Prop :=
  uploaded f = false /\ progress f = 0%Q.

(** What the sessions of [oneUploadPerFile] keep. *)
Definition uploadsInOrder (s : Session) : Prop :=
  NoDup (poolIds (widget s) ++ flightIds (inFlight s))
  /\ NoDup (intervalIds (widget s))
  /\ (forall i, In i (intervalIds (widget s)) -> ~ In i (flightIds (inFlight s)))
  /\ NoDup (map upload_handle (uploads (widget s)))
  /\ Forall (fun u => (upload_handle u < nextHandle (widget s))%nat) (uploads (widget s))
  /\ Forall (coupled (widget s)) (uploadedFiles (widget s))
  /\ Forall (fun fl => Forall notStarted (flight_records fl)) (inFlight s).

(** Every character is in the ASCII range, where [toLowerCase] maps the
    letters A to Z and nothing else. *)
Fixpoint isAscii (s : string) : bool :=
  match s with
  | EmptyString => true
  | String c rest => (Ascii.nat_of_ascii c <? 128)%nat && isAscii rest
  end.

(** ** Concrete sessions *)

Definition singleProps : Props :=
  {| accept := None; fileTypes := [all]; maxFiles := 10; maxSize := 10;
     singleFile := true; autoUpload := true; allowRemove := true;
     disabled := false |}.

(** Two drops, of two files and of one, both made before the previews of
    either have arrived. *)
Definition overlappingAdds : Session :=
  playAll advance Wildcard.test twoFilesProps
    [Call [photo; report]; Call [notes]; Resume 0; Resume 0]
    (mkSession (mount []) []).

(** A file is being uploaded and the removal of a remote file is pending
    when a second file is dropped; a tick arrives while its preview is
    read. *)
Definition addInFlight : Session :=
  playAll advance Wildcard.test defaultProps
    [Act (Add [photo]); Act (RemoveExisting logo 0); Call [report];
     Act (UploadTimer 0 (1 # 2))]
    (mkSession (mount [logo; banner]) []).

(** The record of [photo] after that tick. *)
Definition halfwayPhoto : UploadedFile :=
  withProgress (newUploadedFile Wildcard.test defaultProps photo)
               (advance 0 (1 # 2)).

(** In single-file mode: the removal of the only remote file is requested,
    a file is dropped, and the removal is undone before the preview has
    been read. *)
Definition undoneWhileReading : Session :=
  playAll advance Wildcard.test singleProps
    [Act (RemoveExisting logo 0); Call [photo]; Act (Undo 1); Resume 0]
    (mkSession (mount [logo]) []).

(** With [maxFiles = 2]: a remote file is removed, a local one takes its
    place, the removal is undone, and one more file is offered. *)
Definition refilledThenUndone : Widget :=
  run Wildcard.test twoFilesProps
    [RemoveExisting logo 0; Add [photo]; Undo 1; Add [report]]
    (mount [logo; banner]).

(** The removal of [logo] is confirmed, the host lists [logo] again, and
    its removal is requested a second time and left to expire. *)
Definition removedTwice : list Action :=
  [RemoveExisting logo 0; Confirm 1; HostRender [logo; banner];
   RemoveExisting logo 100; SweepTimer 10100].

(** A second file is given the id of a file whose upload runs. *)
Definition sameIdTwice : list Action :=
  [Add [photo]; UploadTimer 0 (1 # 2); Add [photo]].

(** Upload is pressed a second time while the first upload runs. *)
Definition pressedTwice : list Action :=
  [Add [photo]; ManualUpload; UploadTimer 0 (1 # 2); ManualUpload].

Definition sampleOptions : list Combobox.ComboboxOption :=
  [Combobox.mkOption (Combobox.Str "de") "Germany" false;
   Combobox.mkOption (Combobox.Str "fr") "France" false;
   Combobox.mkOption (Combobox.Num 7) "Norway" true].

(** * Properties *)

(** ** Frame lemmas: what the handlers leave alone *)

Lemma fold_simulateUpload_fields (sel : UploadedFile -> bool) l w :
  let w' := fold_left
              (fun acc f => if sel f then simulateUpload (id f) acc else acc) l w in
  uploadedFiles w' = uploadedFiles w
  /\ uploadedFilesRef w' = uploadedFilesRef w
  /\ calls w' = calls w
  /\ same_remote w w'
  /\ same_effect_fields w w'.
Proof.
  revert w. induction l as [|f l IH]; intros w; cbn [fold_left].
  - unfold same_remote, same_effect_fields. repeat split.
  - destruct (sel f).
    + specialize (IH (simulateUpload (id f) w)). cbn zeta in IH.
      unfold same_remote, same_effect_fields in *. cbn in IH. exact IH.
    + apply IH.
Qed.

Section HandlerFrames.

Variable RegExp_test : string -> string -> bool.
Variable p : Props.

Lemma processFiles_effect_fields files w :
  same_effect_fields w (processFiles RegExp_test p files w).
Proof.
  unfold processFiles.
  destruct (singleFile p && (0 <? getTotalFileCount w)) eqn:E1;
    [unfold same_effect_fields; cbn; auto|].
  destruct (maxFiles p - getTotalFileCount w <=? 0) eqn:E2;
    [unfold same_effect_fields; cbn; auto|].
  set (new := map (newUploadedFile RegExp_test p) _).
  set (w1 := if singleFile p then _ else _).
  assert (H1 : same_effect_fields w w1).
  { unfold w1. destruct (singleFile p); unfold same_effect_fields; cbn; auto. }
  set (w2 := if autoUpload p then _ else w1).
  assert (H2 : same_effect_fields w w2).
  { unfold w2. destruct (autoUpload p); [|exact H1].
    pose proof (fold_simulateUpload_fields valid new w1) as (_ & _ & _ & _ & F).
    unfold same_effect_fields in *. intuition congruence. }
  destruct (0 <? _)%nat; [|exact H2].
  unfold same_effect_fields in *. cbn. exact H2.
Qed.

Lemma handle_effect_fields a w :
  same_effect_fields w (handle RegExp_test p a w).
Proof.
  destruct a; cbn [handle].
  - apply processFiles_effect_fields.
  - unfold same_effect_fields; cbn; auto.
  - unfold same_effect_fields; cbn; auto.
  - unfold undoRemoval. destruct (find _ _); unfold same_effect_fields; cbn; auto.
  - unfold same_effect_fields; cbn; auto.
  - unfold same_effect_fields; cbn; auto.
  - unfold manualUpload.
    apply (fold_simulateUpload_fields
             (fun f => negb (JS.truthy (error f)) && negb (uploaded f))).
  - unfold fireUpload. destruct (find _ _) as [u|];
      [|unfold same_effect_fields; auto].
    unfold uploadTick. destruct (done _); unfold same_effect_fields; cbn; auto.
  - unfold fireSweep. destruct (sweepTimer w) eqn:E;
      [|unfold same_effect_fields; auto].
    unfold sweepTick. destruct (sweepFilter _ _).
    unfold same_effect_fields; cbn; auto.
  - unfold same_effect_fields; cbn; auto.
Qed.

End HandlerFrames.

(** ** The state after the effects have run *)

Lemma uploadCompleteEffect_fields w :
  let w' := uploadCompleteEffect w in
  uploadedFiles w' = uploadedFiles w
  /\ uploadedFilesRef w' = uploadedFilesRef w
  /\ same_remote w w'
  /\ sweepTimer w' = sweepTimer w
  /\ depRemovalsLength w' = depRemovalsLength w
  /\ uploads w' = uploads w
  /\ nextHandle w' = nextHandle w
  /\ depAllNewUploaded w' = allNewUploaded w
  /\ depUploadedFilesRef w' = uploadedFilesRef w
  /\ calls w' = calls w ++ (if batchComplete w
                            then [onUploadComplete (filter uploaded (uploadedFiles w))]
                            else []).
Proof.
  unfold uploadCompleteEffect, batchComplete, same_remote.
  destruct (allNewUploaded w && existsb uploaded (uploadedFiles w)); cbn;
    rewrite ?app_nil_r; repeat split.
Qed.

Lemma runEffects_pools w :
  uploadedFiles (runEffects w) = uploadedFiles w
  /\ uploadedFilesRef (runEffects w) = uploadedFilesRef w
  /\ uploads (runEffects w) = uploads w
  /\ same_remote w (runEffects w).
Proof.
  unfold runEffects.
  set (w1 := if _ && _ then w else uploadCompleteEffect w).
  assert (H1 : uploadedFiles w1 = uploadedFiles w
               /\ uploadedFilesRef w1 = uploadedFilesRef w
               /\ uploads w1 = uploads w
               /\ same_remote w w1).
  { unfold w1. destruct (_ && _).
    - unfold same_remote; repeat split.
    - pose proof (uploadCompleteEffect_fields w) as H. cbn zeta in H. tauto. }
  destruct (Nat.eqb (depRemovalsLength w1) _); [exact H1|].
  unfold same_remote in *. cbn. exact H1.
Qed.

Lemma allNewUploaded_ext w w' :
  uploadedFiles w' = uploadedFiles w -> allNewUploaded w' = allNewUploaded w.
Proof. unfold allNewUploaded. intros ->. reflexivity. Qed.

Lemma runEffects_settled w :
  timer_tracks_length w -> settled (runEffects w).
Proof.
  intros T. unfold runEffects.
  set (w1 := if _ && _ then w else uploadCompleteEffect w).
  assert (H1 : depAllNewUploaded w1 = allNewUploaded w1
               /\ depUploadedFilesRef w1 = uploadedFilesRef w1
               /\ timer_tracks_length w1).
  { unfold w1. destruct (Bool.eqb _ _ && Nat.eqb _ _) eqn:E.
    - apply andb_true_iff in E as [E1 E2].
      apply Bool.eqb_prop in E1. apply Nat.eqb_eq in E2. auto.
    - pose proof (uploadCompleteEffect_fields w) as H. cbn zeta in H.
      destruct H as (U & R & _ & S' & L & _ & _ & A & B & _).
      unfold timer_tracks_length in *.
      rewrite A, B, S', L, R, (allNewUploaded_ext _ _ U). auto. }
  destruct H1 as (A & B & T1).
  destruct (Nat.eqb (depRemovalsLength w1) _) eqn:E.
  - apply Nat.eqb_eq in E. unfold settled. auto.
  - unfold settled, timer_tracks_length, sweepEffect, allNewUploaded in *. cbn.
    repeat split; auto.
    + destruct (Nat.eqb (List.length (undoableRemovals w1)) 0) eqn:E0.
      * intros _. now apply Nat.eqb_eq in E0.
      * discriminate.
    + intros ->. reflexivity.
Qed.

Lemma mount_settled existing : settled (mount existing).
Proof.
  unfold mount, settled, timer_tracks_length. cbn. repeat split; auto.
Qed.

Section Reachability.

Variable RegExp_test : string -> string -> bool.
Variable p : Props.

Lemma step_settled a w :
  timer_tracks_length w -> settled (step RegExp_test p a w).
Proof.
  intros T. apply runEffects_settled.
  pose proof (handle_effect_fields RegExp_test p a w) as (S' & _ & _ & L).
  unfold timer_tracks_length in *. now rewrite S', L.
Qed.

Lemma reachable_settled existing allowed w :
  reachable RegExp_test p existing allowed w -> settled w.
Proof.
  induction 1 as [|a w R IH].
  - apply mount_settled.
  - apply step_settled. apply IH.
Qed.

End Reachability.

Lemma settled_timer w :
  settled w -> (sweepTimer w = None <-> undoableRemovals w = []).
Proof.
  intros (_ & _ & L & T). unfold timer_tracks_length in T.
  rewrite T, L. apply length_zero_iff_nil.
Qed.

(** ** The removal sweep *)

Lemma sweepFilter_spec now l :
  sweepFilter now l
  = (filter (fun r => negb (expired now r)) l,
     map removal_id (filter (expired now) l)).
Proof.
  induction l as [|r l IH]; [reflexivity|].
  cbn [sweepFilter filter]. rewrite IH.
  destruct (expired now r); reflexivity.
Qed.

Lemma runEffects_idle w :
  settled w -> runEffects w = w.
Proof.
  intros (A & B & L & _). unfold runEffects.
  rewrite A, B, Bool.eqb_reflx, Nat.eqb_refl. cbn [andb].
  rewrite L, Nat.eqb_refl. reflexivity.
Qed.

Lemma runEffects_same_length w :
  depRemovalsLength w = List.length (undoableRemovals w) ->
  sweepTimer (runEffects w) = sweepTimer w.
Proof.
  intros L. unfold runEffects.
  set (w1 := if _ && _ then w else uploadCompleteEffect w).
  assert (H : sweepTimer w1 = sweepTimer w
              /\ depRemovalsLength w1 = depRemovalsLength w
              /\ undoableRemovals w1 = undoableRemovals w).
  { unfold w1. destruct (_ && _); [auto|].
    pose proof (uploadCompleteEffect_fields w) as H. cbn zeta in H.
    unfold same_remote in H. tauto. }
  destruct H as (S' & D & U).
  rewrite D, U, L, Nat.eqb_refl. exact S'.
Qed.

Lemma runEffects_new_length w :
  depRemovalsLength w <> List.length (undoableRemovals w) ->
  sweepTimer (runEffects w)
  = if Nat.eqb (List.length (undoableRemovals w)) 0 then None
    else Some (nextHandle w).
Proof.
  intros L. unfold runEffects.
  set (w1 := if _ && _ then w else uploadCompleteEffect w).
  assert (H : nextHandle w1 = nextHandle w
              /\ depRemovalsLength w1 = depRemovalsLength w
              /\ undoableRemovals w1 = undoableRemovals w).
  { unfold w1. destruct (_ && _); [auto|].
    pose proof (uploadCompleteEffect_fields w) as H. cbn zeta in H.
    unfold same_remote in H. tauto. }
  destruct H as (N & D & U).
  rewrite D, U. apply Nat.eqb_neq in L. rewrite L.
  cbn. rewrite U, N. reflexivity.
Qed.

Section Sweep.

Variable RegExp_test : string -> string -> bool.
Variable p : Props.

(** One firing of the sweep interval, on a state whose effects have run:
    expired entries leave the pending list and their ids are appended to
    the confirmed list, in order. *)
Lemma step_sweep w now :
  settled w ->
  let w' := step RegExp_test p (SweepTimer now) w in
  undoableRemovals w'
  = filter (fun r => negb (expired now r)) (undoableRemovals w)
  /\ removedImageIds w'
     = removedImageIds w
       ++ map removal_id (filter (expired now) (undoableRemovals w))
  /\ displayExistingFiles w' = displayExistingFiles w
  /\ uploadedFiles w' = uploadedFiles w.
Proof.
  intros S'. cbn zeta. unfold step. cbn [handle].
  pose proof (runEffects_pools (fireSweep now w)) as (U & _ & _ & D & I & P & _).
  rewrite U, D, I, P. unfold fireSweep.
  destruct (sweepTimer w) eqn:E.
  - unfold sweepTick. rewrite sweepFilter_spec. cbn. auto.
  - apply (settled_timer w S') in E. rewrite E. cbn.
    rewrite app_nil_r. auto.
Qed.

Lemma run_sweeps nows : forall w,
  settled w ->
  let w' := run RegExp_test p (map SweepTimer nows) w in
  settled w'
  /\ undoableRemovals w' = survivors nows (undoableRemovals w)
  /\ removedImageIds w' = removedImageIds w ++ swept nows (undoableRemovals w)
  /\ displayExistingFiles w' = displayExistingFiles w.
Proof.
  induction nows as [|now rest IH]; intros w S'; cbn zeta.
  - cbn. rewrite app_nil_r. auto.
  - cbn [map run fold_left survivors swept].
    pose proof (step_sweep w now S') as (U & I & D & _).
    assert (S1 : settled (step RegExp_test p (SweepTimer now) w))
      by (apply step_settled; apply S').
    destruct (IH _ S1) as (S2 & U2 & I2 & D2).
    unfold run in *.
    rewrite U2, I2, D2, U, I, D, app_assoc. auto.
Qed.

Lemma survivors_incl nows : forall l r, In r (survivors nows l) -> In r l.
Proof.
  induction nows as [|now rest IH]; intros l r H; [exact H|].
  cbn in H. apply IH in H. apply filter_In in H. tauto.
Qed.

Lemma swept_from_pending nows : forall l i,
  In i (swept nows l) -> In i (map removal_id l).
Proof.
  induction nows as [|now rest IH]; intros l i H; [destruct H|].
  cbn in H. apply in_app_or in H as [H|H].
  - apply in_map_iff in H as (r & <- & H). apply filter_In in H.
    apply in_map. tauto.
  - apply IH in H. apply in_map_iff in H as (r & <- & H).
    apply filter_In in H. apply in_map. tauto.
Qed.

Lemma swept_other_ids nows l i :
  (forall r, In r l -> removal_id r <> i) ->
  count_occ Z.eq_dec (swept nows l) i = 0%nat.
Proof.
  intros H. apply count_occ_not_In. intros I.
  apply swept_from_pending, in_map_iff in I as (r & E & I).
  exact (H r I E).
Qed.

(** An entry whose grace window is still open at every firing stays, and
    nothing is confirmed for it. *)
Lemma sweeps_in_window nows : forall l e,
  Forall (fun now => now < removedAt e + 10000) nows ->
  survivors nows (l ++ [e]) = survivors nows l ++ [e]
  /\ swept nows (l ++ [e]) = swept nows l.
Proof.
  induction nows as [|now rest IH]; intros l e F; [auto|].
  inversion F as [|? ? Hn F']; subst. cbn [survivors swept].
  assert (X : expired now e = false) by (unfold expired; lia).
  rewrite !filter_app. cbn [filter]. rewrite X. cbn [negb].
  rewrite app_nil_r.
  destruct (IH (filter (fun r => negb (expired now r)) l) e F') as (-> & ->).
  auto.
Qed.

(** An entry under an id that no other pending entry carries is confirmed
    exactly once by a run of firings one of which is past its window. *)
Lemma sweeps_past_window nows : forall l e,
  (forall r, In r l -> removal_id r <> removal_id e) ->
  Exists (fun now => removedAt e + 10000 <= now) nows ->
  count_occ Z.eq_dec (swept nows (l ++ [e])) (removal_id e) = 1%nat
  /\ forall r, In r (survivors nows (l ++ [e])) -> removal_id r <> removal_id e.
Proof.
  induction nows as [|now rest IH]; intros l e H X; [inversion X|].
  cbn [survivors swept]. rewrite !filter_app. cbn [filter].
  assert (Hn : forall r, In r (filter (fun r => negb (expired now r)) l) ->
                         removal_id r <> removal_id e).
  { intros r I. apply filter_In in I. apply H, I. }
  assert (He : count_occ Z.eq_dec
                 (map removal_id (filter (expired now) l)) (removal_id e) = 0%nat).
  { apply count_occ_not_In. intros I.
    apply in_map_iff in I as (r & E & I). apply filter_In in I.
    exact (H r (proj1 I) E). }
  destruct (expired now e) eqn:E; cbn [negb].
  - rewrite app_nil_r, map_app, !count_occ_app, He. cbn [map count_occ].
    destruct (Z.eq_dec (removal_id e) (removal_id e)) as [_|N]; [|congruence].
    rewrite (swept_other_ids rest _ _ Hn). split; [reflexivity|].
    intros r I. apply survivors_incl in I. auto.
  - rewrite app_nil_r, count_occ_app, He.
    apply IH; [exact Hn|].
    inversion X as [? ? Hx|? ? Hx]; subst; [|exact Hx].
    unfold expired in E. lia.
Qed.

End Sweep.

(** ** Requesting, undoing and confirming a removal *)

Lemma not_pending_spec (i : Z) (l : list UndoableRemoval) :
  existsb (fun r => Z.eqb (removal_id r) i) l = false
  <-> forall r, In r l -> removal_id r <> i.
Proof.
  split.
  - intros H r I E. apply Z.eqb_eq in E.
    assert (X : existsb (fun r => Z.eqb (removal_id r) i) l = true)
      by (apply existsb_exists; eauto).
    congruence.
  - intros H. destruct (existsb _ l) eqn:E; [|reflexivity].
    apply existsb_exists in E as (r & I & E). apply Z.eqb_eq in E.
    destruct (H r I E).
Qed.

Lemma find_last (i : Z) (l : list UndoableRemoval) (e : UndoableRemoval) :
  (forall r, In r l -> removal_id r <> i) ->
  removal_id e = i ->
  find (fun r => Z.eqb (removal_id r) i) (l ++ [e]) = Some e.
Proof.
  intros H E. induction l as [|r l IH]; cbn.
  - rewrite E, Z.eqb_refl. reflexivity.
  - destruct (Z.eqb_spec (removal_id r) i) as [X|_].
    + destruct (H r (or_introl eq_refl) X).
    + apply IH. intros r' I. apply H. now right.
Qed.

Section GraceWindow.

Variable RegExp_test : string -> string -> bool.
Variable p : Props.

Lemma step_removeExisting w f t :
  let w' := step RegExp_test p (RemoveExisting f t) w in
  undoableRemovals w' = undoableRemovals w ++ [mkUndoableRemoval (media_id f) f t]
  /\ displayExistingFiles w'
     = filter (fun g => negb (Z.eqb (media_id g) (media_id f)))
              (displayExistingFiles w)
  /\ removedImageIds w' = removedImageIds w
  /\ uploadedFiles w' = uploadedFiles w
  /\ existingFiles w' = existingFiles w.
Proof.
  cbn zeta. unfold step. cbn [handle].
  pose proof (runEffects_pools (removeExistingFile f t w))
    as (U & _ & _ & D & I & P & X).
  rewrite U, D, I, P, X. cbn. auto.
Qed.

Lemma step_undo w i e :
  find (fun r => Z.eqb (removal_id r) i) (undoableRemovals w) = Some e ->
  let w' := step RegExp_test p (Undo i) w in
  undoableRemovals w'
  = filter (fun r => negb (Z.eqb (removal_id r) i)) (undoableRemovals w)
  /\ displayExistingFiles w' = displayExistingFiles w ++ [removal_file e]
  /\ removedImageIds w' = removedImageIds w
  /\ uploadedFiles w' = uploadedFiles w
  /\ existingFiles w' = existingFiles w.
Proof.
  intros F. cbn zeta. unfold step. cbn [handle].
  pose proof (runEffects_pools (undoRemoval i w)) as (U & _ & _ & D & I & P & X).
  rewrite U, D, I, P, X. unfold undoRemoval. rewrite F. cbn. auto.
Qed.

Lemma step_clear w :
  let w' := step RegExp_test p Clear w in
  uploadedFiles w' = []
  /\ displayExistingFiles w' = []
  /\ undoableRemovals w' = undoableRemovals w
  /\ removedImageIds w' = removedImageIds w
  /\ existingFiles w' = existingFiles w.
Proof.
  cbn zeta. unfold step. cbn [handle].
  pose proof (runEffects_pools (clearAll w)) as (U & _ & _ & D & I & P & X).
  rewrite U, D, I, P, X. cbn. auto.
Qed.

(** C6 (as the code has it).  A remote file [f] that has no pending
    entry and whose id is not in the confirmed list, and whose removal is
    requested at time [t]: if the sweep fires only at times before
    [t + 10000] and the removal is then undone, [f] is again in the active
    remote list and the confirmed list has gained nothing for [f] (it is
    the old list followed by the ids of the other entries that expired
    meanwhile: unchanged when the undo follows at once); if the sweep
    fires at some time at or after [t + 10000], the id of [f] occurs
    exactly once in the confirmed list and no pending entry carries
    it. *)
Theorem removal_grace_window existing w f t :
  reachable RegExp_test p existing any_action w ->
  existsb (fun r => Z.eqb (removal_id r) (media_id f)) (undoableRemovals w) = false ->
  count_occ Z.eq_dec (removedImageIds w) (media_id f) = 0%nat ->
  let w1 := step RegExp_test p (RemoveExisting f t) w in
  (forall nows,
      Forall (fun now => now < t + 10000) nows ->
      let w3 := step RegExp_test p (Undo (media_id f))
                  (run RegExp_test p (map SweepTimer nows) w1) in
      In f (displayExistingFiles w3)
      /\ removedImageIds w3
         = removedImageIds w ++ swept nows (undoableRemovals w)
      /\ count_occ Z.eq_dec (removedImageIds w3) (media_id f) = 0%nat)
  /\ removedImageIds (step RegExp_test p (Undo (media_id f)) w1)
     = removedImageIds w
  /\ (forall nows,
      Exists (fun now => t + 10000 <= now) nows ->
      let w2 := run RegExp_test p (map SweepTimer nows) w1 in
      count_occ Z.eq_dec (removedImageIds w2) (media_id f) = 1%nat
      /\ existsb (fun r => Z.eqb (removal_id r) (media_id f))
                 (undoableRemovals w2) = false).
Proof.
  intros R NP' NC. cbn zeta.
  pose proof (proj1 (not_pending_spec _ _) NP') as NP. clear NP'.
  set (e := mkUndoableRemoval (media_id f) f t).
  pose proof (step_removeExisting w f t) as (U1 & _ & I1 & _). cbn zeta in *.
  fold e in U1.
  assert (S1 : settled (step RegExp_test p (RemoveExisting f t) w)).
  { apply step_settled. apply (reachable_settled _ _ _ _ _ R). }
  assert (Undo_in : forall nows,
      Forall (fun now => now < t + 10000) nows ->
      let w3 := step RegExp_test p (Undo (media_id f))
                  (run RegExp_test p (map SweepTimer nows)
                     (step RegExp_test p (RemoveExisting f t) w)) in
      In f (displayExistingFiles w3)
      /\ removedImageIds w3
         = removedImageIds w ++ swept nows (undoableRemovals w)
      /\ count_occ Z.eq_dec (removedImageIds w3) (media_id f) = 0%nat).
  { intros nows F. cbn zeta.
    pose proof (run_sweeps RegExp_test p nows _ S1) as (_ & U2 & I2 & _).
    cbn zeta in U2, I2. rewrite U1 in U2, I2. rewrite I1 in I2.
    destruct (sweeps_in_window nows (undoableRemovals w) e F) as (Sv & Sw).
    rewrite Sv in U2. rewrite Sw in I2.
    assert (Fd : find (fun r => Z.eqb (removal_id r) (media_id f))
                   (undoableRemovals
                      (run RegExp_test p (map SweepTimer nows)
                         (step RegExp_test p (RemoveExisting f t) w)))
                 = Some e).
    { rewrite U2. apply find_last; [|reflexivity].
      intros r I. apply NP. eapply survivors_incl, I. }
    pose proof (step_undo _ _ _ Fd) as (_ & D3 & I3 & _). cbn zeta in D3, I3.
    rewrite D3, I3, I2. split; [apply in_or_app; right; now left|].
    split; [reflexivity|].
    rewrite count_occ_app, NC. apply swept_other_ids. exact NP. }
  split; [exact Undo_in|]. split.
  - destruct (Undo_in [] (Forall_nil _)) as (_ & E & _).
    cbn in E. rewrite app_nil_r in E. exact E.
  - intros nows X.
    pose proof (run_sweeps RegExp_test p nows _ S1) as (_ & U2 & I2 & _).
    cbn zeta in U2, I2. rewrite U1 in U2, I2. rewrite I1 in I2.
    destruct (sweeps_past_window nows (undoableRemovals w) e NP X) as (C & Sv).
    rewrite I2, U2, count_occ_app, NC. split; [exact C|].
    apply not_pending_spec. exact Sv.
Qed.

(** C9.  In every reachable state the sweep interval exists exactly when
    the pending-deletion list is not empty; it does nothing while the
    list is empty, it is gone after any step that leaves the list empty,
    and a removal requested while the list is empty creates a new
    interval. *)
Theorem sweep_timer_lifetime existing w :
  reachable RegExp_test p existing any_action w ->
  (sweepTimer w <> None <-> undoableRemovals w <> [])
  /\ (forall now,
        undoableRemovals w = [] ->
        step RegExp_test p (SweepTimer now) w = w)
  /\ (forall a,
        undoableRemovals (step RegExp_test p a w) = [] ->
        sweepTimer (step RegExp_test p a w) = None)
  /\ (forall f now,
        undoableRemovals w = [] ->
        sweepTimer w = None
        /\ sweepTimer (step RegExp_test p (RemoveExisting f now) w)
           = Some (nextHandle w)).
Proof.
  intros R. pose proof (reachable_settled _ _ _ _ _ R) as S'.
  pose proof (settled_timer w S') as T.
  split; [tauto|]. split; [|split].
  - intros now E. unfold step. cbn [handle]. unfold fireSweep.
    rewrite (proj2 T E). apply runEffects_idle, S'.
  - intros a E. apply settled_timer; [|exact E].
    apply step_settled. apply S'.
  - intros f now E. split; [tauto|].
    destruct S' as (_ & _ & L & _).
    unfold step. cbn [handle].
    rewrite runEffects_new_length; cbn; rewrite E; cbn; [reflexivity|].
    rewrite L, E. discriminate.
Qed.

(** C10.  [clear] empties the local pending pool and the active remote
    pool and leaves the pending-deletion entries, the confirmed list
    and the sweep interval as they are; an entry that was pending is
    kept by a later firing of the sweep before its window ends and is
    confirmed (removed from the pending list, its id in the confirmed
    list) by a firing at or after it. *)
Theorem clear_keeps_pending_deletions existing w :
  reachable RegExp_test p existing any_action w ->
  let w' := step RegExp_test p Clear w in
  uploadedFiles w' = []
  /\ displayExistingFiles w' = []
  /\ undoableRemovals w' = undoableRemovals w
  /\ removedImageIds w' = removedImageIds w
  /\ sweepTimer w' = sweepTimer w
  /\ forall r now,
       In r (undoableRemovals w) ->
       sweepTimer w' <> None
       /\ let w'' := step RegExp_test p (SweepTimer now) w' in
          (now < removedAt r + 10000 -> In r (undoableRemovals w''))
          /\ (removedAt r + 10000 <= now ->
              ~ In r (undoableRemovals w'')
              /\ In (removal_id r) (removedImageIds w'')).
Proof.
  intros R. cbn zeta. pose proof (reachable_settled _ _ _ _ _ R) as S'.
  pose proof (step_clear w) as (U & D & P & I & _). cbn zeta in *.
  assert (S1 : settled (step RegExp_test p Clear w))
    by (apply step_settled; apply S').
  assert (T : sweepTimer (step RegExp_test p Clear w) = sweepTimer w).
  { unfold step. cbn [handle]. rewrite runEffects_same_length; [reflexivity|].
    cbn. apply S'. }
  repeat (split; [assumption|]).
  intros r now In_r. split.
  - rewrite T. intros N. apply (settled_timer w S') in N.
    rewrite N in In_r. destruct In_r.
  - pose proof (step_sweep RegExp_test p _ now S1) as (U2 & I2 & _).
    cbn zeta in *. rewrite U2, I2, P. split.
    + intros Lt. apply filter_In. split; [exact In_r|].
      unfold expired. apply negb_true_iff. lia.
    + intros Ge. assert (X : expired now r = true) by (unfold expired; lia).
      split.
      * intros H. apply filter_In in H as (_ & H). rewrite X in H. discriminate.
      * apply in_or_app. right. apply in_map. apply filter_In. auto.
Qed.

End GraceWindow.

(** ** Adding files *)

Lemma slice0_positive {A} (n : Z) (l : list A) :
  0 < n ->
  JS.slice0 n l = firstn (Z.to_nat (Z.min (Z.of_nat (List.length l)) n)) l.
Proof.
  intros H. unfold JS.slice0.
  destruct (Z.ltb_spec n 0) as [|_]; [lia|].
  destruct (Z.le_ge_cases (Z.of_nat (List.length l)) n) as [L|L].
  - rewrite Z.min_l, Nat2Z.id by lia.
    rewrite firstn_all. apply firstn_all2. lia.
  - rewrite Z.min_r by lia. reflexivity.
Qed.

Lemma existsb_filter_length {A} (f : A -> bool) (l : list A) :
  (0 <? List.length (filter f l))%nat = existsb f l.
Proof.
  induction l as [|x l IH]; [reflexivity|].
  cbn. destruct (f x); [reflexivity|exact IH].
Qed.

Section Adding.

Variable RegExp_test : string -> string -> bool.
Variable p : Props.

Lemma processFiles_refused files w :
  refused p w = true ->
  exists message,
    processFiles RegExp_test p files w = call (onError message) w.
Proof.
  unfold refused, processFiles. intros H.
  destruct (singleFile p && (0 <? getTotalFileCount w)); [eauto|].
  cbn in H. rewrite H. eauto.
Qed.

Lemma single_mode_pools_empty w :
  singleFile p && (0 <? getTotalFileCount w) = false ->
  singleFile p = true ->
  uploadedFiles w = [] /\ displayExistingFiles w = [].
Proof.
  intros H S'. rewrite S' in H. cbn in H. apply Z.ltb_ge in H.
  unfold getTotalFileCount in H.
  split; apply length_zero_iff_nil; lia.
Qed.

Lemma processFiles_accepted files w :
  refused p w = false ->
  let w' := processFiles RegExp_test p files w in
  let new := accepted RegExp_test p files w in
  uploadedFiles w' = uploadedFiles w ++ new
  /\ same_remote w w'
  /\ calls w'
     = calls w
       ++ (if existsb valid new
           then [onFilesChange (map file (uploadedFiles w)
                                ++ map file (filter valid new))]
           else [])
  /\ uploadedFilesRef w' = S (uploadedFilesRef w).
Proof.
  unfold refused. intros H. apply orb_false_iff in H as (H1 & H2).
  cbn zeta. unfold processFiles. rewrite H1, H2. fold (accepted RegExp_test p files w).
  set (new := accepted RegExp_test p files w).
  set (w1 := if singleFile p then _ else _).
  assert (W1 : uploadedFiles w1 = uploadedFiles w ++ new
               /\ same_remote w w1 /\ calls w1 = calls w
               /\ uploadedFilesRef w1 = S (uploadedFilesRef w)).
  { unfold w1, same_remote.
    pose proof (single_mode_pools_empty w H1) as E.
    destruct (singleFile p).
    - destruct (E eq_refl) as (U & D). cbn. rewrite U, D. repeat split.
    - cbn. repeat split. }
  set (w2 := if autoUpload p then _ else w1).
  assert (W2 : uploadedFiles w2 = uploadedFiles w ++ new
               /\ same_remote w w2 /\ calls w2 = calls w
               /\ uploadedFilesRef w2 = S (uploadedFilesRef w)).
  { unfold w2. destruct (autoUpload p); [|exact W1].
    pose proof (fold_simulateUpload_fields valid new w1) as (U & N & C & Rm & _).
    destruct W1 as (U1 & R1 & C1 & N1).
    unfold same_remote in *. rewrite U, C, N. intuition congruence. }
  rewrite length_map, existsb_filter_length.
  destruct W2 as (U2 & R2 & C2 & N2).
  destruct (existsb valid new); unfold same_remote in *; cbn;
    rewrite ?C2, ?app_nil_r; auto.
Qed.

Lemma runEffects_calls w :
  exists fs, calls (runEffects w) = calls w ++ map onUploadComplete fs.
Proof.
  unfold runEffects.
  set (w1 := if _ && _ then w else uploadCompleteEffect w).
  assert (H : exists fs, calls w1 = calls w ++ map onUploadComplete fs).
  { unfold w1. destruct (_ && _).
    - exists []. cbn. now rewrite app_nil_r.
    - pose proof (uploadCompleteEffect_fields w) as H. cbn zeta in H.
      destruct H as (_ & _ & _ & _ & _ & _ & _ & _ & _ & C). rewrite C.
      destruct (batchComplete w); [eexists [_]|exists []]; reflexivity. }
  destruct (Nat.eqb (depRemovalsLength w1) _); exact H.
Qed.

Lemma errors_app l l' : errors (l ++ l') = errors l ++ errors l'.
Proof. apply flat_map_app. Qed.

Lemma fileChanges_app l l' : fileChanges (l ++ l') = fileChanges l ++ fileChanges l'.
Proof. apply flat_map_app. Qed.

Lemma completions_app l l' : completions (l ++ l') = completions l ++ completions l'.
Proof. apply flat_map_app. Qed.

Lemma errors_completions fs : errors (map onUploadComplete fs) = [].
Proof. induction fs; [reflexivity|exact IHfs]. Qed.

Lemma fileChanges_completions fs : fileChanges (map onUploadComplete fs) = [].
Proof. induction fs; [reflexivity|exact IHfs]. Qed.

(** The pools and the reported errors after one [add]. *)
Lemma step_add_pools files w :
  let currentCount := getTotalFileCount w in
  let availableSlots := maxFiles p - currentCount in
  let w' := step RegExp_test p (Add files) w in
  if (singleFile p && (0 <? currentCount)) || (availableSlots <=? 0) then
    (exists message, errors (calls w') = errors (calls w) ++ [message])
    /\ uploadedFiles w' = uploadedFiles w
    /\ displayExistingFiles w' = displayExistingFiles w
    /\ undoableRemovals w' = undoableRemovals w
    /\ removedImageIds w' = removedImageIds w
  else
    let taken := Z.to_nat (Z.min (Z.of_nat (List.length files)) availableSlots) in
    uploadedFiles w'
    = uploadedFiles w ++ map (newUploadedFile RegExp_test p) (firstn taken files)
    /\ List.length (uploadedFiles w') = (List.length (uploadedFiles w) + taken)%nat
    /\ displayExistingFiles w' = displayExistingFiles w
    /\ undoableRemovals w' = undoableRemovals w
    /\ removedImageIds w' = removedImageIds w
    /\ errors (calls w') = errors (calls w)
    /\ getTotalFileCount w' <= maxFiles p.
Proof.
  cbn zeta. fold (refused p w). unfold step. cbn [handle].
  pose proof (runEffects_pools (processFiles RegExp_test p files w))
    as (U & _ & _ & D & I & P & _).
  destruct (runEffects_calls (processFiles RegExp_test p files w)) as (fs & C).
  destruct (refused p w) eqn:Rf.
  - destruct (processFiles_refused files w Rf) as (message & E).
    rewrite U, D, I, P, C, E. cbn.
    repeat split. exists message.
    rewrite !errors_app, errors_completions, app_nil_r. reflexivity.
  - pose proof (processFiles_accepted files w Rf)
      as (U' & (D' & I' & P' & _) & C' & _).
    cbn zeta in *.
    assert (Pos : 0 < maxFiles p - getTotalFileCount w).
    { unfold refused in Rf. apply orb_false_iff in Rf as (_ & Rf).
      now apply Z.leb_gt in Rf. }
    unfold accepted in U'. rewrite slice0_positive in U' by exact Pos.
    set (taken := Z.to_nat _) in *.
    assert (Len : List.length (firstn taken files) = taken).
    { apply firstn_length_le. unfold taken. lia. }
    rewrite U, D, I, P, C, U', D', I', P', C'.
    repeat split.
    + rewrite length_app, length_map, Len. reflexivity.
    + rewrite !errors_app, errors_completions, app_nil_r.
      destruct (existsb valid _); cbn; now rewrite app_nil_r.
    + unfold getTotalFileCount in *. rewrite U, D, U', D'.
      rewrite length_app, length_map, Len. unfold taken. lia.
Qed.

(** C3 (as the code has it).  With [maxFiles = 2] and both pools empty,
    a batch of three files leaves two local pending files, the first two
    of the batch, and reports no error: the third file is dropped
    without a call of [onError]. *)
Theorem add_three_with_room_for_two files w :
  maxFiles p = 2 ->
  uploadedFiles w = [] ->
  displayExistingFiles w = [] ->
  List.length files = 3%nat ->
  let w' := step RegExp_test p (Add files) w in
  List.length (uploadedFiles w') = 2%nat
  /\ map file (uploadedFiles w') = map picked_file (firstn 2 files)
  /\ errors (calls w') = errors (calls w).
Proof.
  intros M U D L. cbn zeta.
  pose proof (step_add_pools files w) as H. cbn zeta in H.
  assert (C : getTotalFileCount w = 0)
    by (unfold getTotalFileCount; rewrite U, D; reflexivity).
  rewrite C, M, L, andb_false_r in H. cbn in H.
  destruct H as (U' & Len & _ & _ & _ & E & _).
  rewrite U' in *. rewrite U in *. cbn [app] in *.
  split; [exact Len|]. split; [|exact E].
  rewrite map_map. reflexivity.
Qed.

Lemma step_add_changes files w :
  let w' := step RegExp_test p (Add files) w in
  let new := if refused p w then [] else accepted RegExp_test p files w in
  uploadedFiles w' = uploadedFiles w ++ new
  /\ fileChanges (calls w')
     = fileChanges (calls w)
       ++ (if existsb valid new
           then [map file (uploadedFiles w) ++ map file (filter valid new)]
           else []).
Proof.
  cbn zeta. unfold step. cbn [handle].
  pose proof (runEffects_pools (processFiles RegExp_test p files w)) as (U & _).
  destruct (runEffects_calls (processFiles RegExp_test p files w)) as (fs & C).
  rewrite U, C, fileChanges_app, fileChanges_completions, app_nil_r.
  destruct (refused p w) eqn:Rf.
  - destruct (processFiles_refused files w Rf) as (message & ->).
    cbn. rewrite fileChanges_app, !app_nil_r. auto.
  - pose proof (processFiles_accepted files w Rf) as (U' & _ & C' & _).
    cbn zeta in *. rewrite U', C', fileChanges_app. split; [reflexivity|].
    destruct (existsb valid _); reflexivity.
Qed.

Lemma step_removeNew fileId w :
  let w' := step RegExp_test p (RemoveNew fileId) w in
  uploadedFiles w'
  = filter (fun f => negb (String.eqb (id f) fileId)) (uploadedFiles w)
  /\ fileChanges (calls w')
     = fileChanges (calls w) ++ [map file (uploadedFiles w')]
  /\ same_remote w w'.
Proof.
  cbn zeta. unfold step. cbn [handle].
  pose proof (runEffects_pools (removeNewFile fileId w)) as (U & _ & _ & Rm).
  destruct (runEffects_calls (removeNewFile fileId w)) as (fs & C).
  rewrite U, C, fileChanges_app, fileChanges_completions, app_nil_r.
  cbn. rewrite fileChanges_app. repeat split; apply Rm.
Qed.

Lemma step_clear_changes w :
  fileChanges (calls (step RegExp_test p Clear w))
  = fileChanges (calls w) ++ [[]].
Proof.
  unfold step. cbn [handle].
  destruct (runEffects_calls (clearAll w)) as (fs & C).
  rewrite C, fileChanges_app, fileChanges_completions, app_nil_r.
  cbn. now rewrite fileChanges_app.
Qed.

Lemma filter_all_valid l : forallb valid l = true -> filter valid l = l.
Proof.
  induction l as [|f l IH]; [reflexivity|].
  cbn. intros H. apply andb_true_iff in H as (V & H).
  rewrite V, (IH H). reflexivity.
Qed.

Lemma forallb_filter {A} (g h : A -> bool) l :
  forallb g l = true -> forallb g (filter h l) = true.
Proof.
  induction l as [|x l IH]; [reflexivity|].
  cbn. intros H. apply andb_true_iff in H as (V & H).
  destruct (h x); cbn; rewrite ?V; auto.
Qed.

Lemma oversized_rejected x :
  maxSize p * 1024 * 1024 < File_size (picked_file x) ->
  error (newUploadedFile RegExp_test p x)
  = Some ("File size must be less than " ++ JS.show (maxSize p) ++ "MB")%string
  /\ valid (newUploadedFile RegExp_test p x) = false.
Proof.
  intros H. unfold valid, newUploadedFile, validateFile. cbn [error].
  apply Z.ltb_lt in H. rewrite H. split; reflexivity.
Qed.

End Adding.

(** ** The upload-complete notification *)

Lemma batchComplete_ext w w' :
  uploadedFiles w' = uploadedFiles w -> batchComplete w' = batchComplete w.
Proof.
  intros E. unfold batchComplete. now rewrite (allNewUploaded_ext _ _ E), E.
Qed.

Lemma runEffects_completions w :
  completions (calls (runEffects w))
  = completions (calls w)
    ++ (if negb (Bool.eqb (depAllNewUploaded w) (allNewUploaded w)
                 && Nat.eqb (depUploadedFilesRef w) (uploadedFilesRef w))
           && batchComplete w
        then [filter uploaded (uploadedFiles w)] else []).
Proof.
  unfold runEffects.
  set (w1 := if _ && _ then w else uploadCompleteEffect w).
  assert (H : calls w1
              = calls w
                ++ (if negb (Bool.eqb (depAllNewUploaded w) (allNewUploaded w)
                             && Nat.eqb (depUploadedFilesRef w) (uploadedFilesRef w))
                       && batchComplete w
                    then [onUploadComplete (filter uploaded (uploadedFiles w))]
                    else [])).
  { unfold w1. destruct (_ && _); cbn [negb andb].
    - now rewrite app_nil_r.
    - pose proof (uploadCompleteEffect_fields w) as H. cbn zeta in H.
      destruct H as (_ & _ & _ & _ & _ & _ & _ & _ & _ & C). exact C. }
  assert (C : calls (if Nat.eqb (depRemovalsLength w1)
                                (List.length (undoableRemovals w1))
                     then w1 else sweepEffect w1) = calls w1)
    by (destruct (Nat.eqb (depRemovalsLength w1) _); reflexivity).
  rewrite C, H, completions_app.
  destruct (_ && batchComplete w); reflexivity.
Qed.

Section Completion.

Variable RegExp_test : string -> string -> bool.
Variable p : Props.

(** A handler either leaves the local-files array alone or stores a new
    one, and never invokes [onUploadComplete] itself. *)
Lemma handle_local a w :
  let h := handle RegExp_test p a w in
  ((uploadedFilesRef h = uploadedFilesRef w /\ uploadedFiles h = uploadedFiles w)
   \/ uploadedFilesRef h = S (uploadedFilesRef w))
  /\ completions (calls h) = completions (calls w).
Proof.
  cbn zeta. destruct a; cbn [handle].
  - destruct (refused p w) eqn:Rf.
    + destruct (processFiles_refused RegExp_test p files w Rf) as (m & ->).
      cbn. rewrite completions_app, app_nil_r. auto.
    + pose proof (processFiles_accepted RegExp_test p files w Rf)
        as (_ & _ & C & N). cbn zeta in *.
      rewrite C, N, completions_app.
      destruct (existsb _ _); cbn; rewrite app_nil_r; auto.
  - cbn. rewrite completions_app, app_nil_r. auto.
  - cbn. rewrite completions_app, app_nil_r. auto.
  - unfold undoRemoval. destruct (find _ _); cbn; auto.
  - cbn. auto.
  - cbn. rewrite completions_app, app_nil_r. auto.
  - unfold manualUpload.
    pose proof (fold_simulateUpload_fields
                  (fun f => negb (JS.truthy (error f)) && negb (uploaded f))
                  (uploadedFiles w) w) as (U & N & C & _).
    cbn zeta in *. rewrite U, N, C. auto.
  - unfold fireUpload. destruct (find _ _) as [u|]; [|auto].
    unfold uploadTick. destruct (done _); cbn; auto.
  - unfold fireSweep. destruct (sweepTimer w); [|auto].
    unfold sweepTick. destruct (sweepFilter _ _). cbn. auto.
  - cbn. auto.
Qed.

Lemma step_completions a w :
  settled w ->
  let w' := step RegExp_test p a w in
  completions (calls w')
  = completions (calls w)
    ++ (if completionDepsChanged w w' && batchComplete w'
        then [filter uploaded (uploadedFiles w')] else []).
Proof.
  intros (A & B & _). cbn zeta. unfold step.
  set (h := handle RegExp_test p a w).
  pose proof (runEffects_pools h) as (U & N & _).
  pose proof (handle_effect_fields RegExp_test p a w) as (_ & A' & B' & _).
  pose proof (handle_local a w) as (_ & C). cbn zeta in C. fold h in A', B', C.
  rewrite runEffects_completions, C, A', B', A, B.
  unfold completionDepsChanged, arrayReplaced.
  rewrite N, (batchComplete_ext _ _ U), (allNewUploaded_ext _ _ U), U.
  rewrite negb_andb, orb_comm. reflexivity.
Qed.

(** C1 (as the code has it).  In a reachable state, a step invokes
    [onUploadComplete] at most once, with the uploaded files, and it does
    so exactly when the dependencies of the effect changed and the new
    pool is complete.  Hence the step that completes the pool invokes it
    exactly once; a step that leaves the local-files array in place
    (requesting, undoing or confirming a removal, the sweep, a host
    render, starting uploads) does not invoke it; and any later step
    that stores a new array and leaves the pool complete invokes it
    again. *)
Theorem upload_complete_notification existing w a :
  reachable RegExp_test p existing any_action w ->
  let w' := step RegExp_test p a w in
  completions (calls w')
  = completions (calls w)
    ++ (if completionDepsChanged w w' && batchComplete w'
        then [filter uploaded (uploadedFiles w')] else [])
  /\ (batchComplete w = false ->
      batchComplete w' = true ->
      completions (calls w')
      = completions (calls w) ++ [filter uploaded (uploadedFiles w')])
  /\ (uploadedFilesRef w' = uploadedFilesRef w ->
      completions (calls w') = completions (calls w))
  /\ (arrayReplaced w w' = true ->
      batchComplete w' = true ->
      completions (calls w')
      = completions (calls w) ++ [filter uploaded (uploadedFiles w')])
  /\ match a with
     | RemoveExisting _ _ | Undo _ | Confirm _ | SweepTimer _
     | HostRender _ | ManualUpload =>
         completions (calls w') = completions (calls w)
     | _ => True
     end.
Proof.
  intros R. pose proof (reachable_settled _ _ _ _ _ R) as S'. cbn zeta.
  pose proof (step_completions a w S') as C. cbn zeta in C.
  pose proof (handle_local a w) as (L & _). cbn zeta in L.
  pose proof (runEffects_pools (handle RegExp_test p a w)) as (U & N & _).
  fold (step RegExp_test p a w) in U, N.
  assert (Same : uploadedFilesRef (step RegExp_test p a w) = uploadedFilesRef w ->
                 completions (calls (step RegExp_test p a w))
                 = completions (calls w)).
  { intros E. rewrite C. unfold completionDepsChanged, arrayReplaced.
    destruct L as [(_ & F)|X]; [|rewrite N, X in E; lia].
    assert (F' : uploadedFiles (step RegExp_test p a w) = uploadedFiles w)
      by (now rewrite U).
    rewrite E, Nat.eqb_refl, (allNewUploaded_ext w _ F'), Bool.eqb_reflx.
    cbn. now rewrite app_nil_r. }
  split; [exact C|]. split; [|split; [exact Same|split]].
  - intros B0 B1. rewrite C, B1, andb_true_r.
    destruct (completionDepsChanged _ _) eqn:Ch; [reflexivity|].
    unfold completionDepsChanged, arrayReplaced in Ch.
    apply orb_false_iff in Ch as (Ch & _). apply negb_false_iff, Nat.eqb_eq in Ch.
    destruct L as [(_ & F)|X]; [|rewrite N, X in Ch; lia].
    assert (F' : uploadedFiles (step RegExp_test p a w) = uploadedFiles w)
      by (now rewrite U).
    rewrite (batchComplete_ext w _ F') in B1. congruence.
  - intros Ch B1. rewrite C, B1. unfold completionDepsChanged. rewrite Ch.
    reflexivity.
  - destruct a; try exact I; apply Same; rewrite N; cbn [handle].
    + reflexivity.
    + unfold undoRemoval. destruct (find _ _); reflexivity.
    + reflexivity.
    + unfold manualUpload.
      apply (fold_simulateUpload_fields
               (fun f => negb (JS.truthy (error f)) && negb (uploaded f))).
    + unfold fireSweep. destruct (sweepTimer w); [|reflexivity].
      unfold sweepTick. destruct (sweepFilter _ _). reflexivity.
    + reflexivity.
Qed.

End Completion.

(** ** The progress simulator *)

Lemma find_map_preserved {A} (P : A -> bool) (g : A -> A) (l : list A) :
  (forall x, P (g x) = P x) ->
  find P (map g l) = option_map g (find P l).
Proof.
  intros H. induction l as [|x l IH]; [reflexivity|].
  cbn. rewrite H. destruct (P x); [reflexivity|exact IH].
Qed.

Lemma find_filter_out {A} (P : A -> bool) (l : list A) :
  find P (filter (fun x => negb (P x)) l) = None.
Proof.
  induction l as [|x l IH]; [reflexivity|].
  cbn. destruct (P x) eqn:E; cbn; rewrite ?E; exact IH.
Qed.

Lemma find_holds {A} (P : A -> bool) (l : list A) x :
  find P l = Some x -> P x = true.
Proof. intros H. now apply find_some in H. Qed.

Section Simulator.

Variable RegExp_test : string -> string -> bool.
Variable p : Props.

Lemma step_uploadTimer h r w :
  let w' := step RegExp_test p (UploadTimer h r) w in
  match interval h w with
  | None => uploadedFiles w' = uploadedFiles w /\ uploads w' = uploads w
  | Some u =>
      let progress := advance (upload_progress u) r in
      if done progress then
        uploadedFiles w'
        = map (fun f => if String.eqb (id f) (upload_fileId u)
                        then withUploaded f else f) (uploadedFiles w)
        /\ interval h w' = None
      else
        uploadedFiles w'
        = map (fun f => if String.eqb (id f) (upload_fileId u)
                        then withProgress f progress else f) (uploadedFiles w)
        /\ interval h w' = Some (mkUpload h (upload_fileId u) progress)
  end.
Proof.
  cbn zeta. unfold step, interval. cbn [handle].
  pose proof (runEffects_pools (fireUpload h r w)) as (U & _ & T & _).
  rewrite U, T. unfold fireUpload.
  destruct (find _ (uploads w)) as [u|] eqn:F; [|auto].
  pose proof (find_holds _ _ _ F) as Hu. apply Nat.eqb_eq in Hu.
  unfold uploadTick. destruct (done _) eqn:Dn; cbn; rewrite Hu.
  - split; [reflexivity|]. apply find_filter_out.
  - split; [reflexivity|].
    rewrite find_map_preserved, F.
    + cbn. now rewrite Hu, Nat.eqb_refl.
    + intros v. destruct (Nat.eqb (upload_handle v) h) eqn:E; cbn;
        now rewrite ?E, ?Nat.eqb_refl.
Qed.

(** One tick of the interval that simulates the upload of [f]. *)
Lemma tracked_tick h fileId w f r :
  tracked h fileId w f ->
  (0 <= r)%Q ->
  exists f',
    tracked h fileId (step RegExp_test p (UploadTimer h r) w) f'
    /\ (progress f <= progress f')%Q
    /\ (progress f' <= 100)%Q
    /\ (uploaded f = true -> f' = f)
    /\ (uploaded f' = true <-> progress f' = 100%Q)
    /\ (uploaded f' = true
        <-> uploaded f = true \/ (100 <= progress f + r * 25)%Q)
    /\ (uploaded f' = false -> progress f' = (progress f + r * 25)%Q).
Proof.
  intros (Sh & T) Hr.
  pose proof (step_uploadTimer h r w) as St. cbn zeta in St.
  pose proof (find_holds _ _ _ Sh) as Hid. apply String.eqb_eq in Hid.
  destruct (interval h w) as [u|] eqn:I.
  - destruct T as (<- & Pu & Un & P0 & P100).
    assert (Found : forall g,
               id (g f) = id f ->
               (forall x, id (g x) = id x) ->
               find (fun x => String.eqb (id x) (upload_fileId u))
                    (map (fun x => if String.eqb (id x) (upload_fileId u)
                                   then g x else x) (uploadedFiles w))
               = Some (g f)).
    { intros g _ G. rewrite find_map_preserved.
      - unfold shown in Sh. rewrite Sh. cbn. now rewrite Hid, String.eqb_refl.
      - intros x. destruct (String.eqb (id x) (upload_fileId u)) eqn:E;
          [now rewrite G|exact E]. }
    unfold advance in St. rewrite Pu in St.
    destruct (done (progress f + r * 25)) eqn:Dn; destruct St as (U' & I').
    + apply Qle_bool_iff in Dn.
      exists (withUploaded f). unfold tracked, shown. rewrite U', I'.
      rewrite (Found withUploaded eq_refl (fun _ => eq_refl)). cbn.
      repeat split; auto; try (apply Qlt_le_weak; assumption);
        try apply Qle_refl; try congruence.
    + assert (Lt : (progress f + r * 25 < 100)%Q).
      { apply Qnot_le_lt. intros H. apply Qle_bool_iff in H.
        unfold done in Dn. congruence. }
      assert (Ge : (progress f <= progress f + r * 25)%Q).
      { rewrite <- (Qplus_0_r (progress f)) at 1.
        apply Qplus_le_r. apply Qmult_le_0_compat; [exact Hr|discriminate]. }
      exists (withProgress f (progress f + r * 25)).
      unfold tracked, shown. rewrite U', I'.
      rewrite (Found (fun x => withProgress x (progress f + r * 25)) eq_refl
                     (fun _ => eq_refl)). cbn.
      repeat split; auto; try (apply Qlt_le_weak; assumption);
        try congruence.
      * apply (Qle_trans _ (progress f)); assumption.
      * intros E. rewrite E in Lt. destruct (Qlt_irrefl _ Lt).
      * intros [E|E]; [congruence|].
        destruct (Qlt_not_le _ _ Lt E).
  - destruct T as (Up & P100). destruct St as (U' & T').
    exists f. unfold tracked, shown, interval in *. rewrite U', T', I.
    rewrite P100, Up.
    repeat split; auto; try apply Qle_refl; try discriminate.
Qed.

End Simulator.

(** ** The remote pools *)

Lemma option_eqb_eq (x y : option string) :
  option_eqb String.eqb x y = true -> x = y.
Proof.
  destruct x, y; cbn; try discriminate; [|reflexivity].
  intros H. apply String.eqb_eq in H. congruence.
Qed.

Lemma DisplayFile_eqb_eq f g : DisplayFile_eqb f g = true -> f = g.
Proof.
  unfold DisplayFile_eqb. intros H.
  repeat (apply andb_true_iff in H as (H & ?)).
  destruct f, g. cbn in *.
  apply Z.eqb_eq in H. apply String.eqb_eq in H3. apply Z.eqb_eq in H2.
  apply option_eqb_eq in H1. apply option_eqb_eq in H0. congruence.
Qed.

Lemma NoDup_map_injective {A B} (f : A -> B) (l : list A) x y :
  NoDup (map f l) -> In x l -> In y l -> f x = f y -> x = y.
Proof.
  induction l as [|a l IH]; intros N Ix Iy E; [destruct Ix|].
  cbn in N. inversion N as [|? ? Na Nl]; subst.
  destruct Ix as [<-|Ix], Iy as [<-|Iy]; auto.
  - exfalso. apply Na. rewrite E. now apply in_map.
  - exfalso. apply Na. rewrite <- E. now apply in_map.
Qed.

Lemma NoDup_map_filter {A B} (f : A -> B) (P : A -> bool) (l : list A) :
  NoDup (map f l) -> NoDup (map f (filter P l)).
Proof.
  induction l as [|a l IH]; intros N; [exact N|].
  cbn in *. inversion N as [|? ? Na Nl]; subst.
  destruct (P a); [|auto]. cbn. constructor; [|auto].
  intros I. apply Na. apply in_map_iff in I as (x & E & I).
  apply filter_In in I. apply in_map_iff. exists x. tauto.
Qed.

Lemma NoDup_snoc {A} (l : list A) x :
  NoDup l -> ~ In x l -> NoDup (l ++ [x]).
Proof.
  induction l as [|a l IH]; intros N Nx; cbn.
  - constructor; [intros []|constructor].
  - inversion N as [|? ? Na Nl]; subst. constructor.
    + intros I. apply in_app_or in I as [I|[<-|[]]]; [auto|].
      apply Nx. now left.
    + apply IH; [exact Nl|]. intros I. apply Nx. now right.
Qed.

Lemma mount_remote existing :
  displayExistingFiles (mount existing) = existing
  /\ undoableRemovals (mount existing) = []
  /\ removedImageIds (mount existing) = []
  /\ existingFiles (mount existing) = existing
  /\ uploadedFiles (mount existing) = [].
Proof. destruct existing; cbn; auto. Qed.

Section RemotePools.

Variable RegExp_test : string -> string -> bool.
Variable p : Props.

(** Steps that concern local files only. *)
Lemma step_local_same_remote a w :
  match a with
  | Add _ | RemoveNew _ | ManualUpload | UploadTimer _ _ => True
  | _ => False
  end ->
  same_remote w (step RegExp_test p a w).
Proof.
  intros L. unfold step.
  pose proof (runEffects_pools (handle RegExp_test p a w)) as (_ & _ & _ & Rm).
  assert (H : same_remote w (handle RegExp_test p a w)).
  { destruct a; try destruct L; cbn [handle].
    - destruct (refused p w) eqn:Rf.
      + destruct (processFiles_refused RegExp_test p files w Rf) as (m & ->).
        unfold same_remote. cbn. auto.
      + apply (processFiles_accepted RegExp_test p files w Rf).
    - unfold same_remote. cbn. auto.
    - unfold manualUpload.
      apply (fold_simulateUpload_fields
               (fun f => negb (JS.truthy (error f)) && negb (uploaded f))).
    - unfold fireUpload. destruct (find _ _); [|unfold same_remote; auto].
      unfold uploadTick. destruct (done _); unfold same_remote; cbn; auto. }
  unfold same_remote in *. intuition congruence.
Qed.

Lemma same_remote_invariant w w' :
  same_remote w w' ->
  remote_wf w /\ union_invariant w ->
  remote_wf w' /\ union_invariant w'.
Proof.
  intros (D & I & P & X). unfold remote_wf, union_invariant, remoteUnion.
  rewrite D, I, P, X. auto.
Qed.

Lemma step_confirm w i :
  let w' := step RegExp_test p (Confirm i) w in
  undoableRemovals w'
  = filter (fun r => negb (Z.eqb (removal_id r) i)) (undoableRemovals w)
  /\ removedImageIds w' = removedImageIds w ++ [i]
  /\ displayExistingFiles w' = displayExistingFiles w
  /\ existingFiles w' = existingFiles w.
Proof.
  cbn zeta. unfold step. cbn [handle].
  pose proof (runEffects_pools (confirmRemoval i w)) as (_ & _ & _ & D & I & P & X).
  rewrite D, I, P, X. cbn. auto.
Qed.

Lemma in_pending_files w g :
  In g (map removal_file (undoableRemovals w)) ->
  exists r, In r (undoableRemovals w) /\ removal_file r = g.
Proof. intros H. apply in_map_iff in H as (r & E & I). eauto. Qed.

Lemma entry_id w r :
  remote_wf w -> In r (undoableRemovals w) ->
  removal_id r = media_id (removal_file r).
Proof.
  intros (_ & _ & F & _) I. rewrite Forall_forall in F. auto.
Qed.

Lemma union_in_existing w g :
  union_invariant w -> In g (remoteUnion w) -> In g (existingFiles w).
Proof. intros U I. now apply U in I. Qed.

Lemma removeExisting_invariant w f t :
  In f (displayExistingFiles w) ->
  remote_wf w /\ union_invariant w ->
  let w' := step RegExp_test p (RemoveExisting f t) w in
  remote_wf w' /\ union_invariant w'.
Proof.
  intros If (Wf & Un). cbn zeta.
  pose proof (step_removeExisting RegExp_test p w f t) as (P & D & I & _ & X).
  cbn zeta in *.
  pose proof Wf as (Inj & Dis & Ids & Nd).
  assert (Fresh : forall r, In r (undoableRemovals w) -> removal_id r <> media_id f).
  { intros r Ir E. apply (Dis f If).
    assert (G : removal_file r = f).
    { apply Inj.
      - apply (union_in_existing w _ Un). unfold remoteUnion.
        apply in_or_app. right. now apply in_map.
      - apply (union_in_existing w _ Un). unfold remoteUnion.
        apply in_or_app. now left.
      - rewrite <- (entry_id w r Wf Ir). exact E. }
    rewrite <- G. now apply in_map. }
  split.
  - unfold remote_wf. rewrite P, D, X. repeat split.
    + exact Inj.
    + intros g Ig Ip. apply filter_In in Ig as (Ig & Ne).
      rewrite map_app in Ip. apply in_app_or in Ip as [Ip|[<-|[]]].
      * exact (Dis g Ig Ip).
      * cbn in Ne. rewrite Z.eqb_refl in Ne. discriminate.
    + apply Forall_app. split; [exact Ids|]. constructor; [reflexivity|constructor].
    + rewrite map_app. cbn. apply NoDup_snoc; [exact Nd|].
      intros H. apply in_map_iff in H as (r & E & Ir).
      exact (Fresh r Ir E).
  - unfold union_invariant, remoteUnion in *. intros g.
    rewrite P, D, I, X, map_app, <- (Un g). cbn. rewrite !in_app_iff, filter_In.
    cbn. split.
    + intros [(Ig & _)|[Ig|[<-|[]]]]; auto.
    + intros [Ig|Ig]; [|auto].
      destruct (Z.eqb_spec (media_id g) (media_id f)) as [E|Ne].
      * right. right. left. symmetry. apply Inj; auto.
        -- apply (union_in_existing w _ Un). unfold remoteUnion.
           apply in_or_app. now left.
        -- apply (union_in_existing w _ Un). unfold remoteUnion.
           apply in_or_app. now left.
      * left. split; [exact Ig|reflexivity].
Qed.

Lemma pending_file_in_existing w r :
  union_invariant w -> In r (undoableRemovals w) ->
  In (removal_file r) (existingFiles w).
Proof.
  intros Un Ir. apply (union_in_existing w _ Un). unfold remoteUnion.
  apply in_or_app. right. now apply in_map.
Qed.

Lemma active_in_existing w g :
  union_invariant w -> In g (displayExistingFiles w) -> In g (existingFiles w).
Proof.
  intros Un Ig. apply (union_in_existing w _ Un). unfold remoteUnion.
  apply in_or_app. now left.
Qed.

(** An active file does not have the id of a pending entry. *)
Lemma active_id_not_pending w g r :
  remote_wf w -> union_invariant w ->
  In g (displayExistingFiles w) -> In r (undoableRemovals w) ->
  media_id g <> removal_id r.
Proof.
  intros Wf Un Ig Ir E. pose proof Wf as (Inj & Dis & _).
  apply (Dis g Ig).
  assert (G : g = removal_file r).
  { apply Inj.
    - now apply active_in_existing.
    - now apply pending_file_in_existing.
    - rewrite <- (entry_id w r Wf Ir). exact E. }
  rewrite G. now apply in_map.
Qed.

Lemma undo_invariant w i :
  existsb (fun r => Z.eqb (removal_id r) i) (undoableRemovals w) = true ->
  remote_wf w /\ union_invariant w ->
  let w' := step RegExp_test p (Undo i) w in
  remote_wf w' /\ union_invariant w'.
Proof.
  intros En (Wf & Un). cbn zeta.
  destruct (find (fun r => Z.eqb (removal_id r) i) (undoableRemovals w))
    as [e|] eqn:F.
  2:{ apply existsb_exists in En as (r & Ir & E).
      pose proof (find_none _ _ F r Ir) as N. cbn in N. congruence. }
  pose proof (step_undo RegExp_test p w i e F) as (P & D & I & _ & X).
  cbn zeta in *.
  apply find_some in F as (Ie & Ee). apply Z.eqb_eq in Ee.
  pose proof Wf as (Inj & Dis & Ids & Nd).
  split.
  - unfold remote_wf. rewrite P, D, X. repeat split.
    + exact Inj.
    + intros g Ig Ip. apply in_map_iff in Ip as (r & <- & Ir).
      apply filter_In in Ir as (Ir & Ne).
      apply in_app_or in Ig as [Ig|[G|[]]].
      * apply (Dis _ Ig). now apply in_map.
      * apply negb_true_iff, Z.eqb_neq in Ne. apply Ne.
        rewrite (entry_id w r Wf Ir), <- G, <- (entry_id w e Wf Ie). exact Ee.
    + rewrite Forall_forall in *. intros r Ir. apply filter_In in Ir. apply Ids, Ir.
    + apply NoDup_map_filter, Nd.
  - unfold union_invariant, remoteUnion in *. intros g.
    rewrite P, D, I, X, <- (Un g). rewrite !in_app_iff. cbn. split.
    + intros [[Ig|[<-|[]]]|Ig]; auto.
      * right. now apply in_map.
      * right. apply in_map_iff in Ig as (r & <- & Ir).
        apply filter_In in Ir. apply in_map, Ir.
    + intros [Ig|Ig]; [auto|].
      apply in_map_iff in Ig as (r & <- & Ir).
      destruct (Z.eqb_spec (removal_id r) i) as [E|Ne].
      * left. right. left.
        rewrite (NoDup_map_injective removal_id _ r e Nd Ir Ie); congruence.
      * right. apply in_map. apply filter_In. split; [exact Ir|].
        apply negb_true_iff, Z.eqb_neq, Ne.
Qed.

Lemma confirm_invariant w i :
  existsb (fun r => Z.eqb (removal_id r) i) (undoableRemovals w) = true ->
  remote_wf w /\ union_invariant w ->
  let w' := step RegExp_test p (Confirm i) w in
  remote_wf w' /\ union_invariant w'.
Proof.
  intros En (Wf & Un). cbn zeta.
  apply existsb_exists in En as (e & Ie & Ee). apply Z.eqb_eq in Ee.
  pose proof (step_confirm w i) as (P & I & D & X). cbn zeta in *.
  pose proof Wf as (Inj & Dis & Ids & Nd).
  split.
  - unfold remote_wf. rewrite P, D, X. repeat split.
    + exact Inj.
    + intros g Ig Ip. apply (Dis g Ig).
      apply in_map_iff in Ip as (r & <- & Ir). apply filter_In in Ir.
      apply in_map, Ir.
    + rewrite Forall_forall in *. intros r Ir. apply filter_In in Ir. apply Ids, Ir.
    + apply NoDup_map_filter, Nd.
  - unfold union_invariant, remoteUnion in *. intros g.
    rewrite P, D, I, X. rewrite !in_app_iff. cbn. split.
    + intros [Ig|Ig].
      * assert (G : In g (existingFiles w) /\ ~ In (media_id g) (removedImageIds w))
          by (apply Un; apply in_or_app; now left).
        split; [apply G|]. intros [H|[H|[]]]; [now apply G|].
        apply (active_id_not_pending w g e Wf Un Ig Ie). congruence.
      * apply in_map_iff in Ig as (r & <- & Ir).
        apply filter_In in Ir as (Ir & Ne).
        apply negb_true_iff, Z.eqb_neq in Ne.
        assert (G : In (removal_file r) (existingFiles w)
                    /\ ~ In (media_id (removal_file r)) (removedImageIds w))
          by (apply Un; apply in_or_app; right; now apply in_map).
        split; [apply G|]. intros [H|[H|[]]]; [now apply G|].
        apply Ne. rewrite (entry_id w r Wf Ir). congruence.
    + intros (Ig & Nc).
      assert (G : In g (displayExistingFiles w)
                  \/ In g (map removal_file (undoableRemovals w))).
      { apply in_app_or. apply Un. split; [exact Ig|].
        intros H. apply Nc. now left. }
      destruct G as [G|G]; [auto|]. right.
      apply in_map_iff in G as (r & <- & Ir). apply in_map.
      apply filter_In. split; [exact Ir|].
      apply negb_true_iff, Z.eqb_neq. intros E. apply Nc. right. left.
      rewrite <- (entry_id w r Wf Ir). congruence.
Qed.

Lemma sweep_invariant w now :
  settled w ->
  remote_wf w /\ union_invariant w ->
  let w' := step RegExp_test p (SweepTimer now) w in
  remote_wf w' /\ union_invariant w'.
Proof.
  intros St (Wf & Un). cbn zeta.
  pose proof (step_sweep RegExp_test p w now St) as (P & I & D & _).
  cbn zeta in *.
  assert (X : existingFiles (step RegExp_test p (SweepTimer now) w)
              = existingFiles w).
  { unfold step. cbn [handle].
    pose proof (runEffects_pools (fireSweep now w)) as (_ & _ & _ & _ & _ & _ & X).
    rewrite X. unfold fireSweep. destruct (sweepTimer w); [|reflexivity].
    unfold sweepTick. destruct (sweepFilter _ _). reflexivity. }
  pose proof Wf as (Inj & Dis & Ids & Nd).
  split.
  - unfold remote_wf. rewrite P, D, X. repeat split.
    + exact Inj.
    + intros g Ig Ip. apply (Dis g Ig).
      apply in_map_iff in Ip as (r & <- & Ir). apply filter_In in Ir.
      apply in_map, Ir.
    + rewrite Forall_forall in *. intros r Ir. apply filter_In in Ir. apply Ids, Ir.
    + apply NoDup_map_filter, Nd.
  - unfold union_invariant, remoteUnion in *. intros g.
    rewrite P, D, I, X. rewrite !in_app_iff. split.
    + intros [Ig|Ig].
      * assert (G : In g (existingFiles w) /\ ~ In (media_id g) (removedImageIds w))
          by (apply Un; apply in_or_app; now left).
        split; [apply G|]. intros [H|H]; [now apply G|].
        apply in_map_iff in H as (r & E & Ir). apply filter_In in Ir as (Ir & _).
        apply (active_id_not_pending w g r Wf Un Ig Ir). congruence.
      * apply in_map_iff in Ig as (r & <- & Ir).
        apply filter_In in Ir as (Ir & Ne). apply negb_true_iff in Ne.
        assert (G : In (removal_file r) (existingFiles w)
                    /\ ~ In (media_id (removal_file r)) (removedImageIds w))
          by (apply Un; apply in_or_app; right; now apply in_map).
        split; [apply G|]. intros [H|H]; [now apply G|].
        apply in_map_iff in H as (r' & E & Ir'). apply filter_In in Ir' as (Ir' & Ex).
        rewrite <- (entry_id w r Wf Ir) in E.
        rewrite (NoDup_map_injective removal_id _ r' r Nd Ir' Ir E) in Ex.
        congruence.
    + intros (Ig & Nc).
      assert (G : In g (displayExistingFiles w)
                  \/ In g (map removal_file (undoableRemovals w))).
      { apply in_app_or. apply Un. split; [exact Ig|].
        intros H. apply Nc. now left. }
      destruct G as [G|G]; [auto|]. right.
      apply in_map_iff in G as (r & <- & Ir). apply in_map.
      apply filter_In. split; [exact Ir|].
      apply negb_true_iff. destruct (expired now r) eqn:Ex; [|reflexivity].
      exfalso. apply Nc. right.
      rewrite <- (entry_id w r Wf Ir). apply in_map. apply filter_In. auto.
Qed.

Lemma reachable_remote_invariant existing w :
  NoDup (map media_id existing) ->
  reachable RegExp_test p existing without_clear_or_render w ->
  existingFiles w = existing /\ remote_wf w /\ union_invariant w.
Proof.
  intros Nd R. induction R as [|a w R IH Al En].
  - destruct (mount_remote existing) as (D & P & I & X & _).
    unfold remote_wf, union_invariant, remoteUnion. rewrite D, P, I, X. cbn.
    split; [reflexivity|]. split.
    + repeat split; try constructor.
      * intros f g If Ig. now apply (NoDup_map_injective media_id existing).
      * auto.
    + intros f. rewrite app_nil_r. tauto.
  - destruct IH as (X & Inv).
    pose proof (reachable_settled _ _ _ _ _ R) as St.
    assert (Loc : same_remote w (step RegExp_test p a w) ->
                  existingFiles (step RegExp_test p a w) = existing
                  /\ remote_wf (step RegExp_test p a w)
                  /\ union_invariant (step RegExp_test p a w)).
    { intros Sr. split; [|now apply (same_remote_invariant w)].
      destruct Sr as (_ & _ & _ & E). congruence. }
    destruct a; try discriminate Al;
      try (apply Loc; apply step_local_same_remote; exact I).
    + cbn in En. apply andb_true_iff in En as (_ & En).
      apply existsb_exists in En as (g & Ig & E).
      apply DisplayFile_eqb_eq in E. subst g.
      split; [|now apply removeExisting_invariant].
      pose proof (step_removeExisting RegExp_test p w f now) as (_ & _ & _ & _ & E).
      cbn zeta in E. congruence.
    + cbn in En. split; [|now apply undo_invariant].
      destruct (find (fun r => Z.eqb (removal_id r) fileId) (undoableRemovals w))
        as [e|] eqn:F.
      * pose proof (step_undo RegExp_test p w fileId e F) as (_ & _ & _ & _ & E).
        cbn zeta in E. congruence.
      * apply existsb_exists in En as (r & Ir & E).
        pose proof (find_none _ _ F r Ir) as N. cbn in N. congruence.
    + cbn in En. split; [|now apply confirm_invariant].
      pose proof (step_confirm w fileId) as (_ & _ & _ & E).
      cbn zeta in E. congruence.
    + split; [|now apply sweep_invariant].
      unfold step. cbn [handle].
      pose proof (runEffects_pools (fireSweep now w)) as (_ & _ & _ & _ & _ & _ & E).
      rewrite E. unfold fireSweep. destruct (sweepTimer w); [|exact X].
      unfold sweepTick. destruct (sweepFilter _ _). exact X.
Qed.

(** An active file of such a state is neither pending nor confirmed. *)
Lemma active_file_fresh existing w f :
  NoDup (map media_id existing) ->
  reachable RegExp_test p existing without_clear_or_render w ->
  In f (displayExistingFiles w) ->
  existsb (fun r => Z.eqb (removal_id r) (media_id f)) (undoableRemovals w) = false
  /\ count_occ Z.eq_dec (removedImageIds w) (media_id f) = 0%nat.
Proof.
  intros Nd R If.
  destruct (reachable_remote_invariant existing w Nd R) as (_ & Wf & Un).
  split.
  - apply not_pending_spec. intros r Ir E.
    apply (active_id_not_pending w f r Wf Un If Ir). congruence.
  - apply count_occ_not_In.
    assert (G : In f (remoteUnion w)) by (apply in_or_app; now left).
    apply Un in G. apply G.
Qed.

End RemotePools.

(** ** The display list *)

Lemma subseq_refl {A} (l : list A) : subseq l l.
Proof. induction l; [apply subseq_nil|apply subseq_cons; assumption]. Qed.


Lemma subseq_filter {A} (P : A -> bool) (l : list A) : subseq (filter P l) l.
Proof.
  induction l as [|x l IH]; cbn; [constructor|].
  destruct (P x); [apply subseq_cons|apply subseq_skip]; exact IH.
Qed.



Lemma skipn_nth_error {A} (l : list A) : forall i x,
  nth_error l i = Some x -> skipn i l = x :: skipn (S i) l.
Proof.
  induction l as [|a l IH]; intros [|i] x H; cbn in *; try discriminate.
  - congruence.
  - apply IH, H.
Qed.

Lemma everyIdMatches_ids prev : forall mapped i,
  everyIdMatches prev mapped i = true ->
  List.length prev = (List.length mapped - i)%nat ->
  map media_id prev = map media_id (skipn i mapped).
Proof.
  induction prev as [|q prev IH]; intros mapped i E L.
  - cbn in *. rewrite skipn_all2 by lia. reflexivity.
  - cbn in E. destruct (nth_error mapped i) as [m|] eqn:N; [|discriminate].
    apply andb_true_iff in E as (E1 & E2). apply Z.eqb_eq in E1.
    rewrite (skipn_nth_error _ _ _ N). cbn [map]. rewrite E1. f_equal.
    apply IH; [exact E2|]. cbn in L. lia.
Qed.

Section DisplayList.

Variable RegExp_test : string -> string -> bool.
Variable p : Props.





End DisplayList.

(** ** Runs of enabled actions *)

Lemma reachable_run RegExp_test p existing allowed actions : forall w,
  reachable RegExp_test p existing allowed w ->
  runnable RegExp_test p allowed actions w = true ->
  reachable RegExp_test p existing allowed (run RegExp_test p actions w).
Proof.
  induction actions as [|a rest IH]; intros w R H; [exact R|].
  cbn in H. apply andb_true_iff in H as (H & Hr).
  apply andb_true_iff in H as (Al & En).
  apply IH; [|exact Hr]. now apply reachable_step.
Qed.

Lemma increments_nonneg randoms :
  Forall (fun r => 0 <= r)%Q randoms -> (0 <= increments randoms)%Q.
Proof.
  induction 1 as [|r rest Hr _ IH]; cbn; [apply Qle_refl|].
  assert (0 <= r * 25)%Q by (apply Qmult_le_0_compat; [exact Hr|discriminate]).
  lra.
Qed.

(** Ticks whose increments do not add up to 100 leave the upload
    unfinished. *)
Lemma slow_ticks RegExp_test p h fileId randoms : forall w f,
  tracked h fileId w f ->
  uploaded f = false ->
  Forall (fun r => 0 <= r)%Q randoms ->
  (progress f + increments randoms < 100)%Q ->
  exists f',
    tracked h fileId (run RegExp_test p (upload_ticks h randoms) w) f'
    /\ uploaded f' = false
    /\ (progress f' == progress f + increments randoms)%Q.
Proof.
  induction randoms as [|r rest IH]; intros w f T Un F Lt.
  - exists f. cbn [upload_ticks map run fold_left increments].
    split; [exact T|]. split; [exact Un|]. now rewrite Qplus_0_r.
  - inversion F as [|? ? Hr F']; subst. cbn [increments] in Lt.
    pose proof (increments_nonneg rest F') as Nn.
    destruct (tracked_tick RegExp_test p h fileId w f r T Hr)
      as (f1 & T1 & _ & _ & _ & _ & C1 & V1).
    assert (Un1 : uploaded f1 = false).
    { destruct (uploaded f1) eqn:E; [|reflexivity].
      destruct (proj1 C1 eq_refl) as [X|X]; [congruence|]. lra. }
    specialize (V1 Un1).
    destruct (IH _ f1 T1 Un1 F') as (f2 & T2 & Un2 & E2).
    + rewrite V1. lra.
    + exists f2. cbn [upload_ticks map run fold_left increments] in *.
      split; [exact T2|]. split; [exact Un2|]. rewrite E2, V1. lra.
Qed.

(** ** Concrete runs *)

Lemma mount_reachable allowed existing :
  reachable Wildcard.test defaultProps existing allowed (mount existing).
Proof. apply reachable_mount. Qed.

Lemma uploading_reachable :
  reachable Wildcard.test defaultProps [] any_action uploading.
Proof.
  apply (reachable_run _ _ _ _ [Add [photo]]);
    [apply reachable_mount|reflexivity].
Qed.

Lemma bothUploaded_reachable :
  reachable Wildcard.test defaultProps [] any_action bothUploaded.
Proof.
  apply reachable_run; [apply reachable_mount|vm_compute; reflexivity].
Qed.

Lemma removalPending_reachable allowed :
  allowed (RemoveExisting logo 0) = true ->
  reachable Wildcard.test defaultProps [logo; banner] allowed removalPending.
Proof.
  intros H. apply reachable_step; [apply reachable_mount|exact H|reflexivity].
Qed.

Lemma uploading_tracked :
  tracked 0 "ida" uploading (newUploadedFile Wildcard.test defaultProps photo).
Proof.
  unfold tracked. vm_compute. repeat split; try discriminate.
Qed.

(** C1, counterexample.  Both uploads have completed and the callback has
    been invoked once; removing one of the two uploaded files, which
    completes no new batch, invokes it a second time. *)
Lemma upload_complete_fires_again :
  reachable Wildcard.test defaultProps [] any_action bothUploaded
  /\ enabled defaultProps (RemoveNew "idb") bothUploaded = true
  /\ batchComplete bothUploaded = true
  /\ List.length (completions (calls bothUploaded)) = 1%nat
  /\ List.length
       (completions
          (calls (step Wildcard.test defaultProps (RemoveNew "idb") bothUploaded)))
     = 2%nat.
Proof.
  split; [exact bothUploaded_reachable|]. vm_compute. repeat split.
Qed.

(** C2, counterexample.  Adding one file of 50MB under [maxSize = 10]
    stores it with the size error and does not invoke [onFilesChange] at
    all; and when it is added together with a valid file and the valid
    file is then removed, the payload of that [onFilesChange] is the
    oversized file. *)
Lemma oversized_file_not_reported :
  (let w := step Wildcard.test defaultProps (Add [oversized]) (mount []) in
   map error (uploadedFiles w) = [Some "File size must be less than 10MB"]
   /\ fileChanges (calls w) = [])
  /\ (let w := run Wildcard.test defaultProps
                 [Add [oversized; photo]; RemoveNew "ida"] (mount []) in
      fileChanges (calls w) = [[picked_file photo]; [picked_file oversized]]
      /\ payload w = []).
Proof. vm_compute. repeat split. Qed.

(** C3, counterexample.  With [maxFiles = 2], both pools empty and a batch
    of three files, two files are accepted and [onError] is not invoked. *)
Lemma excess_file_dropped_silently :
  let w := step Wildcard.test twoFilesProps (Add [photo; report; notes]) (mount []) in
  map id (uploadedFiles w) = ["ida"; "idb"]
  /\ errors (calls w) = [].
Proof. vm_compute. repeat split. Qed.

(** C4, counterexample.  After [clear] the host's files are neither
    active nor pending nor confirmed. *)
Lemma clear_breaks_union_invariant :
  let w := step Wildcard.test defaultProps Clear (mount [logo; banner]) in
  reachable Wildcard.test defaultProps [logo; banner] any_action w
  /\ NoDup (map media_id [logo; banner])
  /\ existingFiles w = [logo; banner]
  /\ removedImageIds w = []
  /\ remoteUnion w = []
  /\ ~ union_invariant w.
Proof.
  cbn zeta. split.
  - apply reachable_step; [apply reachable_mount|reflexivity|reflexivity].
  - split.
    + repeat constructor; cbn; intuition discriminate.
    + repeat split. intros H.
      destruct (proj2 (H logo)).
      split; [now left|intros []].
Qed.

(** C5, counterexample.  No number of ticks suffices for every run of
    draws: while [Math.random()] returns 0, the progress stays at 0 and the
    file is not uploaded. *)
Lemma upload_needs_unbounded_ticks :
  ~ exists bound : nat,
      forall randoms,
        Forall (fun r => 0 <= r /\ r < 1)%Q randoms ->
        List.length randoms = bound ->
        exists f,
          shown "ida" (run Wildcard.test defaultProps (upload_ticks 0 randoms) uploading)
          = Some f
          /\ uploaded f = true.
Proof.
  intros (bound & H).
  assert (Z0 : forall n, (increments (repeat 0%Q n) == 0)%Q).
  { induction n as [|n IH]; cbn; [reflexivity|]. rewrite IH. reflexivity. }
  assert (F : forall n, Forall (fun r => 0 <= r /\ r < 1)%Q (repeat 0%Q n)).
  { induction n; cbn; constructor; auto. split; [apply Qle_refl|reflexivity]. }
  destruct (H (repeat 0%Q bound) (F bound) (repeat_length _ _)) as (f & Sh & Up).
  destruct (slow_ticks Wildcard.test defaultProps 0 "ida" (repeat 0%Q bound)
              uploading _ uploading_tracked eq_refl)
    as (f' & (Sh' & _) & Un & _).
  - eapply Forall_impl; [|apply (F bound)]. cbn. tauto.
  - rewrite Z0. reflexivity.
  - rewrite Sh in Sh'. congruence.
Qed.


(** ** The theorems at concrete inputs *)

Lemma almostUploaded_reachable :
  reachable Wildcard.test defaultProps [] any_action almostUploaded.
Proof.
  apply reachable_run; [apply reachable_mount|vm_compute; reflexivity].
Qed.

Lemma upload_complete_notification_witness :
  let w := almostUploaded in
  let a := UploadTimer 0 (99 # 100) in
  let w' := step Wildcard.test defaultProps a w in
  reachable Wildcard.test defaultProps [] any_action w
  /\ (completions (calls w')
      = completions (calls w)
        ++ (if completionDepsChanged w w' && batchComplete w'
            then [filter uploaded (uploadedFiles w')] else [])
      /\ (batchComplete w = false ->
          batchComplete w' = true ->
          completions (calls w')
          = completions (calls w) ++ [filter uploaded (uploadedFiles w')])
      /\ (uploadedFilesRef w' = uploadedFilesRef w ->
          completions (calls w') = completions (calls w))
      /\ (arrayReplaced w w' = true ->
          batchComplete w' = true ->
          completions (calls w')
          = completions (calls w) ++ [filter uploaded (uploadedFiles w')])
      /\ True).
Proof.
  cbn zeta. split; [exact almostUploaded_reachable|].
  apply (upload_complete_notification Wildcard.test defaultProps []
           almostUploaded (UploadTimer 0 (99 # 100))).
  exact almostUploaded_reachable.
Defined.

Lemma add_three_with_room_for_two_witness :
  let files := [photo; report; notes] in
  let w := mount [] in
  let w' := step Wildcard.test twoFilesProps (Add files) w in
  maxFiles twoFilesProps = 2
  /\ uploadedFiles w = []
  /\ displayExistingFiles w = []
  /\ List.length files = 3%nat
  /\ (List.length (uploadedFiles w') = 2%nat
      /\ map file (uploadedFiles w') = map picked_file (firstn 2 files)
      /\ errors (calls w') = errors (calls w)).
Proof.
  cbn zeta. repeat (split; [reflexivity|]).
  apply (add_three_with_room_for_two Wildcard.test twoFilesProps
           [photo; report; notes] (mount [])); reflexivity.
Defined.

Lemma logo_banner_distinct : NoDup (map media_id [logo; banner]).
Proof. repeat constructor; cbn; intuition discriminate. Qed.

Lemma removal_grace_window_witness :
  let p := defaultProps in
  let w := mount [logo; banner] in
  let f := logo in
  let t := 5000 in
  let w1 := step Wildcard.test p (RemoveExisting f t) w in
  reachable Wildcard.test p [logo; banner] any_action w
  /\ existsb (fun r => Z.eqb (removal_id r) (media_id f)) (undoableRemovals w) = false
  /\ count_occ Z.eq_dec (removedImageIds w) (media_id f) = 0%nat
  /\ ((forall nows,
         Forall (fun now => now < t + 10000) nows ->
         let w3 := step Wildcard.test p (Undo (media_id f))
                     (run Wildcard.test p (map SweepTimer nows) w1) in
         In f (displayExistingFiles w3)
         /\ removedImageIds w3
            = removedImageIds w ++ swept nows (undoableRemovals w)
         /\ count_occ Z.eq_dec (removedImageIds w3) (media_id f) = 0%nat)
      /\ removedImageIds (step Wildcard.test p (Undo (media_id f)) w1)
         = removedImageIds w
      /\ (forall nows,
            Exists (fun now => t + 10000 <= now) nows ->
            let w2 := run Wildcard.test p (map SweepTimer nows) w1 in
            count_occ Z.eq_dec (removedImageIds w2) (media_id f) = 1%nat
            /\ existsb (fun r => Z.eqb (removal_id r) (media_id f))
                       (undoableRemovals w2) = false)).
Proof.
  cbn zeta. split; [apply reachable_mount|].
  split; [reflexivity|]. split; [reflexivity|].
  apply (removal_grace_window Wildcard.test defaultProps [logo; banner]
           (mount [logo; banner]) logo 5000).
  - apply reachable_mount.
  - reflexivity.
  - reflexivity.
Defined.


Lemma sweep_timer_lifetime_witness :
  let p := defaultProps in
  let w := removalPending in
  reachable Wildcard.test p [logo; banner] any_action w
  /\ ((sweepTimer w <> None <-> undoableRemovals w <> [])
      /\ (forall now,
            undoableRemovals w = [] ->
            step Wildcard.test p (SweepTimer now) w = w)
      /\ (forall a,
            undoableRemovals (step Wildcard.test p a w) = [] ->
            sweepTimer (step Wildcard.test p a w) = None)
      /\ (forall f now,
            undoableRemovals w = [] ->
            sweepTimer w = None
            /\ sweepTimer (step Wildcard.test p (RemoveExisting f now) w)
               = Some (nextHandle w))).
Proof.
  cbn zeta. split; [apply removalPending_reachable; reflexivity|].
  apply (sweep_timer_lifetime Wildcard.test defaultProps [logo; banner]
           removalPending).
  apply removalPending_reachable. reflexivity.
Defined.

Lemma clear_keeps_pending_deletions_witness :
  let p := defaultProps in
  let w := removalPending in
  let w' := step Wildcard.test p Clear w in
  reachable Wildcard.test p [logo; banner] any_action w
  /\ (uploadedFiles w' = []
      /\ displayExistingFiles w' = []
      /\ undoableRemovals w' = undoableRemovals w
      /\ removedImageIds w' = removedImageIds w
      /\ sweepTimer w' = sweepTimer w
      /\ forall r now,
           In r (undoableRemovals w) ->
           sweepTimer w' <> None
           /\ let w'' := step Wildcard.test p (SweepTimer now) w' in
              (now < removedAt r + 10000 -> In r (undoableRemovals w''))
              /\ (removedAt r + 10000 <= now ->
                  ~ In r (undoableRemovals w'')
                  /\ In (removal_id r) (removedImageIds w''))).
Proof.
  cbn zeta. split; [apply removalPending_reachable; reflexivity|].
  apply (clear_keeps_pending_deletions Wildcard.test defaultProps [logo; banner]
           removalPending).
  apply removalPending_reachable. reflexivity.
Defined.

(** * Further properties of the uploader *)

Lemma runEffects_quiet w :
  depAllNewUploaded w = allNewUploaded w ->
  depUploadedFilesRef w = uploadedFilesRef w ->
  calls (runEffects w) = calls w.
Proof.
  intros A B. unfold runEffects.
  rewrite A, B, Bool.eqb_reflx, Nat.eqb_refl. cbn [andb].
  destruct (Nat.eqb (depRemovalsLength w) _); reflexivity.
Qed.

Section RemovalLifecycle.

Variable RegExp_test : string -> string -> bool.
Variable p : Props.

(** X1.  The confirmed-deletion list only grows, and only at its end:
    [confirm] appends its id, a firing of the sweep appends the ids of the
    expired entries, and no other step ([clear] included) changes the
    list. *)
Theorem confirmed_ids_append_only a w :
  removedImageIds (step RegExp_test p a w)
  = removedImageIds w
    ++ match a with
       | Confirm fileId => [fileId]
       | SweepTimer now =>
           match sweepTimer w with
           | Some _ => map removal_id (filter (expired now) (undoableRemovals w))
           | None => []
           end
       | _ => []
       end.
Proof.
  unfold step.
  pose proof (runEffects_pools (handle RegExp_test p a w)) as (_ & _ & _ & _ & I & _).
  rewrite I. clear I.
  destruct a; cbn [handle]; rewrite ?app_nil_r.
  - destruct (refused p w) eqn:Rf.
    + destruct (processFiles_refused RegExp_test p files w Rf) as (m & ->).
      reflexivity.
    + apply (processFiles_accepted RegExp_test p files w Rf).
  - reflexivity.
  - reflexivity.
  - unfold undoRemoval. destruct (find _ _); reflexivity.
  - reflexivity.
  - reflexivity.
  - unfold manualUpload.
    apply (fold_simulateUpload_fields
             (fun f => negb (JS.truthy (error f)) && negb (uploaded f))).
  - unfold fireUpload. destruct (find _ _); [|reflexivity].
    unfold uploadTick. destruct (done _); reflexivity.
  - unfold fireSweep. destruct (sweepTimer w); [|now rewrite app_nil_r].
    unfold sweepTick. rewrite sweepFilter_spec. reflexivity.
  - reflexivity.
Qed.

Lemma handle_keeps_completion_deps a w :
  match a with
  | RemoveExisting _ _ | Undo _ | Confirm _ | SweepTimer _
  | HostRender _ | ManualUpload => True
  | _ => False
  end ->
  uploadedFiles (handle RegExp_test p a w) = uploadedFiles w
  /\ uploadedFilesRef (handle RegExp_test p a w) = uploadedFilesRef w.
Proof.
  intros K. destruct a; try destruct K; cbn [handle].
  - auto.
  - unfold undoRemoval. destruct (find _ _); auto.
  - auto.
  - unfold manualUpload.
    pose proof (fold_simulateUpload_fields
                  (fun f => negb (JS.truthy (error f)) && negb (uploaded f))
                  (uploadedFiles w) w) as (U & N & _).
    auto.
  - unfold fireSweep. destruct (sweepTimer w); [|auto].
    unfold sweepTick. destruct (sweepFilter _ _). auto.
  - auto.
Qed.

(** X2.  The host hears of a removal only when it is requested: in a
    reachable state, requesting the removal of [f] makes exactly one call,
    [onExistingFileRemove f]; undoing it, confirming it, the sweep that
    confirms it, a host render and starting the uploads make no call at
    all. *)
Theorem removal_notifications existing w a :
  reachable RegExp_test p existing any_action w ->
  match a with
  | RemoveExisting f _ =>
      calls (step RegExp_test p a w) = calls w ++ [onExistingFileRemove f]
  | Undo _ | Confirm _ | SweepTimer _ | HostRender _ | ManualUpload =>
      calls (step RegExp_test p a w) = calls w
  | _ => True
  end.
Proof.
  intros R. pose proof (reachable_settled _ _ _ _ _ R) as (A & B & _).
  assert (Q : match a with
              | RemoveExisting _ _ | Undo _ | Confirm _ | SweepTimer _
              | HostRender _ | ManualUpload => True
              | _ => False
              end ->
              calls (step RegExp_test p a w) = calls (handle RegExp_test p a w)).
  { intros K. unfold step.
    destruct (handle_keeps_completion_deps a w K) as (U & N).
    pose proof (handle_effect_fields RegExp_test p a w) as (_ & A' & B' & _).
    apply runEffects_quiet.
    - rewrite A', A. symmetry. now apply allNewUploaded_ext.
    - rewrite B', B. now rewrite N. }
  destruct a; try exact I; rewrite (Q I); cbn [handle].
  - reflexivity.
  - unfold undoRemoval. destruct (find _ _); reflexivity.
  - reflexivity.
  - unfold manualUpload.
    apply (fold_simulateUpload_fields
             (fun f => negb (JS.truthy (error f)) && negb (uploaded f))).
  - unfold fireSweep. destruct (sweepTimer w); [|reflexivity].
    unfold sweepTick. destruct (sweepFilter _ _). reflexivity.
  - reflexivity.
Qed.

(** X3.  A removal confirmed by hand is not confirmed again by the sweep:
    after [confirm(i)], whatever the times at which the sweep fires, the
    confirmed list holds exactly one more occurrence of [i] than before
    and no pending entry carries [i]. *)
Theorem confirm_then_sweep_no_duplicate existing w i nows :
  reachable RegExp_test p existing any_action w ->
  let w' := run RegExp_test p (map SweepTimer nows)
              (step RegExp_test p (Confirm i) w) in
  count_occ Z.eq_dec (removedImageIds w') i
  = S (count_occ Z.eq_dec (removedImageIds w) i)
  /\ existsb (fun r => Z.eqb (removal_id r) i) (undoableRemovals w') = false.
Proof.
  intros R. cbn zeta.
  pose proof (reachable_settled _ _ _ _ _ R) as St.
  pose proof (step_confirm RegExp_test p w i) as (P & I & _). cbn zeta in *.
  assert (S1 : settled (step RegExp_test p (Confirm i) w))
    by (apply step_settled; apply St).
  pose proof (run_sweeps RegExp_test p nows _ S1) as (_ & P2 & I2 & _).
  cbn zeta in *.
  assert (No : forall r,
             In r (filter (fun r => negb (Z.eqb (removal_id r) i)) (undoableRemovals w)) ->
             removal_id r <> i).
  { intros r Ir. apply filter_In in Ir as (_ & Ne).
    now apply negb_true_iff, Z.eqb_neq in Ne. }
  rewrite I2, P2, I, P. split.
  - rewrite !count_occ_app, (swept_other_ids nows _ i No). cbn.
    destruct (Z.eq_dec i i); [lia|congruence].
  - apply not_pending_spec. intros r Ir. apply No. eapply survivors_incl, Ir.
Qed.

(** X4.  Undo comes too late once the sweep has fired at or after the end
    of the grace window: for a file that was not pending before its
    removal was requested at [t], after such a firing [undo] changes
    nothing at all, and the file is not in the active remote list. *)
Theorem undo_after_expiry_is_noop existing w f t nows :
  reachable RegExp_test p existing any_action w ->
  existsb (fun r => Z.eqb (removal_id r) (media_id f)) (undoableRemovals w) = false ->
  Exists (fun now => t + 10000 <= now) nows ->
  let w2 := run RegExp_test p (map SweepTimer nows)
              (step RegExp_test p (RemoveExisting f t) w) in
  step RegExp_test p (Undo (media_id f)) w2 = w2
  /\ ~ In f (displayExistingFiles w2).
Proof.
  intros R NP' X. cbn zeta.
  pose proof (proj1 (not_pending_spec _ _) NP') as NP.
  pose proof (reachable_settled _ _ _ _ _ R) as St.
  pose proof (step_removeExisting RegExp_test p w f t) as (P & D & _).
  cbn zeta in *.
  assert (S1 : settled (step RegExp_test p (RemoveExisting f t) w))
    by (apply step_settled; apply St).
  pose proof (run_sweeps RegExp_test p nows _ S1) as (S2 & P2 & _ & D2).
  cbn zeta in *.
  destruct (sweeps_past_window nows (undoableRemovals w)
              (mkUndoableRemoval (media_id f) f t) NP X) as (_ & Sv).
  rewrite P in P2. rewrite D in D2.
  set (w2 := run RegExp_test p (map SweepTimer nows)
               (step RegExp_test p (RemoveExisting f t) w)) in *.
  split.
  - unfold step. cbn [handle]. unfold undoRemoval.
    destruct (find _ _) as [e|] eqn:F.
    + apply find_some in F as (Ie & Ee). apply Z.eqb_eq in Ee.
      rewrite P2 in Ie. destruct (Sv e Ie Ee).
    + apply runEffects_idle, S2.
  - rewrite D2. intros H. apply filter_In in H as (_ & H).
    rewrite Z.eqb_refl in H. discriminate.
Qed.

End RemovalLifecycle.

(** ** Re-synchronisation with the host and the capacity *)

Lemma skipn_cons_inv {A} (l : list A) : forall i x tl,
  skipn i l = x :: tl -> nth_error l i = Some x /\ skipn (S i) l = tl.
Proof.
  induction l as [|a l IH]; intros [|i] x tl H; cbn in *; try discriminate.
  - inversion H. auto.
  - apply IH, H.
Qed.

Lemma everyIdMatches_complete prev : forall mapped i,
  map media_id prev = map media_id (skipn i mapped) ->
  everyIdMatches prev mapped i = true.
Proof.
  induction prev as [|q prev IH]; intros mapped i E; [reflexivity|].
  cbn [map] in E. destruct (skipn i mapped) as [|m tl] eqn:Sk; [discriminate|].
  cbn [map] in E. inversion E as [[E1 E2]].
  destruct (skipn_cons_inv _ _ _ _ Sk) as (N & Sk').
  cbn. rewrite N, E1, Z.eqb_refl. cbn. apply IH. now rewrite Sk'.
Qed.

Lemma sameIds_spec (prev mapped : list DisplayFile) :
  Nat.eqb (List.length prev) (List.length mapped) && everyIdMatches prev mapped 0 = true
  <-> map media_id prev = map media_id mapped.
Proof.
  split.
  - intros H. apply andb_true_iff in H as (L & E). apply Nat.eqb_eq in L.
    apply (everyIdMatches_ids _ _ 0 E). lia.
  - intros E. apply andb_true_iff. split.
    + apply Nat.eqb_eq. rewrite <- (length_map media_id prev), E. apply length_map.
    + now apply everyIdMatches_complete.
Qed.

Lemma filter_removes_member (f : DisplayFile) (l : list DisplayFile) :
  In f l ->
  (List.length (filter (fun g => negb (Z.eqb (media_id g) (media_id f))) l)
   < List.length l)%nat.
Proof.
  intros I.
  pose proof (filter_length_le (fun g => negb (Z.eqb (media_id g) (media_id f))) l) as Le.
  destruct (Nat.eq_dec
              (List.length (filter (fun g => negb (Z.eqb (media_id g) (media_id f))) l))
              (List.length l)) as [E|N]; [|lia].
  apply filter_length_forallb in E. rewrite forallb_forall in E.
  specialize (E f I). rewrite Z.eqb_refl in E. discriminate.
Qed.

Section HostAndCapacity.

Variable RegExp_test : string -> string -> bool.
Variable p : Props.

Lemma step_hostRender_pools w existing :
  let w' := step RegExp_test p (HostRender existing) w in
  existingFiles w' = existing
  /\ displayExistingFiles w'
     = (if Nat.eqb (List.length (displayExistingFiles w)) (List.length existing)
           && everyIdMatches (displayExistingFiles w) existing 0
        then displayExistingFiles w else existing)
  /\ uploadedFiles w' = uploadedFiles w
  /\ undoableRemovals w' = undoableRemovals w
  /\ removedImageIds w' = removedImageIds w.
Proof.
  cbn zeta. unfold step. cbn [handle].
  pose proof (runEffects_pools (syncExistingFiles existing w))
    as (U & _ & _ & D & I & P & X).
  rewrite U, D, I, P, X. cbn. auto.
Qed.

(** X5.  When the host renders the component with a list of remote
    files: if the ids of the list are, position by position, the ids of
    the active remote files, the active list is kept as it is (also when
    other fields of the files differ); otherwise it is replaced by the
    host's list.  The local files, the pending entries and the confirmed
    ids are not touched. *)
Theorem host_render_resync w existing :
  let w' := step RegExp_test p (HostRender existing) w in
  existingFiles w' = existing
  /\ (map media_id (displayExistingFiles w) = map media_id existing ->
      displayExistingFiles w' = displayExistingFiles w)
  /\ (map media_id (displayExistingFiles w) <> map media_id existing ->
      displayExistingFiles w' = existing)
  /\ uploadedFiles w' = uploadedFiles w
  /\ undoableRemovals w' = undoableRemovals w
  /\ removedImageIds w' = removedImageIds w.
Proof.
  cbn zeta.
  destruct (step_hostRender_pools w existing) as (X & D & U & P & I).
  cbn zeta in *. rewrite D.
  split; [exact X|]. split; [|split; [|auto]].
  - intros E. apply sameIds_spec in E. now rewrite E.
  - intros N. destruct (_ && _) eqn:E; [|reflexivity].
    apply sameIds_spec in E. contradiction.
Qed.

(** X6.  A host render undoes a requested removal in the active list but
    not in the pending list: when the removal of an active file [f] has
    been requested and the host then renders a list as long as the active
    list was, the active list becomes the host's list while the entry of
    [f] stays pending; if the host still lists [f], the file is active and
    pending at once. *)
Theorem host_render_restores_removed_file w f t existing :
  In f (displayExistingFiles w) ->
  List.length existing = List.length (displayExistingFiles w) ->
  let w2 := step RegExp_test p (HostRender existing)
              (step RegExp_test p (RemoveExisting f t) w) in
  displayExistingFiles w2 = existing
  /\ In (mkUndoableRemoval (media_id f) f t) (undoableRemovals w2)
  /\ (In f existing ->
      In f (displayExistingFiles w2)
      /\ In f (map removal_file (undoableRemovals w2))).
Proof.
  intros If L. cbn zeta.
  pose proof (step_removeExisting RegExp_test p w f t) as (P1 & D1 & _).
  cbn zeta in *.
  destruct (step_hostRender_pools (step RegExp_test p (RemoveExisting f t) w) existing)
    as (_ & D & _ & P & _).
  cbn zeta in *. rewrite D, P, D1, P1.
  pose proof (filter_removes_member f _ If) as Lt.
  assert (E : Nat.eqb
                (List.length (filter (fun g => negb (Z.eqb (media_id g) (media_id f)))
                                     (displayExistingFiles w)))
                (List.length existing) = false)
    by (apply Nat.eqb_neq; lia).
  rewrite E. cbn [andb].
  assert (Ie : In (mkUndoableRemoval (media_id f) f t)
                  (undoableRemovals w ++ [mkUndoableRemoval (media_id f) f t]))
    by (apply in_or_app; right; now left).
  split; [reflexivity|]. split; [exact Ie|].
  intros Il. split; [exact Il|].
  apply in_map_iff. exists (mkUndoableRemoval (media_id f) f t). auto.
Qed.

(** Steps other than [add], [undo] and a host render do not lengthen
    either pool. *)
Lemma step_pools_shrink a w :
  match a with
  | Add _ | Undo _ | HostRender _ => False
  | _ => True
  end ->
  (List.length (displayExistingFiles (step RegExp_test p a w))
   <= List.length (displayExistingFiles w))%nat
  /\ (List.length (uploadedFiles (step RegExp_test p a w))
      <= List.length (uploadedFiles w))%nat.
Proof.
  intros K. unfold step.
  pose proof (runEffects_pools (handle RegExp_test p a w)) as (U & _ & _ & D & _).
  rewrite U, D.
  destruct a; try destruct K; cbn [handle].
  - cbn. split; [lia|apply filter_length_le].
  - cbn. split; [apply filter_length_le|lia].
  - cbn. split; lia.
  - cbn. split; lia.
  - unfold manualUpload.
    pose proof (fold_simulateUpload_fields
                  (fun f => negb (JS.truthy (error f)) && negb (uploaded f))
                  (uploadedFiles w) w) as (E & _ & _ & (E' & _) & _).
    cbn zeta in *. rewrite E, E'. split; lia.
  - unfold fireUpload. destruct (find _ _); [|split; lia].
    unfold uploadTick. destruct (done _); cbn; rewrite length_map; split; lia.
  - unfold fireSweep. destruct (sweepTimer w); [|split; lia].
    unfold sweepTick. destruct (sweepFilter _ _). cbn. split; lia.
Qed.

End HostAndCapacity.

(** ** Starting and running uploads *)

Lemma fold_simulateUpload_uploads (sel : UploadedFile -> bool) l : forall w,
  let w' := fold_left
              (fun acc f => if sel f then simulateUpload (id f) acc else acc) l w in
  uploads w' = uploads w ++ freshUploads (nextHandle w) (map id (filter sel l))
  /\ nextHandle w' = (nextHandle w + List.length (filter sel l))%nat.
Proof.
  induction l as [|f l IH]; intros w; cbn [fold_left filter].
  - cbn. rewrite app_nil_r. auto.
  - destruct (sel f).
    + destruct (IH (simulateUpload (id f) w)) as (U & N). cbn zeta in *.
      rewrite U, N. cbn. rewrite <- app_assoc. split; [reflexivity|lia].
    + apply IH.
Qed.

Lemma runEffects_nextHandle w :
  depRemovalsLength w = List.length (undoableRemovals w) ->
  nextHandle (runEffects w) = nextHandle w.
Proof.
  intros L. unfold runEffects.
  set (w1 := if _ && _ then w else uploadCompleteEffect w).
  assert (H : nextHandle w1 = nextHandle w
              /\ depRemovalsLength w1 = depRemovalsLength w
              /\ undoableRemovals w1 = undoableRemovals w).
  { unfold w1. destruct (_ && _); [auto|].
    pose proof (uploadCompleteEffect_fields w) as H. cbn zeta in H.
    unfold same_remote in H. tauto. }
  destruct H as (N & D & U).
  rewrite D, U, L, Nat.eqb_refl. exact N.
Qed.

Lemma resolved_not_startable l :
  forallb (fun f => uploaded f || JS.truthy (error f)) l = true ->
  filter startable l = [].
Proof.
  induction l as [|f l IH]; [reflexivity|].
  cbn. intros H. apply andb_true_iff in H as (H1 & H2).
  unfold startable at 1.
  destruct (uploaded f), (JS.truthy (error f)); try discriminate; cbn; auto.
Qed.

Lemma map_unless {A} (c : A -> bool) (g : A -> A) (l : list A) :
  (forall x, In x l -> c x = false) ->
  map (fun x => if c x then g x else x) l = l.
Proof.
  intros H. induction l as [|x l IH]; [reflexivity|].
  cbn. rewrite (H x) by now left. f_equal. apply IH.
  intros y I. apply H. now right.
Qed.

Section Uploads.

Variable RegExp_test : string -> string -> bool.
Variable p : Props.

Lemma step_add_uploads files w :
  uploads (step RegExp_test p (Add files) w)
  = uploads w
    ++ (if refused p w || negb (autoUpload p) then []
        else freshUploads (nextHandle w)
               (map id (filter valid (accepted RegExp_test p files w)))).
Proof.
  unfold step. cbn [handle].
  pose proof (runEffects_pools (processFiles RegExp_test p files w)) as (_ & _ & T & _).
  rewrite T. clear T.
  destruct (refused p w) eqn:Rf; cbn [orb].
  - destruct (processFiles_refused RegExp_test p files w Rf) as (m & ->).
    cbn. now rewrite app_nil_r.
  - unfold refused in Rf. apply orb_false_iff in Rf as (H1 & H2).
    unfold processFiles. rewrite H1, H2.
    fold (accepted RegExp_test p files w).
    set (new := accepted RegExp_test p files w).
    set (w1 := if singleFile p then _ else _).
    assert (W1 : uploads w1 = uploads w /\ nextHandle w1 = nextHandle w)
      by (unfold w1; destruct (singleFile p); cbn; auto).
    destruct W1 as (T1 & N1).
    assert (C : forall v,
               uploads (if (0 <? List.length (map file (filter valid new)))%nat
                        then call (onFilesChange
                                     (map file (uploadedFiles w)
                                      ++ map file (filter valid new))) v
                        else v) = uploads v)
      by (intros v; destruct (0 <? _)%nat; reflexivity).
    rewrite C. destruct (autoUpload p); cbn [negb].
    + destruct (fold_simulateUpload_uploads valid new w1) as (U & _).
      cbn zeta in U. rewrite U, T1, N1. reflexivity.
    + rewrite T1. now rewrite app_nil_r.
Qed.

(** X8.  [add] starts the simulated upload of exactly the files it
    accepted that passed validation, in their order, and of none when
    auto-upload is off or the batch is refused; the intervals that were
    running are left as they are. *)
Theorem add_starts_uploads files w :
  uploads (step RegExp_test p (Add files) w)
  = uploads w
    ++ (if refused p w || negb (autoUpload p) then []
        else freshUploads (nextHandle w)
               (map id (filter valid (accepted RegExp_test p files w)))).
Proof. exact (step_add_uploads files w). Qed.

Lemma step_manualUpload w :
  let w' := step RegExp_test p ManualUpload w in
  uploadedFiles w' = uploadedFiles w
  /\ uploads w'
     = uploads w
       ++ freshUploads (nextHandle w)
            (map id (filter startable (uploadedFiles w))).
Proof.
  cbn zeta. unfold step. cbn [handle].
  pose proof (runEffects_pools (manualUpload w)) as (U & _ & T & _).
  rewrite U, T. unfold manualUpload.
  pose proof (fold_simulateUpload_fields startable (uploadedFiles w) w) as (E & _).
  destruct (fold_simulateUpload_uploads startable (uploadedFiles w) w) as (F & _).
  cbn zeta in *. split; [exact E|exact F].
Qed.

(** X9.  [manualUpload] starts one interval for each local file that is
    neither uploaded nor in error, in the order of the pool, and changes no
    file; when every file is uploaded or in error (the condition under
    which the Upload button is disabled) it starts nothing. *)
Theorem manual_upload_starts w :
  let w' := step RegExp_test p ManualUpload w in
  uploadedFiles w' = uploadedFiles w
  /\ uploads w'
     = uploads w
       ++ freshUploads (nextHandle w)
            (map id (filter startable (uploadedFiles w)))
  /\ (forallb (fun f => uploaded f || JS.truthy (error f)) (uploadedFiles w) = true ->
      uploads w' = uploads w).
Proof.
  cbn zeta. destruct (step_manualUpload w) as (U & T). cbn zeta in *.
  split; [exact U|]. split; [exact T|].
  intros H. rewrite T, (resolved_not_startable _ H). cbn. now rewrite app_nil_r.
Qed.

(** X10.  Nothing guards against starting an upload twice: in a reachable
    state, two presses of Upload in a row leave two intervals running for
    every file that was neither uploaded nor in error. *)
Theorem manual_upload_twice existing w :
  reachable RegExp_test p existing any_action w ->
  let ids := map id (filter startable (uploadedFiles w)) in
  uploads (step RegExp_test p ManualUpload (step RegExp_test p ManualUpload w))
  = uploads w
    ++ freshUploads (nextHandle w) ids
    ++ freshUploads (nextHandle w + List.length ids) ids.
Proof.
  intros R. cbn zeta.
  pose proof (reachable_settled _ _ _ _ _ R) as (_ & _ & L & _).
  destruct (step_manualUpload w) as (U1 & T1).
  destruct (step_manualUpload (step RegExp_test p ManualUpload w)) as (_ & T2).
  cbn zeta in *. rewrite T2, T1, U1, <- app_assoc. do 2 f_equal.
  unfold step. cbn [handle].
  assert (N : nextHandle (manualUpload w)
              = (nextHandle w + List.length (filter startable (uploadedFiles w)))%nat)
    by exact (proj2 (fold_simulateUpload_uploads startable (uploadedFiles w) w)).
  assert (K : depRemovalsLength (manualUpload w)
              = List.length (undoableRemovals (manualUpload w))).
  { pose proof (fold_simulateUpload_fields startable (uploadedFiles w) w)
      as (_ & _ & _ & (_ & _ & P & _) & (_ & _ & _ & D)).
    cbn zeta in P, D. unfold manualUpload.
    etransitivity; [exact D|]. rewrite L. f_equal. symmetry. exact P. }
  rewrite (runEffects_nextHandle _ K), N, length_map. reflexivity.
Qed.

(** X11.  Removing a local file, or clearing, cancels no upload: the
    intervals stay as they are.  A later tick of an interval whose file is
    no longer in the pool changes no file. *)
Theorem removed_file_interval_is_harmless w :
  (forall fileId, uploads (step RegExp_test p (RemoveNew fileId) w) = uploads w)
  /\ uploads (step RegExp_test p Clear w) = uploads w
  /\ (forall h u random,
        interval h w = Some u ->
        (forall f, In f (uploadedFiles w) -> id f <> upload_fileId u) ->
        uploadedFiles (step RegExp_test p (UploadTimer h random) w)
        = uploadedFiles w).
Proof.
  split; [|split].
  - intros fileId. unfold step. cbn [handle].
    pose proof (runEffects_pools (removeNewFile fileId w)) as (_ & _ & T & _).
    now rewrite T.
  - unfold step. cbn [handle].
    pose proof (runEffects_pools (clearAll w)) as (_ & _ & T & _).
    now rewrite T.
  - intros h u random I Gone.
    pose proof (step_uploadTimer RegExp_test p h random w) as St.
    cbn zeta in St. rewrite I in St.
    assert (Off : forall f, In f (uploadedFiles w) ->
                            String.eqb (id f) (upload_fileId u) = false).
    { intros f If. apply String.eqb_neq. now apply Gone. }
    destruct (done _); destruct St as (-> & _); now apply map_unless.
Qed.

(** X12.  An upload never completes in fewer than five ticks: after at
    most four ticks, each with a draw in [0, 1), of the interval of a file
    whose progress is 0, the file is not uploaded. *)
Theorem upload_takes_five_ticks h fileId w f randoms :
  tracked h fileId w f ->
  uploaded f = false ->
  (progress f == 0)%Q ->
  Forall (fun r => 0 <= r /\ r < 1)%Q randoms ->
  (List.length randoms <= 4)%nat ->
  exists f',
    shown fileId (run RegExp_test p (upload_ticks h randoms) w) = Some f'
    /\ uploaded f' = false
    /\ (progress f' < 100)%Q.
Proof.
  intros T Un P0 F Len.
  assert (Nn : Forall (fun r => 0 <= r)%Q randoms)
    by (eapply Forall_impl; [|exact F]; cbn; tauto).
  assert (Lt : (increments randoms < 100)%Q).
  { destruct randoms as [|a [|b [|c [|d [|e rest]]]]]; cbn in Len; try lia;
      repeat match goal with
             | H : Forall _ (_ :: _) |- _ => inversion H; clear H; subst
             end;
      cbn [increments]; lra. }
  destruct (slow_ticks RegExp_test p h fileId randoms w f T Un Nn)
    as (f' & (Sh & _) & Un' & E).
  - rewrite P0. lra.
  - exists f'. split; [exact Sh|]. split; [exact Un'|]. rewrite E, P0. lra.
Qed.

End Uploads.

(** ** Validation and the records of the local pool *)

Lemma or_undefined_validateFile RegExp_test p f :
  JS.or_undefined (validateFile RegExp_test p f) = validateFile RegExp_test p f.
Proof.
  unfold validateFile. destruct (_ <? _); [reflexivity|].
  destruct (_ && _); reflexivity.
Qed.

Lemma freshUploads_progress start fileIds :
  Forall (fun u => 0 <= upload_progress u /\ upload_progress u < 100)%Q
         (freshUploads start fileIds).
Proof.
  revert start. induction fileIds as [|i l IH]; intros start; cbn; constructor.
  - cbn. split; [apply Qle_refl|reflexivity].
  - apply IH.
Qed.

Section LocalRecords.

Variable RegExp_test : string -> string -> bool.
Variable p : Props.

(** X14.  The two capacity errors and their order: a batch offered in
    single-file mode while a file occupies a slot is answered with "Only
    one file allowed. Remove existing file first." (also when no slot is
    left); otherwise a batch offered when no slot is left is answered with
    "Maximum N files allowed" for [N = maxFiles]; any other batch raises no
    error. *)
Theorem capacity_error_messages files w :
  errors (calls (step RegExp_test p (Add files) w))
  = errors (calls w)
    ++ (if singleFile p && (0 <? getTotalFileCount w)
        then ["Only one file allowed. Remove existing file first."%string]
        else if maxFiles p - getTotalFileCount w <=? 0
             then [("Maximum " ++ JS.show (maxFiles p) ++ " files allowed")%string]
             else []).
Proof.
  unfold step. cbn [handle].
  destruct (runEffects_calls (processFiles RegExp_test p files w)) as (fs & C).
  rewrite C, errors_app, errors_completions, app_nil_r.
  destruct (singleFile p && (0 <? getTotalFileCount w)) eqn:E1.
  - unfold processFiles. rewrite E1. cbn. now rewrite errors_app.
  - destruct (maxFiles p - getTotalFileCount w <=? 0) eqn:E2.
    + unfold processFiles. rewrite E1, E2. cbn. now rewrite errors_app.
    + assert (Rf : refused p w = false) by (unfold refused; now rewrite E1, E2).
      pose proof (processFiles_accepted RegExp_test p files w Rf) as (_ & _ & C' & _).
      cbn zeta in C'. rewrite C', errors_app.
      destruct (existsb valid _); cbn; now rewrite app_nil_r.
Qed.

(** X15.  Removing an id that no local file carries leaves the pool as it
    is, yet it still stores a new array and still invokes [onFilesChange],
    with the raw files of the whole pool. *)
Theorem remove_unknown_file fileId w :
  (forall f, In f (uploadedFiles w) -> id f <> fileId) ->
  let w' := step RegExp_test p (RemoveNew fileId) w in
  uploadedFiles w' = uploadedFiles w
  /\ uploadedFilesRef w' = S (uploadedFilesRef w)
  /\ fileChanges (calls w') = fileChanges (calls w) ++ [map file (uploadedFiles w)].
Proof.
  intros No. cbn zeta.
  destruct (step_removeNew RegExp_test p fileId w) as (U & C & _). cbn zeta in *.
  assert (E : filter (fun f => negb (String.eqb (id f) fileId)) (uploadedFiles w)
              = uploadedFiles w).
  { apply forallb_filter_id. apply forallb_forall. intros f If.
    apply negb_true_iff, String.eqb_neq. now apply No. }
  rewrite E in U. rewrite C, U. split; [reflexivity|]. split; [|reflexivity].
  unfold step. cbn [handle].
  pose proof (runEffects_pools (removeNewFile fileId w)) as (_ & N & _).
  rewrite N. reflexivity.
Qed.

(** X16.  With the default accept list (no [accept] prop, [all] among the
    file types), a file within the size limit whose name ends, letter case
    aside, in one of the document extensions passes validation whatever its
    MIME type and whatever the other entries match. *)
Theorem document_extension_accepted f ext :
  JS.truthy (accept p) = false ->
  In all (fileTypes p) ->
  File_size f <= maxSize p * 1024 * 1024 ->
  In ext documentExtensions ->
  JS.endsWith (JS.toLowerCase (File_name f)) ext = true ->
  validateFile RegExp_test p f = None.
Proof.
  intros A Al Sz Ie En.
  assert (Acc : acceptString p = FILE_TYPE_MAPPINGS all).
  { unfold acceptString. rewrite A.
    replace (existsb _ (fileTypes p)) with true; [reflexivity|].
    symmetry. apply existsb_exists. exists all. auto. }
  unfold validateFile. rewrite Acc.
  replace (maxSize p * 1024 * 1024 <? File_size f) with false
    by (symmetry; apply Z.ltb_ge; exact Sz).
  match goal with
  | |- (if _ && negb (existsb ?g ?l) then _ else _) = _ =>
      assert (X : existsb g l = true)
  end.
  { apply existsb_exists. exists ext. split.
    - unfold documentExtensions in Ie. cbn in Ie. vm_compute.
      intuition (subst; auto 12).
    - unfold documentExtensions in Ie. cbn in Ie.
      destruct Ie as [<-|[<-|[<-|[<-|[<-|[<-|[]]]]]]]; exact En. }
  rewrite X. cbn. reflexivity.
Qed.

Lemma newUploadedFile_well_formed x :
  wellFormedFile RegExp_test p (newUploadedFile RegExp_test p x).
Proof.
  unfold wellFormedFile, newUploadedFile. cbn.
  split; [reflexivity|]. split; [apply or_undefined_validateFile|].
  split; [|split; [apply Qle_refl|discriminate]].
  unfold generatePreview. destruct (JS.startsWith _ _); [auto|congruence].
Qed.

Lemma handle_well_formed a w :
  enabled p a w = true ->
  Forall (wellFormedFile RegExp_test p) (uploadedFiles w)
  /\ Forall (fun u => 0 <= upload_progress u /\ upload_progress u < 100)%Q (uploads w) ->
  Forall (wellFormedFile RegExp_test p) (uploadedFiles (handle RegExp_test p a w))
  /\ Forall (fun u => 0 <= upload_progress u /\ upload_progress u < 100)%Q
            (uploads (handle RegExp_test p a w)).
Proof.
  intros En (Wf & Ok).
  destruct a; cbn [handle].
  - pose proof (step_add_changes RegExp_test p files w) as (U & _).
    pose proof (step_add_uploads RegExp_test p files w) as T.
    cbn zeta in U. unfold step in U, T. cbn [handle] in U, T.
    pose proof (runEffects_pools (processFiles RegExp_test p files w)) as (U' & _ & T' & _).
    rewrite U' in U. rewrite T' in T. rewrite U, T. split.
    + apply Forall_app. split; [exact Wf|].
      destruct (refused p w); [constructor|].
      unfold accepted. apply Forall_forall. intros g Ig.
      apply in_map_iff in Ig as (x & <- & _). apply newUploadedFile_well_formed.
    + apply Forall_app. split; [exact Ok|].
      destruct (_ || _); [constructor|apply freshUploads_progress].
  - cbn. split; [|exact Ok].
    rewrite Forall_forall in *. intros g Ig. apply filter_In in Ig. apply Wf, Ig.
  - cbn. auto.
  - unfold undoRemoval. destruct (find _ _); cbn; auto.
  - cbn. auto.
  - cbn. split; [constructor|exact Ok].
  - unfold manualUpload.
    pose proof (fold_simulateUpload_fields startable (uploadedFiles w) w) as (U & _).
    destruct (fold_simulateUpload_uploads startable (uploadedFiles w) w) as (T & _).
    cbn zeta in U, T. split.
    + unfold startable in U. rewrite U. exact Wf.
    + unfold startable in T at 1. rewrite T. apply Forall_app.
      split; [exact Ok|apply freshUploads_progress].
  - unfold fireUpload. destruct (find _ _) as [u|] eqn:F; [|auto].
    cbn in En. apply andb_true_iff in En as (R0 & _). apply Qle_bool_iff in R0.
    apply find_some in F as (Iu & _).
    rewrite Forall_forall in Ok. pose proof (Ok u Iu) as (P0 & P100).
    assert (Ge : (0 <= advance (upload_progress u) random)%Q).
    { unfold advance.
      assert (0 <= random * 25)%Q
        by (apply Qmult_le_0_compat; [exact R0|discriminate]).
      lra. }
    unfold uploadTick. destruct (done _) eqn:Dn; cbn; split.
    + rewrite Forall_forall in *. intros g Ig.
      apply in_map_iff in Ig as (g0 & <- & Ig0). specialize (Wf g0 Ig0).
      destruct (String.eqb (id g0) (upload_fileId u)); [|exact Wf].
      unfold wellFormedFile, withUploaded in *. cbn.
      intuition (try discriminate).
    + apply Forall_forall. intros v Iv. apply filter_In in Iv. apply Ok, Iv.
    + assert (Lt : (advance (upload_progress u) random < 100)%Q).
      { apply Qnot_le_lt. intros H. apply Qle_bool_iff in H.
        unfold done in Dn. congruence. }
      rewrite Forall_forall in *. intros g Ig.
      apply in_map_iff in Ig as (g0 & <- & Ig0). specialize (Wf g0 Ig0).
      destruct (String.eqb (id g0) (upload_fileId u)); [|exact Wf].
      unfold wellFormedFile, withProgress in *. cbn.
      intuition. now apply Qlt_le_weak.
    + assert (Lt : (advance (upload_progress u) random < 100)%Q).
      { apply Qnot_le_lt. intros H. apply Qle_bool_iff in H.
        unfold done in Dn. congruence. }
      apply Forall_forall. intros v Iv.
      apply in_map_iff in Iv as (v0 & <- & Iv0).
      destruct (Nat.eqb (upload_handle v0) (upload_handle u)); cbn; auto.
  - unfold fireSweep. destruct (sweepTimer w); [|auto].
    unfold sweepTick. destruct (sweepFilter _ _). cbn. auto.
  - cbn. auto.
Qed.

(** X17.  Every record of the local pool, in every reachable state: its
    name is the name of its file, its error is the verdict of
    [validateFile] on its file, it has a preview only if its file is an
    image, and its progress lies between 0 and 100. *)
Theorem local_files_well_formed existing w :
  reachable RegExp_test p existing any_action w ->
  Forall (wellFormedFile RegExp_test p) (uploadedFiles w).
Proof.
  intros R.
  assert (H : Forall (wellFormedFile RegExp_test p) (uploadedFiles w)
              /\ Forall (fun u => 0 <= upload_progress u /\ upload_progress u < 100)%Q
                        (uploads w)).
  { induction R as [|a w R IH Al En].
    - destruct (mount_remote existing) as (_ & _ & _ & _ & U). rewrite U.
      split; [constructor|]. destruct existing; constructor.
    - unfold step.
      pose proof (runEffects_pools (handle RegExp_test p a w)) as (U & _ & T & _).
      rewrite U, T. now apply handle_well_formed. }
  apply H.
Qed.

End LocalRecords.

(** * The other widgets *)

(** ** ArrayInput *)

Lemma filterIndex_past index : forall values i,
  (index < i)%nat -> ArrayInput.filterIndex index i values = values.
Proof.
  induction values as [|item rest IH]; intros i Lt; [reflexivity|].
  cbn. destruct (Nat.eqb_spec i index); [lia|].
  f_equal. apply IH. lia.
Qed.

Lemma filterIndex_spec index : forall values i,
  (i <= index)%nat ->
  ArrayInput.filterIndex index i values
  = firstn (index - i) values ++ skipn (S (index - i)) values.
Proof.
  induction values as [|item rest IH]; intros i Le.
  - cbn. now rewrite firstn_nil.
  - cbn [ArrayInput.filterIndex]. destruct (Nat.eqb_spec i index) as [->|Ne].
    + rewrite Nat.sub_diag. cbn. apply filterIndex_past. lia.
    + rewrite IH by lia.
      replace (index - i)%nat with (S (index - S i)) by lia. reflexivity.
Qed.

Lemma mapIndex_length index value : forall values i,
  List.length (ArrayInput.mapIndex index value i values) = List.length values.
Proof.
  induction values as [|item rest IH]; intros i; cbn; [reflexivity|].
  now rewrite IH.
Qed.

Lemma mapIndex_nth index value : forall values i j,
  nth_error (ArrayInput.mapIndex index value i values) j
  = option_map (fun item => if Nat.eqb (i + j) index then value else item)
               (nth_error values j).
Proof.
  induction values as [|item rest IH]; intros i [|j]; cbn; try reflexivity.
  - now rewrite Nat.add_0_r.
  - rewrite IH. now replace (S i + j)%nat with (i + S j)%nat by lia.
Qed.

Lemma fillLoop_spec minItems : forall fuel filled,
  (Z.to_nat (minItems - Z.of_nat (List.length filled)) <= fuel)%nat ->
  ArrayInput.fillLoop fuel minItems filled
  = filled ++ repeat ""%string (Z.to_nat (minItems - Z.of_nat (List.length filled))).
Proof.
  induction fuel as [|fuel IH]; intros filled Le; cbn [ArrayInput.fillLoop].
  - replace (Z.to_nat _) with 0%nat by lia. cbn. now rewrite app_nil_r.
  - destruct (Z.ltb_spec (Z.of_nat (List.length filled)) minItems) as [Lt|Ge].
    + rewrite IH by (rewrite length_app; cbn; lia).
      rewrite length_app. cbn [List.length].
      replace (Z.to_nat (minItems - Z.of_nat (List.length filled)))
        with (S (Z.to_nat (minItems - Z.of_nat (List.length filled + 1)))) by lia.
      cbn [repeat]. now rewrite <- app_assoc.
    + replace (Z.to_nat _) with 0%nat by lia. cbn. now rewrite app_nil_r.
Qed.

(** X18.  On mount, a list shorter than [minItems] is reported to the
    host padded with empty strings to exactly [minItems] items (the loop
    ends); a list that is long enough is not reported. *)
Theorem array_input_mount_fills minItems values :
  ArrayInput.mountEffect minItems values
  = (if Z.of_nat (List.length values) <? minItems
     then Some (values
                ++ repeat ""%string
                     (Z.to_nat (minItems - Z.of_nat (List.length values))))
     else None)
  /\ forall filled,
       ArrayInput.mountEffect minItems values = Some filled ->
       Z.of_nat (List.length filled) = minItems.
Proof.
  assert (E : ArrayInput.mountEffect minItems values
              = (if Z.of_nat (List.length values) <? minItems
                 then Some (values
                            ++ repeat ""%string
                                 (Z.to_nat (minItems - Z.of_nat (List.length values))))
                 else None)).
  { unfold ArrayInput.mountEffect.
    destruct (Z.ltb_spec (Z.of_nat (List.length values)) minItems); [|reflexivity].
    rewrite fillLoop_spec by lia. reflexivity. }
  split; [exact E|]. intros filled H. rewrite E in H.
  destruct (Z.ltb_spec (Z.of_nat (List.length values)) minItems); [|discriminate].
  inversion H. rewrite length_app, repeat_length. lia.
Qed.

(** X19.  [removeItem] reports the list without the item at [index], the
    other items in their order, when the list is longer than [minItems];
    for an index past the end it reports the list unchanged; at
    [minItems] items or fewer it reports nothing. *)
Theorem array_input_remove_at minItems index values :
  ArrayInput.removeItem minItems index values
  = (if minItems <? Z.of_nat (List.length values)
     then Some (firstn index values ++ skipn (S index) values)
     else None)
  /\ ((List.length values <= index)%nat ->
      minItems < Z.of_nat (List.length values) ->
      ArrayInput.removeItem minItems index values = Some values).
Proof.
  assert (E : ArrayInput.removeItem minItems index values
              = (if minItems <? Z.of_nat (List.length values)
                 then Some (firstn index values ++ skipn (S index) values)
                 else None)).
  { unfold ArrayInput.removeItem. destruct (_ <? _); [|reflexivity].
    rewrite filterIndex_spec by lia. now rewrite Nat.sub_0_r. }
  split; [exact E|]. intros Past Lt. rewrite E.
  apply Z.ltb_lt in Lt. rewrite Lt.
  rewrite firstn_all2, skipn_all2 by lia. now rewrite app_nil_r.
Qed.

(** X20.  [updateItem] reports a list of the same length in which the
    item at [index] is the new value and every other item is the old one;
    for an index past the end the list is reported unchanged. *)
Theorem array_input_update_at index value values :
  exists updated,
    ArrayInput.updateItem index value values = Some updated
    /\ List.length updated = List.length values
    /\ (forall j,
          nth_error updated j
          = if Nat.eqb j index
            then option_map (fun _ => value) (nth_error values j)
            else nth_error values j)
    /\ ((List.length values <= index)%nat -> updated = values).
Proof.
  exists (ArrayInput.mapIndex index value 0 values).
  assert (Nth : forall j,
             nth_error (ArrayInput.mapIndex index value 0 values) j
             = if Nat.eqb j index
               then option_map (fun _ => value) (nth_error values j)
               else nth_error values j).
  { intros j. rewrite mapIndex_nth. cbn [Nat.add].
    destruct (Nat.eqb j index); destruct (nth_error values j); reflexivity. }
  split; [reflexivity|]. split; [apply mapIndex_length|]. split; [exact Nth|].
  intros Past. apply nth_error_ext. intros j. rewrite Nth.
  destruct (Nat.eqb_spec j index) as [->|]; [|reflexivity].
  replace (nth_error values index) with (@None string); [reflexivity|].
  symmetry. apply nth_error_None. exact Past.
Qed.

(** X21.  A list whose length lies between [minItems] and [maxItems] is
    never taken out of these bounds: whatever [addItem], [removeItem] or
    [updateItem] reports has a length within them. *)
Theorem array_input_keeps_bounds minItems maxItems values :
  minItems <= Z.of_nat (List.length values) <= maxItems ->
  (forall reported,
      ArrayInput.addItem maxItems values = Some reported ->
      minItems <= Z.of_nat (List.length reported) <= maxItems)
  /\ (forall index reported,
        ArrayInput.removeItem minItems index values = Some reported ->
        minItems <= Z.of_nat (List.length reported) <= maxItems)
  /\ (forall index value reported,
        ArrayInput.updateItem index value values = Some reported ->
        minItems <= Z.of_nat (List.length reported) <= maxItems).
Proof.
  intros B. split; [|split].
  - intros reported H. unfold ArrayInput.addItem in H.
    destruct (Z.ltb_spec (Z.of_nat (List.length values)) maxItems); [|discriminate].
    inversion H. rewrite length_app. cbn. lia.
  - intros index reported H. unfold ArrayInput.removeItem in H.
    destruct (Z.ltb_spec minItems (Z.of_nat (List.length values))); [|discriminate].
    inversion H. rewrite filterIndex_spec, Nat.sub_0_r by lia.
    rewrite length_app, length_firstn, length_skipn. lia.
  - intros index value reported H. inversion H. rewrite mapIndex_length. exact B.
Qed.

(** X22.  Removing the item that [addItem] has just appended gives the
    list back, when the list had at least [minItems] items. *)
Theorem array_input_add_then_remove minItems maxItems values added :
  minItems <= Z.of_nat (List.length values) ->
  ArrayInput.addItem maxItems values = Some added ->
  ArrayInput.removeItem minItems (List.length values) added = Some values.
Proof.
  intros Min H. unfold ArrayInput.addItem in H.
  destruct (_ <? _); [|discriminate]. inversion H. subst added.
  unfold ArrayInput.removeItem. rewrite length_app. cbn [List.length].
  destruct (Z.ltb_spec minItems (Z.of_nat (List.length values + 1))); [|lia].
  rewrite filterIndex_spec, Nat.sub_0_r by lia.
  rewrite firstn_app, Nat.sub_diag, firstn_all, skipn_all2
    by (rewrite length_app; cbn; lia).
  cbn. now rewrite !app_nil_r.
Qed.

(** ** Combobox *)

Lemma strictEq_spec a b : Combobox.strictEq a b = true <-> a = b.
Proof.
  destruct a as [s|n], b as [t|m]; cbn; split; intros H; try discriminate.
  - apply String.eqb_eq in H. congruence.
  - inversion H. apply String.eqb_refl.
  - apply Z.eqb_eq in H. congruence.
  - inversion H. apply Z.eqb_refl.
Qed.

Lemma includes_spec vs v : Combobox.includes vs v = true <-> In v vs.
Proof.
  unfold Combobox.includes. rewrite existsb_exists. split.
  - intros (x & I & E). apply strictEq_spec in E. congruence.
  - intros I. exists v. split; [exact I|now apply strictEq_spec].
Qed.

Lemma filter_other_spec vs v u :
  In u (filter (fun x => negb (Combobox.strictEq x v)) vs) <-> In u vs /\ u <> v.
Proof.
  rewrite filter_In, negb_true_iff. split; intros (I & H); split; auto.
  - intros E. apply strictEq_spec in E. congruence.
  - destruct (Combobox.strictEq u v) eqn:E; [|reflexivity].
    apply strictEq_spec in E. contradiction.
Qed.

Lemma prefix_toLowerCase part : forall s,
  String.prefix part s = true ->
  String.prefix (JS.toLowerCase part) (JS.toLowerCase s) = true.
Proof.
  induction part as [|c part IH]; intros s H; [destruct s; reflexivity|].
  destruct s as [|d s]; [discriminate|]. cbn in *.
  destruct (Ascii.ascii_dec c d) as [->|N]; [|discriminate].
  destruct (Ascii.ascii_dec _ _) as [_|N]; [|congruence].
  apply IH, H.
Qed.

Lemma stringIncludes_toLowerCase part : forall s,
  Combobox.stringIncludes s part = true ->
  Combobox.stringIncludes (JS.toLowerCase s) (JS.toLowerCase part) = true.
Proof.
  induction s as [|c s IH]; intros H.
  - cbn in *. rewrite orb_false_r in *. now apply (prefix_toLowerCase part "").
  - cbn [Combobox.stringIncludes] in H. apply orb_true_iff in H as [H|H].
    + cbn [JS.toLowerCase Combobox.stringIncludes].
      apply orb_true_iff. left.
      apply (prefix_toLowerCase part (String c s) H).
    + cbn [JS.toLowerCase Combobox.stringIncludes].
      apply orb_true_iff. right. apply IH, H.
Qed.

(** X23.  In multiple mode [handleSelect] toggles the chosen value and
    leaves the other selected values as they are, and selecting a value
    that was not selected twice in a row reports the original
    selection. *)
Theorem combobox_select_toggles v optionValue :
  (forall u,
      In u (Combobox.selectedValues (Combobox.handleSelect true v optionValue))
      <-> (u = optionValue /\ ~ In optionValue (Combobox.selectedValues v))
          \/ (u <> optionValue /\ In u (Combobox.selectedValues v)))
  /\ (~ In optionValue (Combobox.selectedValues v) ->
      Combobox.handleSelect true
        (Combobox.handleSelect true v optionValue) optionValue
      = Combobox.Multiple (Combobox.selectedValues v)).
Proof.
  split.
  - intros u. cbn.
    destruct (Combobox.includes _ optionValue) eqn:E.
    + apply includes_spec in E. rewrite filter_other_spec. split.
      * intros (I & N). now right.
      * intros [(-> & N)|(N & I)]; [contradiction|auto].
    + assert (N : ~ In optionValue (Combobox.selectedValues v)).
      { intros I. apply includes_spec in I. congruence. }
      rewrite in_app_iff. cbn. split.
      * intros [I|[<-|[]]]; [right|left; auto].
        split; [|exact I]. intros ->. contradiction.
      * intros [(-> & _)|(_ & I)]; auto.
  - intros N. unfold Combobox.handleSelect at 2.
    replace (Combobox.includes (Combobox.selectedValues v) optionValue) with false.
    2:{ symmetry. destruct (Combobox.includes _ _) eqn:E; [|reflexivity].
        apply includes_spec in E. contradiction. }
    cbn [Combobox.handleSelect Combobox.selectedValues].
    replace (Combobox.includes (Combobox.selectedValues v ++ [optionValue]) optionValue)
      with true.
    2:{ symmetry. apply includes_spec. apply in_or_app. right. now left. }
    f_equal. rewrite filter_app. cbn.
    replace (Combobox.strictEq optionValue optionValue) with true
      by (symmetry; now apply strictEq_spec).
    cbn. rewrite app_nil_r. apply forallb_filter_id. apply forallb_forall.
    intros x I. apply negb_true_iff.
    destruct (Combobox.strictEq x optionValue) eqn:E; [|reflexivity].
    apply strictEq_spec in E. subst. contradiction.
Qed.

(** X24.  The selected options are the options whose value is selected,
    listed in the order of the options (not in the order they were
    picked); a selected value that no option carries is shown by none. *)
Theorem combobox_selected_options options v :
  subseq (Combobox.selectedOptions options v) options
  /\ (forall option,
        In option (Combobox.selectedOptions options v)
        <-> In option options
            /\ In (Combobox.value option) (Combobox.selectedValues v))
  /\ ((forall option, In option options ->
                      ~ In (Combobox.value option) (Combobox.selectedValues v)) ->
      Combobox.selectedOptions options v = []).
Proof.
  split; [apply subseq_filter|]. split.
  - intros option. unfold Combobox.selectedOptions.
    now rewrite filter_In, includes_spec.
  - intros No. unfold Combobox.selectedOptions.
    induction options as [|o options IH]; [reflexivity|].
    cbn. destruct (Combobox.includes _ _) eqn:E.
    + apply includes_spec in E. destruct (No o (or_introl eq_refl) E).
    + apply IH. intros x I. apply No. now right.
Qed.

(** ** DatePicker *)

(** X26.  The year select offers exactly the years from [yearRange.start]
    to [yearRange.end], each once and in ascending order; when the end is
    before the start it offers none. *)
Theorem date_picker_year_options yearStart yearEnd :
  (forall year,
      In year (DatePicker.yearOptions yearStart yearEnd)
      <-> yearStart <= year <= yearEnd)
  /\ List.length (DatePicker.yearOptions yearStart yearEnd)
     = Z.to_nat (yearEnd - yearStart + 1)
  /\ (forall i,
        (i < Z.to_nat (yearEnd - yearStart + 1))%nat ->
        nth_error (DatePicker.yearOptions yearStart yearEnd) i
        = Some (yearStart + Z.of_nat i)).
Proof.
  unfold DatePicker.yearOptions. split; [|split].
  - intros year. rewrite in_map_iff. split.
    + intros (i & <- & I). apply in_seq in I. lia.
    + intros B. exists (Z.to_nat (year - yearStart)). split; [lia|].
      apply in_seq. lia.
  - now rewrite length_map, length_seq.
  - intros i Lt. rewrite nth_error_map, nth_error_seq.
    destruct (Nat.ltb_spec i (Z.to_nat (yearEnd - yearStart + 1))); [|lia].
    reflexivity.
Qed.

(** * The further properties at concrete inputs *)

Lemma removal_notifications_witness :
  let w := mount [logo; banner] in
  reachable Wildcard.test defaultProps [logo; banner] any_action w
  /\ calls (step Wildcard.test defaultProps (RemoveExisting logo 0) w)
     = calls w ++ [onExistingFileRemove logo].
Proof.
  cbn zeta. split; [apply reachable_mount|].
  apply (removal_notifications Wildcard.test defaultProps [logo; banner]
           (mount [logo; banner]) (RemoveExisting logo 0)).
  apply reachable_mount.
Defined.

Lemma confirm_then_sweep_no_duplicate_witness :
  let w := removalPending in
  let w' := run Wildcard.test defaultProps (map SweepTimer [500; 20000])
              (step Wildcard.test defaultProps (Confirm 1) w) in
  reachable Wildcard.test defaultProps [logo; banner] any_action w
  /\ (count_occ Z.eq_dec (removedImageIds w') 1
      = S (count_occ Z.eq_dec (removedImageIds w) 1)
      /\ existsb (fun r => Z.eqb (removal_id r) 1) (undoableRemovals w') = false).
Proof.
  cbn zeta. split; [apply removalPending_reachable; reflexivity|].
  apply (confirm_then_sweep_no_duplicate Wildcard.test defaultProps
           [logo; banner] removalPending 1 [500; 20000]).
  apply removalPending_reachable. reflexivity.
Defined.

Lemma undo_after_expiry_is_noop_witness :
  let w := mount [logo; banner] in
  let w2 := run Wildcard.test defaultProps (map SweepTimer [10000])
              (step Wildcard.test defaultProps (RemoveExisting logo 0) w) in
  reachable Wildcard.test defaultProps [logo; banner] any_action w
  /\ existsb (fun r => Z.eqb (removal_id r) (media_id logo)) (undoableRemovals w)
     = false
  /\ Exists (fun now => 0 + 10000 <= now) [10000]
  /\ (step Wildcard.test defaultProps (Undo (media_id logo)) w2 = w2
      /\ ~ In logo (displayExistingFiles w2)).
Proof.
  cbn zeta. split; [apply reachable_mount|]. split; [reflexivity|].
  split; [constructor; lia|].
  apply (undo_after_expiry_is_noop Wildcard.test defaultProps [logo; banner]
           (mount [logo; banner]) logo 0 [10000]).
  - apply reachable_mount.
  - reflexivity.
  - constructor. lia.
Defined.

Lemma host_render_restores_removed_file_witness :
  let w := mount [logo; banner] in
  let w2 := step Wildcard.test defaultProps (HostRender [logo; banner])
              (step Wildcard.test defaultProps (RemoveExisting logo 0) w) in
  In logo (displayExistingFiles w)
  /\ List.length [logo; banner] = List.length (displayExistingFiles w)
  /\ (displayExistingFiles w2 = [logo; banner]
      /\ In (mkUndoableRemoval (media_id logo) logo 0) (undoableRemovals w2)
      /\ (In logo [logo; banner] ->
          In logo (displayExistingFiles w2)
          /\ In logo (map removal_file (undoableRemovals w2)))).
Proof.
  cbn zeta. split; [now left|]. split; [reflexivity|].
  apply (host_render_restores_removed_file Wildcard.test defaultProps
           (mount [logo; banner]) logo 0 [logo; banner]).
  - now left.
  - reflexivity.
Defined.

Lemma waiting_reachable :
  reachable Wildcard.test manualProps [] any_action waiting.
Proof.
  apply (reachable_run _ _ _ _ [Add [photo; report]]);
    [apply reachable_mount|reflexivity].
Qed.

Lemma manual_upload_twice_witness :
  let w := waiting in
  let ids := map id (filter startable (uploadedFiles w)) in
  reachable Wildcard.test manualProps [] any_action w
  /\ uploads (step Wildcard.test manualProps ManualUpload
                (step Wildcard.test manualProps ManualUpload w))
     = uploads w
       ++ freshUploads (nextHandle w) ids
       ++ freshUploads (nextHandle w + List.length ids) ids.
Proof.
  cbn zeta. split; [exact waiting_reachable|].
  apply (manual_upload_twice Wildcard.test manualProps [] waiting).
  exact waiting_reachable.
Defined.

Lemma four_high_draws :
  Forall (fun r => 0 <= r /\ r < 1)%Q [99 # 100; 99 # 100; 99 # 100; 99 # 100]%Q.
Proof. repeat constructor; discriminate. Qed.

Lemma upload_takes_five_ticks_witness :
  let f := newUploadedFile Wildcard.test defaultProps photo in
  let randoms := [99 # 100; 99 # 100; 99 # 100; 99 # 100]%Q in
  tracked 0 "ida" uploading f
  /\ uploaded f = false
  /\ (progress f == 0)%Q
  /\ Forall (fun r => 0 <= r /\ r < 1)%Q randoms
  /\ (List.length randoms <= 4)%nat
  /\ exists f',
       shown "ida" (run Wildcard.test defaultProps (upload_ticks 0 randoms) uploading)
       = Some f'
       /\ uploaded f' = false
       /\ (progress f' < 100)%Q.
Proof.
  cbn zeta. split; [exact uploading_tracked|]. split; [reflexivity|].
  split; [reflexivity|]. split; [exact four_high_draws|]. split; [cbn; lia|].
  apply (upload_takes_five_ticks Wildcard.test defaultProps 0 "ida" uploading
           (newUploadedFile Wildcard.test defaultProps photo)
           [99 # 100; 99 # 100; 99 # 100; 99 # 100]%Q).
  - exact uploading_tracked.
  - reflexivity.
  - reflexivity.
  - exact four_high_draws.
  - cbn. lia.
Defined.

Lemma no_file_zzz :
  forall f, In f (uploadedFiles uploading) -> id f <> "zzz"%string.
Proof. intros f [<-|[]]. discriminate. Qed.

Lemma remove_unknown_file_witness :
  let w := uploading in
  let w' := step Wildcard.test defaultProps (RemoveNew "zzz") w in
  (forall f, In f (uploadedFiles w) -> id f <> "zzz"%string)
  /\ (uploadedFiles w' = uploadedFiles w
      /\ uploadedFilesRef w' = S (uploadedFilesRef w)
      /\ fileChanges (calls w') = fileChanges (calls w) ++ [map file (uploadedFiles w)]).
Proof.
  cbn zeta. split; [exact no_file_zzz|].
  apply (remove_unknown_file Wildcard.test defaultProps "zzz" uploading).
  exact no_file_zzz.
Defined.

Lemma document_extension_accepted_witness :
  JS.truthy (accept defaultProps) = false
  /\ In all (fileTypes defaultProps)
  /\ File_size shoutedReport <= maxSize defaultProps * 1024 * 1024
  /\ In ".pdf"%string documentExtensions
  /\ JS.endsWith (JS.toLowerCase (File_name shoutedReport)) ".pdf" = true
  /\ validateFile Wildcard.test defaultProps shoutedReport = None.
Proof.
  split; [reflexivity|]. split; [now left|]. split; [cbn; lia|].
  split; [now left|]. split; [reflexivity|].
  apply (document_extension_accepted Wildcard.test defaultProps shoutedReport ".pdf").
  - reflexivity.
  - now left.
  - cbn. lia.
  - now left.
  - reflexivity.
Defined.

Lemma local_files_well_formed_witness :
  reachable Wildcard.test defaultProps [] any_action almostUploaded
  /\ Forall (wellFormedFile Wildcard.test defaultProps) (uploadedFiles almostUploaded).
Proof.
  split; [exact almostUploaded_reachable|].
  apply (local_files_well_formed Wildcard.test defaultProps [] almostUploaded).
  exact almostUploaded_reachable.
Defined.

Lemma array_input_keeps_bounds_witness :
  let values := ["a"; "b"]%string in
  1 <= Z.of_nat (List.length values) <= 3
  /\ ((forall reported,
          ArrayInput.addItem 3 values = Some reported ->
          1 <= Z.of_nat (List.length reported) <= 3)
      /\ (forall index reported,
            ArrayInput.removeItem 1 index values = Some reported ->
            1 <= Z.of_nat (List.length reported) <= 3)
      /\ (forall index value reported,
            ArrayInput.updateItem index value values = Some reported ->
            1 <= Z.of_nat (List.length reported) <= 3)).
Proof.
  cbn zeta. split; [cbn; lia|].
  apply (array_input_keeps_bounds 1 3 ["a"; "b"]%string). cbn. lia.
Defined.

Lemma array_input_add_then_remove_witness :
  let values := ["a"; "b"]%string in
  let added := ["a"; "b"; ""]%string in
  1 <= Z.of_nat (List.length values)
  /\ ArrayInput.addItem 3 values = Some added
  /\ ArrayInput.removeItem 1 (List.length values) added = Some values.
Proof.
  cbn zeta. split; [cbn; lia|]. split; [reflexivity|].
  apply (array_input_add_then_remove 1 3 ["a"; "b"]%string ["a"; "b"; ""]%string).
  - cbn. lia.
  - reflexivity.
Defined.

(** * Adds in flight *)

(** ** The two halves of an add *)

Lemma same_effect_fields_timer w w' :
  same_effect_fields w w' -> timer_tracks_length w -> timer_tracks_length w'.
Proof.
  intros (S' & _ & _ & L) T. unfold timer_tracks_length in *. now rewrite S', L.
Qed.

Lemma runEffects_nextHandle_le w : (nextHandle w <= nextHandle (runEffects w))%nat.
Proof.
  unfold runEffects.
  set (w1 := if _ && _ then w else uploadCompleteEffect w).
  assert (H : nextHandle w1 = nextHandle w).
  { unfold w1. destruct (_ && _); [reflexivity|].
    pose proof (uploadCompleteEffect_fields w) as H. cbn zeta in H. tauto. }
  destruct (Nat.eqb (depRemovalsLength w1) _); [lia|].
  cbn. destruct (Nat.eqb _ 0); lia.
Qed.

Section TwoHalvesProperties.

Variable RegExp_test : string -> string -> bool.
Variable p : Props.

(** [processFiles] is the call followed at once by the rest. *)
Lemma processFiles_two_halves files w :
  processFiles RegExp_test p files w
  = match processFilesCall RegExp_test p files w with
    | (w', Some fl) => processFilesResume p fl w'
    | (w', None) => w'
    end.
Proof.
  unfold processFiles, processFilesCall.
  destruct (singleFile p && (0 <? getTotalFileCount w)); [reflexivity|].
  destruct (maxFiles p - getTotalFileCount w <=? 0); [reflexivity|].
  destruct (JS.slice0 _ files); reflexivity.
Qed.

Lemma processFilesResume_fields fl w :
  let w' := processFilesResume p fl w in
  let new := flight_records fl in
  uploadedFiles w' = (if singleFile p then [] else uploadedFiles w) ++ new
  /\ displayExistingFiles w' = (if singleFile p then [] else displayExistingFiles w)
  /\ undoableRemovals w' = undoableRemovals w
  /\ removedImageIds w' = removedImageIds w
  /\ existingFiles w' = existingFiles w
  /\ calls w'
     = calls w
       ++ (if existsb valid new
           then [onFilesChange (map file (flight_pool fl)
                                ++ map file (filter valid new))]
           else [])
  /\ uploads w'
     = uploads w
       ++ (if autoUpload p
           then freshUploads (nextHandle w) (map id (filter valid new))
           else [])
  /\ (nextHandle w <= nextHandle w')%nat
  /\ (autoUpload p = true ->
      nextHandle w' = (nextHandle w + List.length (filter valid new))%nat)
  /\ same_effect_fields w w'.
Proof.
  cbn zeta. unfold processFilesResume.
  set (new := flight_records fl).
  set (w1 := if singleFile p then _ else _).
  assert (W1 : uploadedFiles w1 = (if singleFile p then [] else uploadedFiles w) ++ new
               /\ displayExistingFiles w1
                  = (if singleFile p then [] else displayExistingFiles w)
               /\ undoableRemovals w1 = undoableRemovals w
               /\ removedImageIds w1 = removedImageIds w
               /\ existingFiles w1 = existingFiles w
               /\ calls w1 = calls w /\ uploads w1 = uploads w
               /\ nextHandle w1 = nextHandle w
               /\ same_effect_fields w w1).
  { unfold w1, same_effect_fields. destruct (singleFile p); cbn; repeat split. }
  destruct W1 as (U1 & D1 & P1 & I1 & X1 & C1 & T1 & N1 & E1).
  set (w2 := if autoUpload p then _ else w1).
  assert (W2 : uploadedFiles w2 = uploadedFiles w1
               /\ same_remote w1 w2 /\ calls w2 = calls w1
               /\ uploads w2
                  = uploads w1
                    ++ (if autoUpload p
                        then freshUploads (nextHandle w1) (map id (filter valid new))
                        else [])
               /\ (nextHandle w1 <= nextHandle w2)%nat
               /\ (autoUpload p = true ->
                   nextHandle w2
                   = (nextHandle w1 + List.length (filter valid new))%nat)
               /\ same_effect_fields w1 w2).
  { unfold w2. destruct (autoUpload p).
    - pose proof (fold_simulateUpload_fields valid new w1) as (U & _ & C & Rm & Ef).
      destruct (fold_simulateUpload_uploads valid new w1) as (T & N).
      cbn zeta in *. rewrite N. repeat split; auto; try apply Rm; try apply Ef. lia.
    - unfold same_remote, same_effect_fields. rewrite app_nil_r.
      repeat split; auto. discriminate. }
  destruct W2 as (U2 & (D2 & I2 & P2 & X2) & C2 & T2 & N2 & N2' & E2).
  assert (Ef : same_effect_fields w w2).
  { unfold same_effect_fields in *. intuition congruence. }
  rewrite length_map, existsb_filter_length.
  destruct (existsb valid new); cbn [uploadedFiles displayExistingFiles
    undoableRemovals removedImageIds existingFiles calls uploads nextHandle call];
    rewrite ?app_nil_r, U2, D2, P2, I2, X2, C2, T2, U1, D1, P1, I1, X1, C1, T1;
    rewrite N1 in *;
    repeat (split; [first [reflexivity | assumption]|]);
    unfold same_effect_fields in *; cbn; exact Ef.
Qed.

Lemma processFilesCall_refused files w :
  refused p w = true ->
  exists message,
    processFilesCall RegExp_test p files w = (call (onError message) w, None).
Proof.
  unfold refused, processFilesCall. intros H.
  destruct (singleFile p && (0 <? getTotalFileCount w)); [eauto|].
  cbn in H. rewrite H. eauto.
Qed.

Lemma processFilesCall_accepted files w :
  refused p w = false ->
  let fl := mkInFlight (accepted RegExp_test p files w) (uploadedFiles w) in
  processFilesCall RegExp_test p files w
  = match JS.slice0 (maxFiles p - getTotalFileCount w) files with
    | [] => (processFilesResume p fl w, None)
    | _ :: _ => (w, Some fl)
    end.
Proof.
  unfold refused. intros H. apply orb_false_iff in H as (H1 & H2).
  cbn zeta. unfold processFilesCall. rewrite H1, H2. reflexivity.
Qed.

(** The state after the call differs from the state before it in the log
    of callbacks, and in nothing else that the effects leave alone, unless
    the call runs to its end. *)
Lemma processFilesCall_effect_fields files w :
  same_effect_fields w (fst (processFilesCall RegExp_test p files w)).
Proof.
  destruct (refused p w) eqn:Rf.
  - destruct (processFilesCall_refused files w Rf) as (m & ->).
    unfold same_effect_fields. cbn. auto.
  - rewrite (processFilesCall_accepted files w Rf).
    destruct (JS.slice0 _ files); cbn [fst].
    + apply processFilesResume_fields.
    + unfold same_effect_fields. auto.
Qed.

Lemma slice0_accepted (files : list Picked) w :
  refused p w = false ->
  let taken := Z.to_nat (Z.min (Z.of_nat (List.length files))
                               (maxFiles p - getTotalFileCount w)) in
  JS.slice0 (maxFiles p - getTotalFileCount w) files = firstn taken files
  /\ List.length (firstn taken files) = taken
  /\ Z.of_nat taken <= maxFiles p - getTotalFileCount w
  /\ (files <> [] -> firstn taken files <> []).
Proof.
  intros Rf. cbn zeta.
  assert (Pos : 0 < maxFiles p - getTotalFileCount w).
  { unfold refused in Rf. apply orb_false_iff in Rf as (_ & Rf).
    now apply Z.leb_gt in Rf. }
  split; [now apply slice0_positive|].
  assert (L : List.length
                (firstn (Z.to_nat (Z.min (Z.of_nat (List.length files))
                                         (maxFiles p - getTotalFileCount w))) files)
              = Z.to_nat (Z.min (Z.of_nat (List.length files))
                                (maxFiles p - getTotalFileCount w))).
  { apply firstn_length_le. lia. }
  split; [exact L|]. split; [lia|].
  intros Ne E. rewrite E in L. cbn in L.
  destruct files; [congruence|]. cbn [List.length] in L. lia.
Qed.

End TwoHalvesProperties.

(** ** Sessions *)

Lemma dropNth_middle {A} (l1 l2 : list A) x :
  dropNth (List.length l1) (l1 ++ x :: l2) = l1 ++ l2.
Proof.
  unfold dropNth.
  rewrite firstn_app, Nat.sub_diag, firstn_all, app_nil_r. cbn [firstn].
  replace (S (List.length l1)) with (List.length l1 + 1)%nat by lia.
  rewrite skipn_app, skipn_all2 by lia.
  replace (List.length l1 + 1 - List.length l1)%nat with 1%nat by lia.
  reflexivity.
Qed.

Section SessionProperties.

Variable addDraw : Q -> Q -> Q.
Variable RegExp_test : string -> string -> bool.
Variable p : Props.

Lemma fireUploadWith_fields h random w :
  let w' := fireUploadWith addDraw h random w in
  same_effect_fields w w' /\ same_remote w w'
  /\ nextHandle w' = nextHandle w /\ calls w' = calls w
  /\ List.length (uploadedFiles w') = List.length (uploadedFiles w).
Proof.
  cbn zeta. unfold fireUploadWith, same_effect_fields, same_remote.
  destruct (find _ _); [|repeat split].
  unfold uploadTickWith. destruct (done _); cbn; rewrite length_map; repeat split.
Qed.

(** With the exact arithmetic a session's action is a [step]. *)
Lemma stepWith_advance (a : Action) (w : Widget) :
  stepWith advance RegExp_test p a w = step RegExp_test p a w.
Proof. destruct a; reflexivity. Qed.

Lemma stepWith_settled a w :
  timer_tracks_length w -> settled (stepWith addDraw RegExp_test p a w).
Proof.
  intros T.
  destruct a; try (now apply step_settled).
  unfold stepWith. apply runEffects_settled.
  apply (same_effect_fields_timer w); [|exact T].
  apply fireUploadWith_fields.
Qed.

Lemma play_settled m s :
  settled (widget s) -> settled (widget (play addDraw RegExp_test p m s)).
Proof.
  intros St. pose proof St as (_ & _ & _ & T).
  destruct m as [a|files|k]; cbn [play].
  - cbn [widget]. now apply stepWith_settled.
  - unfold callAdd.
    pose proof (processFilesCall_effect_fields RegExp_test p files (widget s)) as E.
    destruct (processFilesCall _ _ _ _) as (w' & fl). cbn [fst] in E. cbn [widget].
    apply runEffects_settled. now apply (same_effect_fields_timer (widget s)).
  - destruct (nth_error _ _) as [fl|]; [|exact St]. cbn [widget].
    unfold resumeAdd. apply runEffects_settled.
    apply (same_effect_fields_timer (widget s)); [|exact T].
    apply processFilesResume_fields.
Qed.

Lemma reaches_settled existing ok s :
  reaches addDraw RegExp_test p existing ok s -> settled (widget s).
Proof.
  induction 1 as [|m s R IH]; [apply mount_settled|now apply play_settled].
Qed.

Lemma reaches_playAll existing ok moves : forall s,
  reaches addDraw RegExp_test p existing ok s ->
  playable addDraw RegExp_test p ok moves s = true ->
  reaches addDraw RegExp_test p existing ok (playAll addDraw RegExp_test p moves s).
Proof.
  induction moves as [|m rest IH]; intros s R H; [exact R|].
  cbn in H. apply andb_true_iff in H as (H & Hr).
  apply andb_true_iff in H as (Ok & Mv).
  apply IH; [|exact Hr]. now apply reaches_play.
Qed.

(** The pools after the two events of an add. *)
Lemma callAdd_refused files w :
  refused p w = true ->
  exists message fs,
    snd (callAdd RegExp_test p files w) = None
    /\ calls (fst (callAdd RegExp_test p files w))
       = calls w ++ [onError message] ++ map onUploadComplete fs
    /\ uploadedFiles (fst (callAdd RegExp_test p files w)) = uploadedFiles w
    /\ uploads (fst (callAdd RegExp_test p files w)) = uploads w
    /\ same_remote w (fst (callAdd RegExp_test p files w)).
Proof.
  intros Rf. unfold callAdd.
  destruct (processFilesCall_refused RegExp_test p files w Rf) as (m & ->).
  cbn [fst snd].
  pose proof (runEffects_pools (call (onError m) w)) as (U & _ & T & Rm).
  destruct (runEffects_calls (call (onError m) w)) as (fs & C).
  exists m, fs. rewrite U, T, C. cbn. rewrite <- app_assoc.
  repeat split; apply Rm.
Qed.

Lemma callAdd_accepted files w :
  refused p w = false ->
  files <> [] ->
  callAdd RegExp_test p files w
  = (runEffects w,
     Some (mkInFlight (accepted RegExp_test p files w) (uploadedFiles w))).
Proof.
  intros Rf Ne. unfold callAdd.
  rewrite (processFilesCall_accepted RegExp_test p files w Rf).
  destruct (slice0_accepted p files w Rf) as (E & _ & _ & N).
  cbn zeta in *. rewrite E.
  destruct (firstn _ files) eqn:F; [destruct (N Ne eq_refl)|reflexivity].
Qed.

Lemma resumeAdd_fields fl w :
  let w' := resumeAdd p fl w in
  let new := flight_records fl in
  uploadedFiles w' = (if singleFile p then [] else uploadedFiles w) ++ new
  /\ displayExistingFiles w' = (if singleFile p then [] else displayExistingFiles w)
  /\ undoableRemovals w' = undoableRemovals w
  /\ removedImageIds w' = removedImageIds w
  /\ existingFiles w' = existingFiles w
  /\ (exists fs,
        calls w'
        = calls w
          ++ (if existsb valid new
              then [onFilesChange (map file (flight_pool fl)
                                   ++ map file (filter valid new))]
              else [])
          ++ map onUploadComplete fs)
  /\ uploads w'
     = uploads w
       ++ (if autoUpload p
           then freshUploads (nextHandle w) (map id (filter valid new))
           else []).
Proof.
  cbn zeta. unfold resumeAdd.
  pose proof (processFilesResume_fields p fl w)
    as (U & D & P & I & X & C & T & _).
  cbn zeta in *.
  pose proof (runEffects_pools (processFilesResume p fl w))
    as (U' & _ & T' & D' & I' & P' & X').
  destruct (runEffects_calls (processFilesResume p fl w)) as (fs & C').
  rewrite U', T', D', I', P', X', C', U, D, P, I, X, C, T.
  repeat split; auto. exists fs. now rewrite <- app_assoc.
Qed.

End SessionProperties.

(** ** The remote pools of a session *)

Section SessionRemotePools.

Variable addDraw : Q -> Q -> Q.
Variable RegExp_test : string -> string -> bool.
Variable p : Props.

Lemma play_call_widget files s :
  widget (play addDraw RegExp_test p (Call files) s)
  = fst (callAdd RegExp_test p files (widget s))
  /\ inFlight (play addDraw RegExp_test p (Call files) s)
     = inFlight s
       ++ match snd (callAdd RegExp_test p files (widget s)) with
          | Some fl => [fl]
          | None => []
          end.
Proof.
  cbn [play]. destruct (callAdd _ _ _ _) as (w' & fl). split; reflexivity.
Qed.

Lemma tick_same_remote h random w :
  same_remote w (stepWith addDraw RegExp_test p (UploadTimer h random) w).
Proof.
  unfold stepWith.
  pose proof (fireUploadWith_fields addDraw h random w) as (_ & Rm & _).
  pose proof (runEffects_pools (fireUploadWith addDraw h random w)) as (_ & _ & _ & Rm').
  unfold same_remote in *. intuition congruence.
Qed.

(** In multiple-file mode neither half of an add touches the remote side. *)
Lemma callAdd_same_remote files w :
  singleFile p = false ->
  same_remote w (fst (callAdd RegExp_test p files w)).
Proof.
  intros Multi. unfold callAdd.
  assert (H : same_remote w (fst (processFilesCall RegExp_test p files w))).
  { destruct (refused p w) eqn:Rf.
    - destruct (processFilesCall_refused RegExp_test p files w Rf) as (m & ->).
      unfold same_remote. cbn. auto.
    - rewrite (processFilesCall_accepted RegExp_test p files w Rf).
      destruct (JS.slice0 _ files); cbn [fst]; [|unfold same_remote; auto].
      pose proof (processFilesResume_fields p
                    (mkInFlight (accepted RegExp_test p files w) (uploadedFiles w)) w)
        as (_ & D & P & I & X & _).
      cbn zeta in *. rewrite Multi in D. unfold same_remote. auto. }
  destruct (processFilesCall _ _ _ _) as (w' & fl). cbn [fst] in *.
  pose proof (runEffects_pools w') as (_ & _ & _ & Rm).
  unfold same_remote in *. intuition congruence.
Qed.

Lemma resumeAdd_same_remote fl w :
  singleFile p = false ->
  same_remote w (resumeAdd p fl w).
Proof.
  intros Multi.
  pose proof (resumeAdd_fields p fl w) as (_ & D & P & I & X & _).
  cbn zeta in *. rewrite Multi in D. unfold same_remote. auto.
Qed.

Lemma step_remote_invariant existing a w :
  without_clear_or_render a = true ->
  enabled p a w = true ->
  settled w ->
  existingFiles w = existing /\ remote_wf w /\ union_invariant w ->
  existingFiles (step RegExp_test p a w) = existing
  /\ remote_wf (step RegExp_test p a w)
  /\ union_invariant (step RegExp_test p a w).
Proof.
  intros Al En St (X & Inv).
  assert (Loc : same_remote w (step RegExp_test p a w) ->
                existingFiles (step RegExp_test p a w) = existing
                /\ remote_wf (step RegExp_test p a w)
                /\ union_invariant (step RegExp_test p a w)).
  { intros Sr. split; [|now apply (same_remote_invariant w)].
    destruct Sr as (_ & _ & _ & E). congruence. }
  destruct a; try discriminate Al;
    try (apply Loc; apply step_local_same_remote; exact I).
  - cbn in En. apply andb_true_iff in En as (_ & En).
    apply existsb_exists in En as (g & Ig & E).
    apply DisplayFile_eqb_eq in E. subst g.
    split; [|now apply removeExisting_invariant].
    pose proof (step_removeExisting RegExp_test p w f now) as (_ & _ & _ & _ & E).
    cbn zeta in E. congruence.
  - cbn in En. split; [|now apply undo_invariant].
    destruct (find (fun r => Z.eqb (removal_id r) fileId) (undoableRemovals w))
      as [e|] eqn:F.
    + pose proof (step_undo RegExp_test p w fileId e F) as (_ & _ & _ & _ & E).
      cbn zeta in E. congruence.
    + apply existsb_exists in En as (r & Ir & E).
      pose proof (find_none _ _ F r Ir) as N. cbn in N. congruence.
  - cbn in En. split; [|now apply confirm_invariant].
    pose proof (step_confirm RegExp_test p w fileId) as (_ & _ & _ & E).
    cbn zeta in E. congruence.
  - split; [|now apply sweep_invariant].
    unfold step. cbn [handle].
    pose proof (runEffects_pools (fireSweep now w)) as (_ & _ & _ & _ & _ & _ & E).
    rewrite E. unfold fireSweep. destruct (sweepTimer w); [|exact X].
    unfold sweepTick. destruct (sweepFilter _ _). exact X.
Qed.

Lemma play_remote_invariant existing m s :
  singleFile p = false ->
  keepsHostFiles m s = true ->
  movable p m s = true ->
  settled (widget s) ->
  existingFiles (widget s) = existing
  /\ remote_wf (widget s) /\ union_invariant (widget s) ->
  let s' := play addDraw RegExp_test p m s in
  existingFiles (widget s') = existing
  /\ remote_wf (widget s') /\ union_invariant (widget s').
Proof.
  intros Multi Ok Mv St (X & Inv). cbn zeta.
  assert (Loc : forall w', same_remote (widget s) w' ->
                existingFiles w' = existing /\ remote_wf w' /\ union_invariant w').
  { intros w' Sr. split; [|now apply (same_remote_invariant (widget s))].
    destruct Sr as (_ & _ & _ & E). congruence. }
  destruct m as [a|files|k].
  - cbn [play widget]. cbn in Ok, Mv.
    destruct a; try (apply step_remote_invariant; auto; fail).
    apply Loc, tick_same_remote.
  - destruct (play_call_widget files s) as (-> & _).
    apply Loc. now apply callAdd_same_remote.
  - cbn [play]. destruct (nth_error _ _) as [fl|]; [|auto].
    cbn [widget]. apply Loc. now apply resumeAdd_same_remote.
Qed.

Lemma reaches_remote_invariant existing s :
  singleFile p = false ->
  NoDup (map media_id existing) ->
  reaches addDraw RegExp_test p existing keepsHostFiles s ->
  existingFiles (widget s) = existing
  /\ remote_wf (widget s) /\ union_invariant (widget s).
Proof.
  intros Multi Nd R. induction R as [|m s R IH Ok Mv].
  - cbn [widget].
    destruct (mount_remote existing) as (D & P & I & X & _).
    unfold remote_wf, union_invariant, remoteUnion. rewrite D, P, I, X. cbn.
    split; [reflexivity|]. split.
    + repeat split; try constructor.
      * intros f g If Ig. now apply (NoDup_map_injective media_id existing).
      * auto.
    + intros f. rewrite app_nil_r. tauto.
  - apply play_remote_invariant; auto.
    apply (reaches_settled _ _ _ _ _ _ R).
Qed.

(** C4 (as the code has it).  In multiple-file mode, when the host's
    files have distinct ids: in every session reached by add (its call and
    the later storing of its records taken as two events, with anything in
    between), remove, requestRemoval, undo, confirm, sweep and upload
    ticks (no [clear], no new list from the host), the active remote
    files together with the files of the pending-deletion entries are
    exactly the host's files whose id is not in the confirmed list. *)
Theorem remote_union_invariant existing s :
  singleFile p = false ->
  NoDup (map media_id existing) ->
  reaches addDraw RegExp_test p existing keepsHostFiles s ->
  existingFiles (widget s) = existing
  /\ forall f,
       In f (displayExistingFiles (widget s)
             ++ map removal_file (undoableRemovals (widget s)))
       <-> In f existing /\ ~ In (media_id f) (removedImageIds (widget s)).
Proof.
  intros Multi Nd R.
  destruct (reaches_remote_invariant existing s Multi Nd R) as (X & _ & Un).
  split; [exact X|]. intros f. rewrite <- X. apply Un.
Qed.

(** ** The capacity of a session *)

Lemma stepWith_pools_shrink a w :
  match a with
  | Add _ | Undo _ | HostRender _ => False
  | _ => True
  end ->
  (List.length (displayExistingFiles (stepWith addDraw RegExp_test p a w))
   <= List.length (displayExistingFiles w))%nat
  /\ (List.length (uploadedFiles (stepWith addDraw RegExp_test p a w))
      <= List.length (uploadedFiles w))%nat.
Proof.
  intros K.
  destruct a as [| | | | | | |h random| |]; try (now apply step_pools_shrink).
  unfold stepWith.
  pose proof (fireUploadWith_fields addDraw h random w)
    as (_ & (D & _) & _ & _ & L).
  pose proof (runEffects_pools (fireUploadWith addDraw h random w))
    as (U' & _ & _ & D' & _).
  cbn zeta in *. rewrite U', D', D, L. split; lia.
Qed.

Lemma withinCapacity_shrink s w' :
  withinCapacity p s ->
  (List.length (displayExistingFiles w') <= List.length (displayExistingFiles (widget s)))%nat ->
  (List.length (uploadedFiles w') <= List.length (uploadedFiles (widget s)))%nat ->
  withinCapacity p (mkSession w' (inFlight s)).
Proof.
  intros (T & L & F) Hd Hu. unfold withinCapacity, getTotalFileCount in *.
  cbn [widget inFlight]. split; [lia|]. split; [exact L|].
  eapply Forall_impl; [|exact F]. cbn. intros fl H. lia.
Qed.

Lemma play_withinCapacity m s :
  oneAddAtATime m s = true ->
  withinCapacity p s ->
  withinCapacity p (play addDraw RegExp_test p m s).
Proof.
  intros Ok Cap. pose proof Cap as (T & L & F).
  destruct m as [a|files|k].
  - cbn [play].
    assert (Sh : match a with
                 | Add _ | Undo _ | HostRender _ => False
                 | _ => True
                 end ->
                 withinCapacity p
                   (mkSession (stepWith addDraw RegExp_test p a (widget s)) (inFlight s))).
    { intros K. pose proof (stepWith_pools_shrink a (widget s) K) as (Hd & Hu).
      now apply withinCapacity_shrink. }
    destruct a; try discriminate Ok; try (apply Sh; exact I).
    cbn in Ok. destruct (inFlight s) eqn:E; [|discriminate].
    unfold withinCapacity. cbn [widget inFlight stepWith].
    split; [|split; [cbn; lia|constructor]].
    pose proof (step_add_pools RegExp_test p files (widget s)) as H. cbn zeta in H.
    destruct (_ || _).
    + destruct H as (_ & U & D & _).
      unfold getTotalFileCount in *. rewrite U, D. exact T.
    + apply H.
  - cbn in Ok. destruct (inFlight s) eqn:E; [|discriminate].
    destruct (play_call_widget files s) as (W & Fl).
    unfold withinCapacity. rewrite W, Fl, E. cbn [app]. unfold callAdd.
    destruct (refused p (widget s)) eqn:Rf.
    + destruct (processFilesCall_refused RegExp_test p files (widget s) Rf) as (m & ->).
      cbn [fst snd].
      pose proof (runEffects_pools (call (onError m) (widget s))) as (U & _ & _ & D & _).
      unfold getTotalFileCount in *. rewrite U, D. cbn.
      split; [exact T|]. split; [lia|constructor].
    + rewrite (processFilesCall_accepted RegExp_test p files (widget s) Rf).
      destruct (slice0_accepted p files (widget s) Rf) as (Sl & Len & Le & _).
      cbn zeta in *.
      assert (La : List.length (accepted RegExp_test p files (widget s))
                   = Z.to_nat (Z.min (Z.of_nat (List.length files))
                                     (maxFiles p - getTotalFileCount (widget s)))).
      { unfold accepted. rewrite length_map, Sl. exact Len. }
      destruct (JS.slice0 _ files) eqn:Sl'; cbn [fst snd].
      * pose proof (processFilesResume_fields p
                      (mkInFlight (accepted RegExp_test p files (widget s))
                                  (uploadedFiles (widget s))) (widget s))
          as (U & D & _).
        pose proof (runEffects_pools
                      (processFilesResume p
                         (mkInFlight (accepted RegExp_test p files (widget s))
                                     (uploadedFiles (widget s))) (widget s)))
          as (U' & _ & _ & D' & _).
        cbn zeta in *. cbn [flight_records] in U.
        split; [|split; [cbn; lia|constructor]].
        unfold getTotalFileCount in *. rewrite U', D', U, D, length_app, La.
        destruct (singleFile p); cbn [List.length]; lia.
      * pose proof (runEffects_pools (widget s)) as (U' & _ & _ & D' & _).
        split; [|split; [cbn; lia|]].
        -- unfold getTotalFileCount in *. rewrite U', D'. exact T.
        -- constructor; [|constructor]. cbn [flight_records].
           unfold getTotalFileCount in *. rewrite U', D', La. lia.
  - cbn [play]. destruct (nth_error (inFlight s) k) as [fl|] eqn:N; [|exact Cap].
    assert (E : inFlight s = [fl] /\ k = 0%nat).
    { destruct (inFlight s) as [|x [|y l]]; cbn in L; try lia.
      - destruct k; discriminate N.
      - destruct k as [|[|k]]; cbn in N; try discriminate. inversion N. auto. }
    destruct E as (E & ->). rewrite E in *. cbn [dropNth firstn skipn app].
    inversion F as [|? ? Hf _]; subst.
    pose proof (resumeAdd_fields p fl (widget s)) as (U & D & _). cbn zeta in *.
    unfold withinCapacity. cbn [widget inFlight].
    split; [|split; [cbn; lia|constructor]].
    unfold getTotalFileCount in *. rewrite U, D, length_app.
    destruct (singleFile p); cbn [List.length]; lia.
Qed.

Lemma reaches_withinCapacity existing s :
  Z.of_nat (List.length existing) <= maxFiles p ->
  reaches addDraw RegExp_test p existing oneAddAtATime s ->
  withinCapacity p s.
Proof.
  intros Fit R. induction R as [|m s R IH Ok Mv].
  - destruct (mount_remote existing) as (D & _ & _ & _ & U).
    unfold withinCapacity, getTotalFileCount. cbn [widget inFlight].
    rewrite D, U. cbn. split; [lia|]. split; [lia|constructor].
  - now apply play_withinCapacity.
Qed.

(** X7.  When the host's list fits the configured maximum, the number of
    selectable files (active remote plus local pending) stays within
    [maxFiles] in every session reached without an undo, without a new
    list from the host, and without an add being called while another one
    waits for its previews (whatever else happens while it waits). *)
Theorem total_within_maxFiles existing s :
  Z.of_nat (List.length existing) <= maxFiles p ->
  reaches addDraw RegExp_test p existing oneAddAtATime s ->
  getTotalFileCount (widget s) <= maxFiles p.
Proof.
  intros Fit R. apply (reaches_withinCapacity existing s Fit R).
Qed.

End SessionRemotePools.

(** ** What an add stores and reports *)

Section AddInTwoEvents.

Variable RegExp_test : string -> string -> bool.
Variable p : Props.

Lemma resumeAdd_errors fl w :
  errors (calls (resumeAdd p fl w)) = errors (calls w).
Proof.
  pose proof (resumeAdd_fields p fl w) as (_ & _ & _ & _ & _ & (fs & C) & _).
  cbn zeta in C. rewrite C, !errors_app, errors_completions.
  destruct (existsb valid _); cbn; now rewrite app_nil_r.
Qed.

Lemma resumeAdd_fileChanges fl w :
  fileChanges (calls (resumeAdd p fl w))
  = fileChanges (calls w)
    ++ (if existsb valid (flight_records fl)
        then [map file (flight_pool fl)
              ++ map file (filter valid (flight_records fl))]
        else []).
Proof.
  pose proof (resumeAdd_fields p fl w) as (_ & _ & _ & _ & _ & (fs & C) & _).
  cbn zeta in C. rewrite C, !fileChanges_app, fileChanges_completions.
  destruct (existsb valid _); cbn; now rewrite ?app_nil_r.
Qed.

Lemma callAdd_fields files w :
  let w' := fst (callAdd RegExp_test p files w) in
  fileChanges (calls w') = fileChanges (calls w)
  /\ (refused p w = false ->
      files <> [] ->
      uploadedFiles w' = uploadedFiles w
      /\ same_remote w w'
      /\ errors (calls w') = errors (calls w)).
Proof.
  cbn zeta. split.
  - destruct (refused p w) eqn:Rf.
    + destruct (callAdd_refused RegExp_test p files w Rf)
        as (m & fs & _ & C & _).
      rewrite C, !fileChanges_app, fileChanges_completions. cbn.
      now rewrite app_nil_r.
    + unfold callAdd.
      rewrite (processFilesCall_accepted RegExp_test p files w Rf).
      destruct (JS.slice0 _ files) eqn:Sl; cbn [fst].
      * fold (resumeAdd p (mkInFlight (accepted RegExp_test p files w)
                                      (uploadedFiles w)) w).
        rewrite resumeAdd_fileChanges. unfold accepted. rewrite Sl. cbn.
        now rewrite app_nil_r.
      * destruct (runEffects_calls w) as (fs & C).
        rewrite C, fileChanges_app, fileChanges_completions.
        now rewrite app_nil_r.
  - intros Rf Ne. rewrite (callAdd_accepted RegExp_test p files w Rf Ne). cbn [fst].
    pose proof (runEffects_pools w) as (U & _ & _ & Rm).
    destruct (runEffects_calls w) as (fs & C).
    rewrite U, C, errors_app, errors_completions, app_nil_r. auto.
Qed.

(** C7 (as the code has it).  A call of [add] with the batch [files] in
    the state [w].  The records built for the first
    [min(batchSize, availableSlots)] files carry these files, in order,
    with progress 0 and not uploaded.  When single-file mode is on and a
    file occupies a slot, or when no slot is available, the call reports
    one capacity error, leaves nothing in flight and changes none of the
    four pools.  Otherwise the call reports no error and leaves the
    records in flight; when the previews have arrived, in whatever state
    [w2] that is, exactly these records are appended to the local pool
    (in single-file mode they replace it and the active remote list is
    emptied) and no error is reported; and when nothing happens in
    between, the total afterwards is the total before plus the number of
    records, which is within [maxFiles]. *)
Theorem add_respects_capacity files w :
  let currentCount := getTotalFileCount w in
  let availableSlots := maxFiles p - currentCount in
  let taken := Z.to_nat (Z.min (Z.of_nat (List.length files)) availableSlots) in
  let records := map (newUploadedFile RegExp_test p) (firstn taken files) in
  map file records = map picked_file (firstn taken files)
  /\ map id records = map picked_id (firstn taken files)
  /\ Forall (fun f => progress f = 0%Q /\ uploaded f = false
                      /\ name f = File_name (file f)
                      /\ error f = validateFile RegExp_test p (file f)) records
  /\ if (singleFile p && (0 <? currentCount)) || (availableSlots <=? 0) then
       (exists message,
           errors (calls (fst (callAdd RegExp_test p files w)))
           = errors (calls w) ++ [message]
           /\ errors (calls (step RegExp_test p (Add files) w))
              = errors (calls w) ++ [message])
       /\ snd (callAdd RegExp_test p files w) = None
       /\ (forall w',
             w' = fst (callAdd RegExp_test p files w)
             \/ w' = step RegExp_test p (Add files) w ->
             uploadedFiles w' = uploadedFiles w
             /\ displayExistingFiles w' = displayExistingFiles w
             /\ undoableRemovals w' = undoableRemovals w
             /\ removedImageIds w' = removedImageIds w)
     else
       (files <> [] ->
        snd (callAdd RegExp_test p files w)
        = Some (mkInFlight records (uploadedFiles w))
        /\ uploadedFiles (fst (callAdd RegExp_test p files w)) = uploadedFiles w
        /\ displayExistingFiles (fst (callAdd RegExp_test p files w))
           = displayExistingFiles w
        /\ undoableRemovals (fst (callAdd RegExp_test p files w))
           = undoableRemovals w
        /\ removedImageIds (fst (callAdd RegExp_test p files w))
           = removedImageIds w
        /\ errors (calls (fst (callAdd RegExp_test p files w))) = errors (calls w))
       /\ (forall pool w2,
             let w' := resumeAdd p (mkInFlight records pool) w2 in
             uploadedFiles w'
             = (if singleFile p then [] else uploadedFiles w2) ++ records
             /\ displayExistingFiles w'
                = (if singleFile p then [] else displayExistingFiles w2)
             /\ undoableRemovals w' = undoableRemovals w2
             /\ removedImageIds w' = removedImageIds w2
             /\ errors (calls w') = errors (calls w2))
       /\ (let w' := step RegExp_test p (Add files) w in
           uploadedFiles w' = uploadedFiles w ++ records
           /\ displayExistingFiles w' = displayExistingFiles w
           /\ undoableRemovals w' = undoableRemovals w
           /\ removedImageIds w' = removedImageIds w
           /\ errors (calls w') = errors (calls w)
           /\ getTotalFileCount w' = currentCount + Z.of_nat taken
           /\ getTotalFileCount w' <= maxFiles p).
Proof.
  cbn zeta.
  set (taken := Z.to_nat (Z.min (Z.of_nat (List.length files))
                                (maxFiles p - getTotalFileCount w))).
  set (records := map (newUploadedFile RegExp_test p) (firstn taken files)).
  split; [unfold records; rewrite map_map; reflexivity|].
  split; [unfold records; rewrite map_map; reflexivity|].
  split.
  { apply Forall_forall. intros f If. unfold records in If.
    apply in_map_iff in If as (x & <- & _). cbn.
    repeat split. apply or_undefined_validateFile. }
  pose proof (step_add_pools RegExp_test p files w) as St. cbn zeta in St.
  fold (refused p w) in *. destruct (refused p w) eqn:Rf.
  - destruct St as (_ & U & D & P & I).
    destruct (callAdd_refused RegExp_test p files w Rf)
      as (_ & _ & N & _ & U' & _ & (D' & I' & P' & _)).
    destruct (processFilesCall_refused RegExp_test p files w Rf) as (m & X).
    split; [|split; [exact N|]].
    + exists m. split.
      * unfold callAdd. rewrite X. cbn [fst].
        destruct (runEffects_calls (call (onError m) w)) as (fs & C).
        rewrite C, errors_app, errors_completions, app_nil_r. cbn.
        now rewrite errors_app.
      * unfold step. cbn [handle]. rewrite processFiles_two_halves, X.
        destruct (runEffects_calls (call (onError m) w)) as (fs & C).
        rewrite C, errors_app, errors_completions, app_nil_r. cbn.
        now rewrite errors_app.
    + intros w' [->| ->]; auto.
  - destruct (slice0_accepted p files w Rf) as (Sl & Len & Le & Ne').
    cbn zeta in *. fold taken in St, Sl, Len, Le, Ne'. fold records in St.
    assert (Acc : accepted RegExp_test p files w = records).
    { unfold accepted, records. now rewrite Sl. }
    split; [|split].
    + intros Ne.
      rewrite (callAdd_accepted RegExp_test p files w Rf Ne). cbn [fst snd].
      rewrite Acc. split; [reflexivity|].
      pose proof (runEffects_pools w) as (U & _ & _ & D & I & P & _).
      destruct (runEffects_calls w) as (fs & C).
      rewrite U, D, I, P, C, errors_app, errors_completions, app_nil_r. auto.
    + intros pool w2. cbn zeta.
      pose proof (resumeAdd_fields p (mkInFlight records pool) w2)
        as (U & D & P & I & _).
      cbn zeta in *. cbn [flight_records] in U.
      rewrite resumeAdd_errors. auto.
    + destruct St as (U & L & D & P & I & E & T).
      repeat (split; [assumption|]). split; [|exact T].
      unfold getTotalFileCount. rewrite D, L. lia.
Qed.

(** C2 (as the code has it).  On a pool none of whose files carries a
    validation error: [clear] and [remove] each invoke [onFilesChange]
    once with the raw files of the validated local pending files of the
    new state; the call of an add invokes nothing; when an add stores its
    records and the pool is what it was at the call (as it is when nothing
    happens in between; in single-file mode the pool is empty at a call
    that is accepted), [onFilesChange] is invoked, with that payload,
    exactly when one of the stored files passed validation.  A file over
    the size limit is stored with the size message as its error; stored
    alone, it causes no [onFilesChange]. *)
Theorem files_change_payload w :
  forallb valid (uploadedFiles w) = true ->
  fileChanges (calls (step RegExp_test p Clear w))
  = fileChanges (calls w) ++ [payload (step RegExp_test p Clear w)]
  /\ (forall fileId,
        let w' := step RegExp_test p (RemoveNew fileId) w in
        fileChanges (calls w') = fileChanges (calls w) ++ [payload w'])
  /\ (forall files,
        fileChanges (calls (fst (callAdd RegExp_test p files w)))
        = fileChanges (calls w))
  /\ (forall fl,
        flight_pool fl = uploadedFiles w ->
        (singleFile p = true -> uploadedFiles w = []) ->
        let w' := resumeAdd p fl w in
        fileChanges (calls w')
        = fileChanges (calls w)
          ++ (if existsb valid (flight_records fl) then [payload w'] else []))
  /\ (forall files,
        let w' := step RegExp_test p (Add files) w in
        let new := if refused p w then [] else accepted RegExp_test p files w in
        uploadedFiles w' = uploadedFiles w ++ new
        /\ fileChanges (calls w')
           = fileChanges (calls w)
             ++ (if existsb valid new then [payload w'] else []))
  /\ (forall x,
        maxSize p * 1024 * 1024 < File_size (picked_file x) ->
        error (newUploadedFile RegExp_test p x)
        = Some ("File size must be less than "
                ++ JS.show (maxSize p) ++ "MB")%string
        /\ (forall pool w2,
              let w' := resumeAdd p (mkInFlight [newUploadedFile RegExp_test p x] pool)
                          w2 in
              In (newUploadedFile RegExp_test p x) (uploadedFiles w')
              /\ fileChanges (calls w') = fileChanges (calls w2))
        /\ (refused p w = false ->
            let w' := step RegExp_test p (Add [x]) w in
            uploadedFiles w' = uploadedFiles w ++ [newUploadedFile RegExp_test p x]
            /\ fileChanges (calls w') = fileChanges (calls w))).
Proof.
  intros V. split; [|split; [|split; [|split; [|split]]]].
  - rewrite step_clear_changes.
    destruct (step_clear RegExp_test p w) as (U & _). cbn zeta in U.
    unfold payload. rewrite U. reflexivity.
  - intros fileId. cbn zeta.
    destruct (step_removeNew RegExp_test p fileId w) as (U & C & _). cbn zeta in *.
    rewrite C. unfold payload. rewrite filter_all_valid; [reflexivity|].
    rewrite U. apply forallb_filter, V.
  - intros files. apply (callAdd_fields files w).
  - intros fl Pool Single. cbn zeta. rewrite resumeAdd_fileChanges.
    pose proof (resumeAdd_fields p fl w) as (U & _). cbn zeta in U.
    unfold payload. rewrite U, Pool.
    destruct (singleFile p).
    + rewrite (Single eq_refl). reflexivity.
    + rewrite filter_app, map_app, (filter_all_valid _ V). reflexivity.
  - intros files. cbn zeta.
    destruct (step_add_changes RegExp_test p files w) as (U & C). cbn zeta in *.
    split; [exact U|]. rewrite C. unfold payload.
    rewrite U, filter_app, map_app, (filter_all_valid _ V). reflexivity.
  - intros x Big.
    destruct (oversized_rejected RegExp_test p x Big) as (E & NV).
    split; [exact E|]. split.
    + intros pool w2. cbn zeta. rewrite resumeAdd_fileChanges.
      pose proof (resumeAdd_fields p
                    (mkInFlight [newUploadedFile RegExp_test p x] pool) w2) as (U & _).
      cbn zeta in U. cbn [flight_records] in *. rewrite U.
      cbn [existsb]. rewrite NV. cbn. rewrite app_nil_r.
      split; [apply in_or_app; right; now left|reflexivity].
    + intros Rf. cbn zeta.
      destruct (step_add_changes RegExp_test p [x] w) as (U & C). cbn zeta in *.
      rewrite Rf in U, C.
      assert (A : accepted RegExp_test p [x] w = [newUploadedFile RegExp_test p x]).
      { unfold accepted. rewrite slice0_positive.
        - unfold refused in Rf. apply orb_false_iff in Rf as (_ & Rf).
          apply Z.leb_gt in Rf. cbn [List.length].
          replace (Z.to_nat (Z.min (Z.of_nat 1) (maxFiles p - getTotalFileCount w)))
            with 1%nat by lia.
          reflexivity.
        - unfold refused in Rf. apply orb_false_iff in Rf as (_ & Rf).
          now apply Z.leb_gt in Rf. }
      rewrite A in U, C. cbn [existsb] in C. rewrite NV in C. cbn in C.
      rewrite app_nil_r in C. auto.
Qed.

End AddInTwoEvents.

(** ** One interval per file *)

Lemma NoDup_app_iff {A} (l l' : list A) :
  NoDup (l ++ l') <-> NoDup l /\ NoDup l' /\ (forall a, In a l -> ~ In a l').
Proof.
  split.
  - intros N. split; [exact (NoDup_app_remove_r _ _ N)|].
    split; [exact (NoDup_app_remove_l _ _ N)|].
    induction l as [|x l IH]; intros a I I'; [destruct I|].
    cbn in N. inversion N as [|? ? Nx Nl]; subst.
    destruct I as [<-|I].
    + apply Nx. apply in_or_app. now right.
    + exact (IH Nl a I I').
  - intros (N1 & N2 & D). now apply NoDup_app.
Qed.

Lemma mem_spec i l : mem i l = true <-> In i l.
Proof.
  unfold mem. rewrite existsb_exists. split.
  - intros (x & I & E). apply String.eqb_eq in E. now subst.
  - intros I. exists i. split; [exact I|apply String.eqb_refl].
Qed.

Lemma mem_false i l : mem i l = false <-> ~ In i l.
Proof.
  rewrite <- mem_spec. destruct (mem i l); split; intros H; congruence.
Qed.

Lemma distinct_spec l : distinct l = true -> NoDup l.
Proof.
  induction l as [|i l IH]; intros H; [constructor|].
  cbn in H. apply andb_true_iff in H as (H1 & H2).
  constructor; [|auto]. apply mem_false. now apply negb_true_iff.
Qed.

Lemma find_none_iff {A} (P : A -> bool) (l : list A) :
  find P l = None <-> forall x, In x l -> P x = false.
Proof.
  split; [apply find_none|].
  induction l as [|a l IH]; intros H; [reflexivity|].
  cbn. rewrite (H a) by now left. apply IH. intros x I. apply H. now right.
Qed.

Lemma find_app {A} (P : A -> bool) (l l' : list A) :
  find P (l ++ l')
  = match find P l with
    | Some x => Some x
    | None => find P l'
    end.
Proof.
  induction l as [|a l IH]; [reflexivity|].
  cbn. destruct (P a); [reflexivity|exact IH].
Qed.

Lemma find_map_preserved_in {A} (P : A -> bool) (g : A -> A) (l : list A) :
  (forall x, In x l -> P (g x) = P x) ->
  find P (map g l) = option_map g (find P l).
Proof.
  induction l as [|a l IH]; intros H; [reflexivity|].
  cbn. rewrite (H a) by now left.
  destruct (P a); [reflexivity|]. apply IH. intros x I. apply H. now right.
Qed.

Lemma find_filter_irrelevant {A} (P Q : A -> bool) (l : list A) :
  (forall x, In x l -> Q x = false -> P x = false) ->
  find P (filter Q l) = find P l.
Proof.
  induction l as [|a l IH]; intros H; [reflexivity|].
  cbn. destruct (Q a) eqn:E.
  - cbn. destruct (P a); [reflexivity|]. apply IH. intros x I. apply H. now right.
  - rewrite (H a (or_introl eq_refl) E). apply IH. intros x I. apply H. now right.
Qed.

Lemma filter_const {A} (b : bool) (l : list A) :
  filter (fun _ => b) l = if b then l else [].
Proof.
  induction l as [|a l IH]; [now destruct b|].
  cbn. rewrite IH. now destruct b.
Qed.

Lemma freshUploads_ids start fileIds :
  map upload_fileId (freshUploads start fileIds) = fileIds.
Proof.
  revert start. induction fileIds as [|i l IH]; intros start; [reflexivity|].
  cbn. now rewrite IH.
Qed.

Lemma freshUploads_handles start fileIds :
  map upload_handle (freshUploads start fileIds) = seq start (List.length fileIds).
Proof.
  revert start. induction fileIds as [|i l IH]; intros start; [reflexivity|].
  cbn. now rewrite IH.
Qed.

Lemma freshUploads_zero start fileIds u :
  In u (freshUploads start fileIds) -> upload_progress u = 0%Q.
Proof.
  revert start. induction fileIds as [|i l IH]; intros start I; [destruct I|].
  destruct I as [<-|I]; [reflexivity|]. exact (IH _ I).
Qed.

Lemma intervalOf_none i w : intervalOf i w = None <-> ~ In i (intervalIds w).
Proof.
  unfold intervalOf, intervalIds. rewrite find_none_iff. split.
  - intros H I. apply in_map_iff in I as (u & E & I).
    specialize (H u I). cbn in H. rewrite E, String.eqb_refl in H. discriminate.
  - intros H u I. apply String.eqb_neq. intros E. apply H.
    rewrite <- E. now apply in_map.
Qed.

Lemma intervalOf_some i w u :
  intervalOf i w = Some u -> In u (uploads w) /\ upload_fileId u = i.
Proof.
  unfold intervalOf. intros H. apply find_some in H as (I & E).
  apply String.eqb_eq in E. auto.
Qed.

(** With distinct file ids among the intervals, the interval of a file is
    the one that carries its id. *)
Lemma intervalOf_unique w u :
  NoDup (intervalIds w) -> In u (uploads w) ->
  intervalOf (upload_fileId u) w = Some u.
Proof.
  intros N I. destruct (intervalOf (upload_fileId u) w) as [v|] eqn:E.
  - apply intervalOf_some in E as (Iv & Ev).
    f_equal. now apply (NoDup_map_injective upload_fileId (uploads w)).
  - apply intervalOf_none in E. destruct E. unfold intervalIds. now apply in_map.
Qed.

Lemma coupled_uploads w w' f :
  uploads w' = uploads w -> coupled w f -> coupled w' f.
Proof. unfold coupled, intervalOf. now intros ->. Qed.

Lemma coupled_bounds w f :
  coupled w f ->
  (0 <= progress f)%Q /\ (progress f <= 100)%Q
  /\ (uploaded f = true <-> progress f = 100%Q).
Proof.
  unfold coupled. destruct (intervalOf (id f) w) as [u|].
  - intros (Un & _ & P0 & P100). split; [exact P0|].
    split; [now apply Qlt_le_weak|]. split; [congruence|].
    intros E. rewrite E in P100. discriminate P100.
  - intros [(Up & ->)|(Un & ->)].
    + split; [discriminate|]. split; [apply Qle_refl|tauto].
    + split; [apply Qle_refl|]. split; [discriminate|].
      split; [congruence|discriminate].
Qed.

Lemma flightIds_app l l' : flightIds (l ++ l') = flightIds l ++ flightIds l'.
Proof. apply flat_map_app. Qed.

Lemma flightIds_middle l1 fl l2 :
  flightIds (l1 ++ fl :: l2)
  = flightIds l1 ++ map id (flight_records fl) ++ flightIds l2.
Proof. rewrite flightIds_app. reflexivity. Qed.

Lemma uploadsInOrder_ext s w' :
  uploadsInOrder s ->
  uploadedFiles w' = uploadedFiles (widget s) ->
  uploads w' = uploads (widget s) ->
  (nextHandle (widget s) <= nextHandle w')%nat ->
  uploadsInOrder (mkSession w' (inFlight s)).
Proof.
  intros (N1 & N2 & N3 & N4 & N5 & N6 & N7) U T N.
  unfold uploadsInOrder, poolIds, intervalIds in *. cbn [widget inFlight].
  rewrite U, T. repeat (split; [assumption|]).
  split; [|split; [|exact N7]].
  - eapply Forall_impl; [|exact N5]. cbn. intros u H. lia.
  - eapply Forall_impl; [|exact N6]. intros f. now apply coupled_uploads.
Qed.

Lemma uploadsInOrder_runEffects w flights :
  uploadsInOrder (mkSession w flights) ->
  uploadsInOrder (mkSession (runEffects w) flights).
Proof.
  intros H. pose proof (runEffects_pools w) as (U & _ & T & _).
  apply (uploadsInOrder_ext (mkSession w flights)); auto.
  apply runEffects_nextHandle_le.
Qed.

(** Files leave the pool: the intervals stay. *)
Lemma uploadsInOrder_filter (keep : UploadedFile -> bool) w flights w' :
  uploadsInOrder (mkSession w flights) ->
  uploadedFiles w' = filter keep (uploadedFiles w) ->
  uploads w' = uploads w ->
  (nextHandle w <= nextHandle w')%nat ->
  uploadsInOrder (mkSession w' flights).
Proof.
  intros (N1 & N2 & N3 & N4 & N5 & N6 & N7) U T N.
  unfold uploadsInOrder, poolIds, intervalIds in *. cbn [widget inFlight] in *.
  rewrite U, T. apply NoDup_app_iff in N1 as (Na & Nb & Nc).
  split; [|repeat (split; [assumption|]); split; [|split; [|exact N7]]].
  - apply NoDup_app_iff. split; [now apply NoDup_map_filter|].
    split; [exact Nb|]. intros i I. apply Nc.
    apply in_map_iff in I as (f & E & I). apply filter_In in I.
    apply in_map_iff. exists f. tauto.
  - eapply Forall_impl; [|exact N5]. cbn. intros u H. lia.
  - apply Forall_forall. intros f I. apply filter_In in I as (I & _).
    rewrite Forall_forall in N6. apply (coupled_uploads w); [exact T|auto].
Qed.

(** The records of an add in flight enter the pool. *)
Lemma uploadsInOrder_store l1 fl l2 w w' :
  uploadsInOrder (mkSession w (l1 ++ fl :: l2)) ->
  uploadedFiles w' = uploadedFiles w ++ flight_records fl ->
  uploads w' = uploads w ->
  (nextHandle w <= nextHandle w')%nat ->
  uploadsInOrder (mkSession w' (l1 ++ l2)).
Proof.
  intros (N1 & N2 & N3 & N4 & N5 & N6 & N7) U T N.
  unfold uploadsInOrder, poolIds, intervalIds in *. cbn [widget inFlight] in *.
  rewrite flightIds_middle in N1, N3.
  rewrite U, T, map_app, flightIds_app.
  split; [|split; [exact N2|split; [|split; [exact N4|split; [|split]]]]].
  - rewrite <- app_assoc.
    eapply Permutation_NoDup; [|exact N1].
    apply Permutation_app_head. apply Permutation_app_swap_app.
  - intros i I I'. apply (N3 i I).
    apply in_app_or in I' as [I'|I']; apply in_or_app; [now left|].
    right. apply in_or_app. now right.
  - eapply Forall_impl; [|exact N5]. cbn. intros u H. lia.
  - apply Forall_app. split.
    + eapply Forall_impl; [|exact N6]. intros f. now apply coupled_uploads.
    + apply Forall_forall. intros f I.
      apply Forall_app in N7 as (_ & N7). inversion N7 as [|? ? Nf _]; subst.
      rewrite Forall_forall in Nf. destruct (Nf f I) as (Un & P0).
      unfold coupled.
      replace (intervalOf (id f) w') with (@None Upload); [now right|].
      symmetry. apply intervalOf_none. unfold intervalIds. rewrite T.
      intros Ii. apply (N3 _ Ii). apply in_or_app. right. apply in_or_app. left.
      now apply in_map.
  - apply Forall_app in N7 as (Na & Nb). inversion Nb; subst.
    apply Forall_app. auto.
Qed.

(** A new add is left in flight. *)
Lemma uploadsInOrder_call w flights records pool :
  uploadsInOrder (mkSession w flights) ->
  NoDup (map id records) ->
  (forall i, In i (map id records) ->
             ~ In i (poolIds w) /\ ~ In i (intervalIds w) /\ ~ In i (flightIds flights)) ->
  Forall notStarted records ->
  uploadsInOrder (mkSession w (flights ++ [mkInFlight records pool])).
Proof.
  intros (N1 & N2 & N3 & N4 & N5 & N6 & N7) Nd Fresh Ns.
  unfold uploadsInOrder in *. cbn [widget inFlight] in *.
  rewrite flightIds_app. cbn [flightIds flat_map flight_records]. rewrite app_nil_r.
  apply NoDup_app_iff in N1 as (Na & Nb & Nc).
  split; [|split; [exact N2|split; [|repeat (split; [assumption|])]]].
  - apply NoDup_app_iff. split; [exact Na|]. split.
    + apply NoDup_app_iff. split; [exact Nb|]. split; [exact Nd|].
      intros i I I'. destruct (Fresh i I') as (Fa & Fb & Fc). auto.
    + intros i I I'. apply in_app_or in I' as [I'|I'].
      * exact (Nc i I I').
      * destruct (Fresh i I') as (Fa & Fb & Fc). auto.
  - intros i I I'. apply in_app_or in I' as [I'|I'].
    + exact (N3 i I I').
    + destruct (Fresh i I') as (Fa & Fb & Fc). auto.
  - apply Forall_app. split; [exact N7|]. constructor; [exact Ns|constructor].
Qed.

Lemma find_freshUploads i start fileIds :
  match find (fun u => String.eqb (upload_fileId u) i) (freshUploads start fileIds) with
  | Some u => upload_fileId u = i /\ upload_progress u = 0%Q /\ In i fileIds
  | None => ~ In i fileIds
  end.
Proof.
  destruct (find _ _) as [u|] eqn:F.
  - apply find_some in F as (I & E). apply String.eqb_eq in E.
    split; [exact E|]. split; [exact (freshUploads_zero _ _ _ I)|].
    rewrite <- E, <- (freshUploads_ids start fileIds). now apply in_map.
  - intros I. rewrite <- (freshUploads_ids start fileIds) in I.
    apply in_map_iff in I as (u & E & I).
    pose proof (find_none _ _ F u I) as H. cbn in H.
    rewrite E, String.eqb_refl in H. discriminate.
Qed.

(** Intervals are created for files of the pool that have none. *)
Lemma uploadsInOrder_start started w flights w' :
  uploadsInOrder (mkSession w flights) ->
  incl started (uploadedFiles w) ->
  NoDup (map id started) ->
  (forall f, In f started -> intervalOf (id f) w = None /\ uploaded f = false) ->
  uploadedFiles w' = uploadedFiles w ->
  uploads w' = uploads w ++ freshUploads (nextHandle w) (map id started) ->
  (nextHandle w + List.length started <= nextHandle w')%nat ->
  uploadsInOrder (mkSession w' flights).
Proof.
  intros (N1 & N2 & N3 & N4 & N5 & N6 & N7) Inc Nd Idle U T N.
  unfold uploadsInOrder, poolIds, intervalIds in *. cbn [widget inFlight] in *.
  rewrite U, T, !map_app, freshUploads_ids, freshUploads_handles, length_map.
  pose proof N1 as N1'. apply NoDup_app_iff in N1' as (Na & Nb & Nc).
  split; [exact N1|]. split; [|split; [|split; [|split; [|split; [|exact N7]]]]].
  - apply NoDup_app_iff. split; [exact N2|]. split; [exact Nd|].
    intros i I I'. apply in_map_iff in I' as (f & <- & If).
    destruct (Idle f If) as (No & _). apply intervalOf_none in No. now apply No.
  - intros i I. apply in_app_or in I as [I|I]; [now apply N3|].
    apply Nc. apply in_map_iff in I as (f & <- & If). apply in_map. now apply Inc.
  - apply NoDup_app_iff. split; [exact N4|]. split; [apply seq_NoDup|].
    intros h I I'. apply in_seq in I'.
    apply in_map_iff in I as (u & <- & Iu).
    rewrite Forall_forall in N5. specialize (N5 u Iu). cbn in N5. lia.
  - apply Forall_app. split.
    + eapply Forall_impl; [|exact N5]. cbn. intros u H. lia.
    + apply Forall_forall. intros u Iu.
      assert (Ih : In (upload_handle u) (seq (nextHandle w) (List.length started))).
      { rewrite <- (length_map id started), <- freshUploads_handles. now apply in_map. }
      apply in_seq in Ih. lia.
  - apply Forall_forall. intros f If.
    rewrite Forall_forall in N6. pose proof (N6 f If) as C.
    unfold coupled, intervalOf in *. rewrite T, find_app.
    destruct (find _ (uploads w)) as [u|] eqn:F; [exact C|].
    pose proof (find_freshUploads (id f) (nextHandle w) (map id started)) as Fr.
    destruct (find _ (freshUploads _ _)) as [v|]; [|exact C].
    destruct Fr as (_ & P0 & Iv).
    apply in_map_iff in Iv as (g & E & Ig).
    assert (G : g = f).
    { apply (NoDup_map_injective id (uploadedFiles w)); auto. }
    subst g. destruct (Idle f Ig) as (_ & Un).
    destruct C as [(Up & _)|(_ & P)]; [congruence|].
    rewrite P0, P. repeat split; auto; try apply Qle_refl; try reflexivity.
Qed.

Section Ticks.

Variable addDraw : Q -> Q -> Q.
Hypothesis addDraw_neverLowers : neverLowers addDraw.

Lemma handle_unique w u v :
  NoDup (map upload_handle (uploads w)) ->
  In u (uploads w) -> In v (uploads w) ->
  Nat.eqb (upload_handle v) (upload_handle u) = true -> v = u.
Proof.
  intros N Iu Iv E. apply Nat.eqb_eq in E.
  now apply (NoDup_map_injective upload_handle (uploads w)).
Qed.

(** What a tick does to the file of its interval, and to no other. *)
Lemma tick_files h random w flights :
  uploadsInOrder (mkSession w flights) ->
  (0 <= random)%Q ->
  let w' := fireUploadWith addDraw h random w in
  uploadsInOrder (mkSession w' flights)
  /\ exists upd : UploadedFile -> UploadedFile,
       uploadedFiles w' = map upd (uploadedFiles w)
       /\ forall f, In f (uploadedFiles w) ->
            id (upd f) = id f
            /\ (progress f <= progress (upd f))%Q
            /\ (uploaded f = true -> upd f = f).
Proof.
  intros Inv Hr. cbn zeta. unfold fireUploadWith.
  destruct (find _ (uploads w)) as [u|] eqn:F.
  2:{ split; [exact Inv|]. exists (fun f => f). rewrite map_id.
      split; [reflexivity|]. intros f _. repeat split; auto. apply Qle_refl. }
  apply find_some in F as (Iu & _).
  destruct Inv as (N1 & N2 & N3 & N4 & N5 & N6 & N7).
  cbn [widget inFlight] in *.
  assert (Same : forall v, In v (uploads w) ->
                           Nat.eqb (upload_handle v) (upload_handle u) = true -> v = u).
  { intros v Iv E. now apply (handle_unique w). }
  rewrite Forall_forall in N6.
  assert (Mine : forall f, In f (uploadedFiles w) ->
                           String.eqb (id f) (upload_fileId u) = true ->
                           uploaded f = false
                           /\ upload_progress u = progress f
                           /\ (0 <= progress f)%Q /\ (progress f < 100)%Q).
  { intros f If E. apply String.eqb_eq in E.
    pose proof (N6 f If) as C. unfold coupled in C.
    rewrite E, (intervalOf_unique w u N2 Iu) in C. exact C. }
  assert (Ids : forall g : UploadedFile -> UploadedFile,
             (forall f, id (g f) = id f) ->
             map id (map (fun f => if String.eqb (id f) (upload_fileId u)
                                   then g f else f) (uploadedFiles w))
             = map id (uploadedFiles w)).
  { intros g G. rewrite map_map. apply map_ext. intros f.
    destruct (String.eqb _ _); auto. }
  unfold uploadTickWith.
  set (progress' := addDraw (upload_progress u) random).
  assert (Ge : (upload_progress u <= progress')%Q) by now apply addDraw_neverLowers.
  destruct (done progress') eqn:Dn.
  - split.
    + unfold uploadsInOrder, poolIds, intervalIds. cbn.
      rewrite (Ids withUploaded (fun _ => eq_refl)).
      split; [exact N1|]. split; [now apply NoDup_map_filter|].
      split; [|split; [now apply NoDup_map_filter|split; [|split; [|exact N7]]]].
      * intros i I. apply N3. apply in_map_iff in I as (v & E & I).
        apply filter_In in I. apply in_map_iff. exists v. tauto.
      * apply Forall_forall. intros v I. apply filter_In in I as (I & _).
        rewrite Forall_forall in N5. now apply N5.
      * apply Forall_forall. intros f' If'.
        apply in_map_iff in If' as (f & <- & If).
        destruct (String.eqb (id f) (upload_fileId u)) eqn:E.
        -- unfold coupled, intervalOf. cbn [uploads setUploadedFiles setUploads id withUploaded].
           replace (find _ _) with (@None Upload); [cbn; now left|].
           symmetry. apply find_none_iff. intros v Iv.
           apply filter_In in Iv as (Iv & Ne).
           apply String.eqb_neq. intros Ev. apply String.eqb_eq in E.
           assert (V : v = u).
           { apply (NoDup_map_injective upload_fileId (uploads w)); auto. congruence. }
           subst v. rewrite Nat.eqb_refl in Ne. discriminate.
        -- pose proof (N6 f If) as C. unfold coupled, intervalOf in *.
           cbn [uploads setUploadedFiles setUploads].
           rewrite find_filter_irrelevant; [exact C|].
           intros v Iv Ne. apply negb_false_iff in Ne.
           rewrite (Same v Iv Ne). apply String.eqb_neq. intros Ev.
           rewrite Ev, String.eqb_refl in E. discriminate.
    + exists (fun f => if String.eqb (id f) (upload_fileId u) then withUploaded f else f).
      split; [reflexivity|]. intros f If.
      destruct (String.eqb (id f) (upload_fileId u)) eqn:E.
      * destruct (Mine f If E) as (Un & _ & _ & Lt).
        split; [reflexivity|]. split; [now apply Qlt_le_weak|congruence].
      * repeat split; auto. apply Qle_refl.
  - assert (Lt : (progress' < 100)%Q).
    { apply Qnot_le_lt. intros H. apply Qle_bool_iff in H.
      unfold done in Dn. congruence. }
    set (g := fun v => if Nat.eqb (upload_handle v) (upload_handle u)
                       then mkUpload (upload_handle u) (upload_fileId u) progress'
                       else v).
    assert (Gh : map upload_handle (map g (uploads w)) = map upload_handle (uploads w)).
    { rewrite map_map. apply map_ext_in. intros v Iv. unfold g.
      destruct (Nat.eqb _ _) eqn:E; [|reflexivity]. cbn. now rewrite (Same v Iv E). }
    assert (Gi : map upload_fileId (map g (uploads w)) = map upload_fileId (uploads w)).
    { rewrite map_map. apply map_ext_in. intros v Iv. unfold g.
      destruct (Nat.eqb _ _) eqn:E; [|reflexivity]. cbn. now rewrite (Same v Iv E). }
    assert (Gf : forall i,
               find (fun v => String.eqb (upload_fileId v) i) (map g (uploads w))
               = option_map g (find (fun v => String.eqb (upload_fileId v) i) (uploads w))).
    { intros i. apply find_map_preserved_in. intros v Iv. unfold g.
      destruct (Nat.eqb _ _) eqn:E; [|reflexivity]. cbn. now rewrite (Same v Iv E). }
    split.
    + unfold uploadsInOrder, poolIds, intervalIds. cbn. fold g.
      rewrite (Ids (fun f => withProgress f progress') (fun _ => eq_refl)), Gh, Gi.
      repeat (split; [assumption|]).
      split; [|split; [|exact N7]].
      * apply Forall_forall. intros v' Iv'. apply in_map_iff in Iv' as (v & <- & Iv).
        rewrite Forall_forall in N5. specialize (N5 v Iv). unfold g.
        destruct (Nat.eqb _ _) eqn:E; [|exact N5]. cbn.
        now rewrite <- (Same v Iv E).
      * apply Forall_forall. intros f' If'.
        apply in_map_iff in If' as (f & <- & If).
        destruct (String.eqb (id f) (upload_fileId u)) eqn:E.
        -- destruct (Mine f If E) as (Un & Pu & P0 & _).
           apply String.eqb_eq in E.
           unfold coupled, intervalOf.
           cbn [uploads setUploadedFiles setUploads id withProgress]. fold g.
           rewrite Gf, E. fold (intervalOf (upload_fileId u) w).
           rewrite (intervalOf_unique w u N2 Iu). cbn [option_map]. unfold g.
           rewrite Nat.eqb_refl. cbn.
           repeat split; auto. apply (Qle_trans _ (upload_progress u)); [|exact Ge].
           now rewrite Pu.
        -- pose proof (N6 f If) as C. unfold coupled, intervalOf in *.
           cbn [uploads setUploadedFiles setUploads]. fold g. rewrite Gf.
           destruct (find _ (uploads w)) as [v|] eqn:Fv; [|exact C].
           apply find_some in Fv as (Iv & Ev). apply String.eqb_eq in Ev.
           cbn [option_map]. unfold g.
           destruct (Nat.eqb (upload_handle v) (upload_handle u)) eqn:Eh; [|exact C].
           rewrite (Same v Iv Eh) in Ev. rewrite Ev, String.eqb_refl in E. discriminate.
    + exists (fun f => if String.eqb (id f) (upload_fileId u)
                       then withProgress f progress' else f).
      split; [reflexivity|]. intros f If.
      destruct (String.eqb (id f) (upload_fileId u)) eqn:E.
      * destruct (Mine f If E) as (Un & Pu & _ & _).
        split; [reflexivity|]. split; [cbn; now rewrite <- Pu|congruence].
      * repeat split; auto. apply Qle_refl.
Qed.

End Ticks.

Lemma firstn_map_incl {A B} (g : A -> B) (k : nat) (l : list A) x :
  In x (map g (firstn k l)) -> In x (map g l).
Proof.
  intros I. rewrite <- (firstn_skipn k l), map_app. apply in_or_app. now left.
Qed.

Lemma firstn_map_NoDup {A B} (g : A -> B) (k : nat) (l : list A) :
  NoDup (map g l) -> NoDup (map g (firstn k l)).
Proof.
  intros N. rewrite <- (firstn_skipn k l), map_app in N.
  exact (NoDup_app_remove_r _ _ N).
Qed.

Lemma freshIds_spec ids s :
  freshIds ids s = true ->
  NoDup ids
  /\ forall i, In i ids ->
       ~ In i (poolIds (widget s)) /\ ~ In i (intervalIds (widget s))
       /\ ~ In i (flightIds (inFlight s)).
Proof.
  unfold freshIds. intros H. apply andb_true_iff in H as (D & F).
  split; [now apply distinct_spec|]. intros i I.
  rewrite forallb_forall in F. specialize (F i I).
  apply andb_true_iff in F as (F & F3). apply andb_true_iff in F as (F1 & F2).
  apply negb_true_iff in F1, F2, F3.
  repeat split; now apply mem_false.
Qed.

Lemma mount_uploads existing :
  uploads (mount existing) = [] /\ uploadedFiles (mount existing) = [].
Proof. destruct existing; cbn; auto. Qed.

Section OneUploadPerFile.

Variable addDraw : Q -> Q -> Q.
Variable RegExp_test : string -> string -> bool.
Variable p : Props.

Lemma processFiles_resume files w :
  refused p w = false ->
  processFiles RegExp_test p files w
  = processFilesResume p
      (mkInFlight (accepted RegExp_test p files w) (uploadedFiles w)) w.
Proof.
  intros Rf. rewrite processFiles_two_halves.
  rewrite (processFilesCall_accepted RegExp_test p files w Rf).
  destruct (JS.slice0 _ files); reflexivity.
Qed.

Lemma accepted_fresh files s :
  freshIds (map picked_id files) s = true ->
  refused p (widget s) = false ->
  let new := accepted RegExp_test p files (widget s) in
  NoDup (map id new)
  /\ (forall i, In i (map id new) ->
        ~ In i (poolIds (widget s)) /\ ~ In i (intervalIds (widget s))
        /\ ~ In i (flightIds (inFlight s)))
  /\ Forall notStarted new.
Proof.
  intros Fr Rf. cbn zeta.
  destruct (freshIds_spec _ _ Fr) as (Nd & Fresh).
  destruct (slice0_accepted p files (widget s) Rf) as (Sl & _).
  cbn zeta in Sl. unfold accepted. rewrite Sl, map_map. cbn [newUploadedFile id].
  split; [now apply firstn_map_NoDup|]. split.
  - intros i I. apply Fresh. eapply firstn_map_incl, I.
  - apply Forall_forall. intros f I. apply in_map_iff in I as (x & <- & _).
    split; reflexivity.
Qed.

(** The second half of an add keeps the order. *)
Lemma resume_uploadsInOrder l1 fl l2 w :
  uploadsInOrder (mkSession w (l1 ++ fl :: l2)) ->
  uploadsInOrder (mkSession (processFilesResume p fl w) (l1 ++ l2)).
Proof.
  intros Inv.
  set (w0 := setUploadedFiles (filter (fun _ => negb (singleFile p))) w).
  assert (Inv0 : uploadsInOrder (mkSession w0 (l1 ++ fl :: l2))).
  { apply (uploadsInOrder_filter (fun _ => negb (singleFile p)) w); auto. }
  set (w1 := setUploadedFiles (fun prev => prev ++ flight_records fl) w0).
  assert (Inv1 : uploadsInOrder (mkSession w1 (l1 ++ l2))).
  { apply (uploadsInOrder_store l1 fl l2 w0); auto. }
  pose proof (processFilesResume_fields p fl w) as (U & _ & _ & _ & _ & _ & T & N & N' & _).
  cbn zeta in *.
  set (started := if autoUpload p then filter valid (flight_records fl) else []).
  apply (uploadsInOrder_start started w1).
  - exact Inv1.
  - intros f I. cbn. apply in_or_app. right. unfold started in I.
    destruct (autoUpload p); [|destruct I]. apply filter_In in I. apply I.
  - destruct Inv as (N1 & _). cbn [widget inFlight] in N1.
    rewrite flightIds_middle in N1.
    apply NoDup_app_remove_l, NoDup_app_remove_l, NoDup_app_remove_r in N1.
    unfold started. destruct (autoUpload p); [|constructor].
    now apply NoDup_map_filter.
  - intros f I.
    assert (If : In f (flight_records fl)).
    { unfold started in I. destruct (autoUpload p); [|destruct I].
      apply filter_In in I. apply I. }
    destruct Inv as (_ & _ & N3 & _ & _ & _ & N7). cbn [widget inFlight] in *.
    split.
    + apply intervalOf_none. intros Ii. apply (N3 _ Ii).
      rewrite flightIds_middle. apply in_or_app. right. apply in_or_app. left.
      now apply in_map.
    + apply Forall_app in N7 as (_ & N7). inversion N7 as [|? ? Nf _]; subst.
      rewrite Forall_forall in Nf. apply (Nf f If).
  - rewrite U. cbn. rewrite filter_const. now destruct (singleFile p).
  - rewrite T. cbn. unfold started. now destruct (autoUpload p).
  - cbn. unfold started. destruct (autoUpload p) eqn:A; cbn [List.length]; [|lia].
    rewrite (N' eq_refl). lia.
Qed.

Lemma add_uploadsInOrder files s :
  freshIds (map picked_id files) s = true ->
  uploadsInOrder s ->
  uploadsInOrder
    (mkSession (processFiles RegExp_test p files (widget s)) (inFlight s)).
Proof.
  intros Fr Inv. destruct (refused p (widget s)) eqn:Rf.
  - destruct (processFiles_refused RegExp_test p files (widget s) Rf) as (m & ->).
    apply (uploadsInOrder_ext s); auto.
  - rewrite (processFiles_resume files (widget s) Rf).
    destruct (accepted_fresh files s Fr Rf) as (Nd & Fresh & Ns). cbn zeta in *.
    rewrite <- (app_nil_r (inFlight s)).
    apply resume_uploadsInOrder.
    apply uploadsInOrder_call; auto.
Qed.

Lemma call_uploadsInOrder files s :
  freshIds (map picked_id files) s = true ->
  uploadsInOrder s ->
  uploadsInOrder (play addDraw RegExp_test p (Call files) s).
Proof.
  intros Fr Inv. cbn [play]. unfold callAdd.
  destruct (refused p (widget s)) eqn:Rf.
  - destruct (processFilesCall_refused RegExp_test p files (widget s) Rf) as (m & ->).
    rewrite app_nil_r. apply uploadsInOrder_runEffects.
    apply (uploadsInOrder_ext s); auto.
  - rewrite (processFilesCall_accepted RegExp_test p files (widget s) Rf).
    destruct (accepted_fresh files s Fr Rf) as (Nd & Fresh & Ns). cbn zeta in *.
    assert (Inv' : uploadsInOrder
                     (mkSession (widget s)
                        (inFlight s
                         ++ [mkInFlight (accepted RegExp_test p files (widget s))
                                        (uploadedFiles (widget s))]))).
    { apply uploadsInOrder_call; auto. }
    destruct (JS.slice0 _ files).
    + rewrite app_nil_r. apply uploadsInOrder_runEffects.
      rewrite <- (app_nil_r (inFlight s)). now apply resume_uploadsInOrder.
    + now apply uploadsInOrder_runEffects.
Qed.

Lemma handle_remote_uploads a w :
  match a with
  | RemoveExisting _ _ | Undo _ | Confirm _ | SweepTimer _ | HostRender _ => True
  | _ => False
  end ->
  uploadedFiles (handle RegExp_test p a w) = uploadedFiles w
  /\ uploads (handle RegExp_test p a w) = uploads w
  /\ nextHandle (handle RegExp_test p a w) = nextHandle w.
Proof.
  intros K. destruct a; try destruct K; cbn [handle].
  - cbn. auto.
  - unfold undoRemoval. destruct (find _ _); cbn; auto.
  - cbn. auto.
  - unfold fireSweep. destruct (sweepTimer w); [|auto].
    unfold sweepTick. destruct (sweepFilter _ _). cbn. auto.
  - cbn. auto.
Qed.

Lemma noneRunning_spec w f :
  noneRunning w = true -> In f (uploadedFiles w) -> startable f = true ->
  intervalOf (id f) w = None.
Proof.
  unfold noneRunning. intros H I St. rewrite forallb_forall in H.
  specialize (H f I). rewrite St in H. cbn in H.
  apply negb_true_iff, mem_false in H. now apply intervalOf_none.
Qed.

Lemma play_uploadsInOrder m s :
  neverLowers addDraw ->
  oneUploadPerFile m s = true ->
  movable p m s = true ->
  uploadsInOrder s ->
  uploadsInOrder (play addDraw RegExp_test p m s).
Proof.
  intros Mono Ok Mv Inv. destruct m as [a|files|k].
  - cbn [play].
    assert (Remote : match a with
                     | RemoveExisting _ _ | Undo _ | Confirm _ | SweepTimer _
                     | HostRender _ => True
                     | _ => False
                     end ->
                     uploadsInOrder
                       (mkSession (step RegExp_test p a (widget s)) (inFlight s))).
    { intros K. unfold step. apply uploadsInOrder_runEffects.
      destruct (handle_remote_uploads a (widget s) K) as (U & T & N).
      apply (uploadsInOrder_ext s); auto. lia. }
    destruct a as [files|fileId| | | | | |h random| |];
      try (apply Remote; exact I); cbn [stepWith]; unfold step; cbn [handle].
    + apply uploadsInOrder_runEffects. now apply add_uploadsInOrder.
    + apply uploadsInOrder_runEffects.
      apply (uploadsInOrder_filter
               (fun f => negb (String.eqb (id f) fileId)) (widget s)); auto.
    + apply uploadsInOrder_runEffects.
      apply (uploadsInOrder_filter (fun _ => false) (widget s)); auto.
      cbn. now rewrite filter_const.
    + apply uploadsInOrder_runEffects. cbn in Ok.
      pose proof (fold_simulateUpload_fields startable (uploadedFiles (widget s))
                    (widget s)) as (U & _).
      destruct (fold_simulateUpload_uploads startable (uploadedFiles (widget s))
                  (widget s)) as (T & N).
      cbn zeta in *.
      apply (uploadsInOrder_start (filter startable (uploadedFiles (widget s)))
                                  (widget s)).
      * exact Inv.
      * intros f I. apply filter_In in I. apply I.
      * destruct Inv as (N1 & _). apply NoDup_app_remove_r in N1.
        now apply NoDup_map_filter.
      * intros f I. apply filter_In in I as (I & St).
        split; [now apply noneRunning_spec|].
        unfold startable in St. apply andb_true_iff in St as (_ & St).
        now apply negb_true_iff.
      * exact U.
      * exact T.
      * assert (H : nextHandle (manualUpload (widget s))
                    = (nextHandle (widget s)
                       + List.length (filter startable (uploadedFiles (widget s))))%nat)
          by exact N.
        rewrite H. lia.
    + apply uploadsInOrder_runEffects.
      cbn in Mv. apply andb_true_iff in Mv as (R0 & _). apply Qle_bool_iff in R0.
      apply (tick_files addDraw Mono h random (widget s) (inFlight s));
        [exact Inv|exact R0].
  - now apply call_uploadsInOrder.
  - cbn [play]. destruct (nth_error (inFlight s) k) as [fl|] eqn:E; [|exact Inv].
    destruct (nth_error_split _ _ E) as (l1 & l2 & El & Len).
    rewrite El, <- Len, dropNth_middle. unfold resumeAdd.
    apply uploadsInOrder_runEffects. apply resume_uploadsInOrder.
    rewrite <- El. exact Inv.
Qed.

Lemma reaches_uploadsInOrder existing s :
  neverLowers addDraw ->
  reaches addDraw RegExp_test p existing oneUploadPerFile s ->
  uploadsInOrder s.
Proof.
  intros Mono R. induction R as [|m s R IH Ok Mv].
  - destruct (mount_uploads existing) as (T & U).
    unfold uploadsInOrder, poolIds, intervalIds. cbn [widget inFlight].
    rewrite T, U. cbn.
    split; [constructor|]. split; [constructor|]. split; [intros i []|].
    repeat split; constructor.
  - now apply play_uploadsInOrder.
Qed.

(** A file of the pool after a move that is not a tick was in the pool
    before, or carries an id that no file of the pool had. *)
Lemma play_origin m s f' :
  oneUploadPerFile m s = true ->
  uploadsInOrder s ->
  match m with
  | Act (UploadTimer _ _) => False
  | _ => True
  end ->
  In f' (uploadedFiles (widget (play addDraw RegExp_test p m s))) ->
  In f' (uploadedFiles (widget s)) \/ ~ In (id f') (poolIds (widget s)).
Proof.
  intros Ok Inv K Hin.
  assert (Remote : forall a,
             match a with
             | RemoveExisting _ _ | Undo _ | Confirm _ | SweepTimer _
             | HostRender _ => True
             | _ => False
             end ->
             uploadedFiles (step RegExp_test p a (widget s)) = uploadedFiles (widget s)).
  { intros a Ka. unfold step.
    pose proof (runEffects_pools (handle RegExp_test p a (widget s))) as (U & _).
    rewrite U. apply (handle_remote_uploads a (widget s) Ka). }
  destruct m as [a|files|k].
  - cbn [play widget] in Hin.
    destruct a as [files|fileId| | | | | |h random| |]; try destruct K;
      cbn [stepWith] in Hin;
      try (left; rewrite Remote in Hin by exact Logic.I; exact Hin).
    + destruct (step_add_changes RegExp_test p files (widget s)) as (U & _).
      cbn zeta in U. rewrite U in Hin. apply in_app_or in Hin as [Hin|Hin]; [now left|].
      destruct (refused p (widget s)) eqn:Rf; [destruct Hin|]. right.
      destruct (accepted_fresh files s Ok Rf) as (_ & Fresh & _). cbn zeta in *.
      apply Fresh. now apply in_map.
    + destruct (step_removeNew RegExp_test p fileId (widget s)) as (U & _).
      cbn zeta in U. rewrite U in Hin. apply filter_In in Hin. now left.
    + destruct (step_clear RegExp_test p (widget s)) as (U & _).
      cbn zeta in U. rewrite U in Hin. destruct Hin.
    + destruct (step_manualUpload RegExp_test p (widget s)) as (U & _).
      cbn zeta in U. rewrite U in Hin. now left.
  - left. destruct (play_call_widget addDraw RegExp_test p files s) as (W & _).
    rewrite W in Hin. unfold callAdd in Hin.
    destruct (refused p (widget s)) eqn:Rf.
    + destruct (processFilesCall_refused RegExp_test p files (widget s) Rf) as (m & X).
      rewrite X in Hin. cbn [fst] in Hin.
      pose proof (runEffects_pools (call (onError m) (widget s))) as (U & _).
      rewrite U in Hin. exact Hin.
    + rewrite (processFilesCall_accepted RegExp_test p files (widget s) Rf) in Hin.
      destruct (JS.slice0 _ files) eqn:Sl; cbn [fst] in Hin.
      * pose proof (runEffects_pools
                      (processFilesResume p
                         (mkInFlight (accepted RegExp_test p files (widget s))
                                     (uploadedFiles (widget s))) (widget s))) as (U & _).
        pose proof (processFilesResume_fields p
                      (mkInFlight (accepted RegExp_test p files (widget s))
                                  (uploadedFiles (widget s))) (widget s)) as (U' & _).
        cbn zeta in U'. cbn [flight_records] in U'.
        unfold accepted in U' at 2. rewrite Sl in U'. cbn [map] in U'.
        rewrite U, U', app_nil_r in Hin.
        destruct (singleFile p); [destruct Hin|exact Hin].
      * pose proof (runEffects_pools (widget s)) as (U & _). now rewrite U in Hin.
  - cbn [play] in Hin.
    destruct (nth_error (inFlight s) k) as [fl|] eqn:E; [|now left].
    cbn [widget] in Hin.
    pose proof (resumeAdd_fields p fl (widget s)) as (U & _). cbn zeta in U.
    rewrite U in Hin. apply in_app_or in Hin as [Hin|Hin].
    + left. destruct (singleFile p); [destruct Hin|exact Hin].
    + right. destruct Inv as (N1 & _). apply NoDup_app_iff in N1 as (_ & _ & Nc).
      intros Ip. apply (Nc _ Ip). unfold flightIds. apply in_flat_map.
      exists fl. split; [eapply nth_error_In, E|now apply in_map].
Qed.

Lemma pool_file_unique s f g :
  uploadsInOrder s ->
  In f (uploadedFiles (widget s)) -> In g (uploadedFiles (widget s)) ->
  id g = id f -> g = f.
Proof.
  intros (N1 & _) If Ig E. apply NoDup_app_remove_r in N1.
  now apply (NoDup_map_injective id (uploadedFiles (widget s))).
Qed.

(** One move, seen from a file that is in the pool before and after. *)
Lemma play_progress m s f f' :
  neverLowers addDraw ->
  uploadsInOrder s ->
  oneUploadPerFile m s = true ->
  movable p m s = true ->
  In f (uploadedFiles (widget s)) ->
  In f' (uploadedFiles (widget (play addDraw RegExp_test p m s))) ->
  id f' = id f ->
  (progress f <= progress f')%Q /\ (uploaded f = true -> f' = f).
Proof.
  intros Mono Inv Ok Mv If If' E.
  assert (Other : match m with
                  | Act (UploadTimer _ _) => False
                  | _ => True
                  end ->
                  (progress f <= progress f')%Q /\ (uploaded f = true -> f' = f)).
  { intros K. destruct (play_origin m s f' Ok Inv K If') as [I|N].
    - rewrite (pool_file_unique s f f' Inv If I E). split; [apply Qle_refl|auto].
    - destruct N. rewrite E. unfold poolIds. now apply in_map. }
  destruct m as [a|files|k]; try (apply Other; exact I).
  destruct a as [| | | | | | |h random| |]; try (apply Other; exact I).
  cbn in Mv. apply andb_true_iff in Mv as (R0 & _). apply Qle_bool_iff in R0.
  cbn [play widget stepWith] in If'.
  pose proof (runEffects_pools (fireUploadWith addDraw h random (widget s))) as (U & _).
  rewrite U in If'.
  assert (Inv' : uploadsInOrder (mkSession (widget s) (inFlight s))) by exact Inv.
  destruct (tick_files addDraw Mono h random (widget s) (inFlight s) Inv' R0)
    as (_ & upd & Up & Spec).
  cbn zeta in Up. rewrite Up in If'. apply in_map_iff in If' as (f0 & <- & I0).
  destruct (Spec f0 I0) as (Eid & Le & Keep).
  assert (F0 : f0 = f).
  { apply (pool_file_unique s f f0 Inv If I0). congruence. }
  subst f0. auto.
Qed.

Lemma tick_keeps_ids h random s f :
  In f (uploadedFiles (widget s)) ->
  exists f',
    In f' (uploadedFiles
             (widget (play addDraw RegExp_test p (Act (UploadTimer h random)) s)))
    /\ id f' = id f.
Proof.
  intros I. cbn [play widget stepWith].
  pose proof (runEffects_pools (fireUploadWith addDraw h random (widget s))) as (U & _).
  rewrite U. unfold fireUploadWith.
  destruct (find _ _) as [u|]; [|eauto].
  unfold uploadTickWith. destruct (done _); cbn.
  - exists (if String.eqb (id f) (upload_fileId u) then withUploaded f else f).
    split; [apply in_map_iff; eauto|]. now destruct (String.eqb _ _).
  - eexists (if String.eqb (id f) (upload_fileId u) then withProgress f _ else f).
    split; [apply in_map_iff; eauto|]. now destruct (String.eqb _ _).
Qed.

End OneUploadPerFile.

Lemma advance_neverLowers : neverLowers advance.
Proof.
  unfold neverLowers, advance. intros progress random H.
  assert (0 <= random * 25)%Q by (apply Qmult_le_0_compat; [exact H|discriminate]).
  lra.
Qed.

Section UploadProgress.

Variable addDraw : Q -> Q -> Q.
Variable RegExp_test : string -> string -> bool.
Variable p : Props.

Lemma ticks_progress existing draws : forall s f,
  neverLowers addDraw ->
  reaches addDraw RegExp_test p existing oneUploadPerFile s ->
  In f (uploadedFiles (widget s)) ->
  Forall (fun t => 0 <= snd t /\ snd t < 1)%Q draws ->
  let s' := playAll addDraw RegExp_test p (ticks draws) s in
  reaches addDraw RegExp_test p existing oneUploadPerFile s'
  /\ exists f',
       In f' (uploadedFiles (widget s'))
       /\ id f' = id f
       /\ (progress f <= progress f')%Q
       /\ (uploaded f = true -> f' = f).
Proof.
  induction draws as [|(h, r) rest IH]; intros s f Mono R If F; cbn zeta.
  - cbn. split; [exact R|]. exists f. repeat split; auto. apply Qle_refl.
  - inversion F as [|? ? (R0 & R1) F']; subst. cbn [fst snd] in *.
    cbn [ticks map playAll fold_left fst snd].
    set (m := Act (UploadTimer h r)).
    assert (Mv : movable p m s = true).
    { cbn. apply andb_true_iff. split; [now apply Qle_bool_iff|].
      apply negb_true_iff. destruct (Qle_bool 1 r) eqn:E; [|reflexivity].
      apply Qle_bool_iff in E. destruct (Qlt_not_le _ _ R1 E). }
    assert (R' : reaches addDraw RegExp_test p existing oneUploadPerFile
                   (play addDraw RegExp_test p m s))
      by (apply reaches_play; auto).
    destruct (tick_keeps_ids addDraw RegExp_test p h r s f If) as (f1 & I1 & E1).
    pose proof (reaches_uploadsInOrder addDraw RegExp_test p existing s Mono R) as Inv.
    destruct (play_progress addDraw RegExp_test p m s f f1 Mono Inv eq_refl Mv If I1 E1)
      as (L1 & K1).
    destruct (IH _ f1 Mono R' I1 F') as (R2 & f2 & I2 & E2 & L2 & K2).
    split; [exact R2|]. exists f2. split; [exact I2|]. split; [congruence|].
    split; [apply (Qle_trans _ (progress f1)); assumption|].
    intros Up. rewrite <- (K1 Up). apply K2. now rewrite (K1 Up).
Qed.

(** C5 (as the code has it).  When the ids drawn for the files never
    repeat and Upload is pressed only while none of the files it starts
    is being uploaded, so that at most one interval simulates the upload
    of a file: in every session that can be reached, the progress of a
    local file lies between 0 and 100 and the file is uploaded exactly
    when its progress is 100; no move lowers the progress of a file that
    stays in the pool, and a file that is uploaded stays as it is; so it
    is across every run of ticks, whichever intervals they belong to.
    This holds for every arithmetic in which adding a draw that is not
    negative does not lower the progress.  No number of ticks is
    promised. *)
Theorem simulated_upload_progress existing s f :
  neverLowers addDraw ->
  reaches addDraw RegExp_test p existing oneUploadPerFile s ->
  In f (uploadedFiles (widget s)) ->
  ((0 <= progress f)%Q /\ (progress f <= 100)%Q
   /\ (uploaded f = true <-> progress f = 100%Q))
  /\ (forall m f',
        oneUploadPerFile m s = true ->
        movable p m s = true ->
        In f' (uploadedFiles (widget (play addDraw RegExp_test p m s))) ->
        id f' = id f ->
        (progress f <= progress f')%Q
        /\ (progress f' <= 100)%Q
        /\ (uploaded f' = true <-> progress f' = 100%Q)
        /\ (uploaded f = true -> f' = f))
  /\ (forall draws,
        Forall (fun t => 0 <= snd t /\ snd t < 1)%Q draws ->
        exists f',
          In f' (uploadedFiles
                   (widget (playAll addDraw RegExp_test p (ticks draws) s)))
          /\ id f' = id f
          /\ (progress f <= progress f')%Q
          /\ (progress f' <= 100)%Q
          /\ (uploaded f' = true <-> progress f' = 100%Q)
          /\ (uploaded f = true -> f' = f)).
Proof.
  intros Mono R If.
  assert (Bounds : forall s g,
             reaches addDraw RegExp_test p existing oneUploadPerFile s ->
             In g (uploadedFiles (widget s)) ->
             (0 <= progress g)%Q /\ (progress g <= 100)%Q
             /\ (uploaded g = true <-> progress g = 100%Q)).
  { intros s0 g R0 Ig.
    pose proof (reaches_uploadsInOrder addDraw RegExp_test p existing s0 Mono R0)
      as (_ & _ & _ & _ & _ & C & _).
    rewrite Forall_forall in C. exact (coupled_bounds _ _ (C g Ig)). }
  split; [exact (Bounds s f R If)|]. split.
  - intros m f' Ok Mv If' E.
    pose proof (reaches_uploadsInOrder addDraw RegExp_test p existing s Mono R) as Inv.
    destruct (play_progress addDraw RegExp_test p m s f f' Mono Inv Ok Mv If If' E)
      as (L & K).
    assert (R' : reaches addDraw RegExp_test p existing oneUploadPerFile
                   (play addDraw RegExp_test p m s))
      by (apply reaches_play; auto).
    destruct (Bounds _ f' R' If') as (_ & B & U).
    split; [exact L|]. split; [exact B|]. split; [exact U|exact K].
  - intros draws F.
    destruct (ticks_progress existing draws s f Mono R If F)
      as (R' & f' & If' & E & L & K).
    destruct (Bounds _ f' R' If') as (_ & B & U).
    exists f'. split; [exact If'|]. split; [exact E|]. split; [exact L|].
    split; [exact B|]. split; [exact U|exact K].
Qed.

End UploadProgress.


Section CompletingTick.

Variable addDraw : Q -> Q -> Q.
Variable RegExp_test : string -> string -> bool.
Variable p : Props.

(** X13.  The tick that completes an upload, for every arithmetic in
    which a draw that is not negative does not lower the progress and in
    sessions with at most one interval per file: when the interval of a
    file fires and the value it computes from the progress of the file
    passes the test [progress >= 100], the file is uploaded with progress
    exactly 100 and no interval is left for it; otherwise the file shows
    the computed value and is not uploaded. *)
Theorem upload_completes existing s f u random :
  neverLowers addDraw ->
  reaches addDraw RegExp_test p existing oneUploadPerFile s ->
  In f (uploadedFiles (widget s)) ->
  intervalOf (id f) (widget s) = Some u ->
  (0 <= random)%Q -> (random < 1)%Q ->
  let s' := play addDraw RegExp_test p (Act (UploadTimer (upload_handle u) random)) s in
  let progress' := addDraw (progress f) random in
  if done progress' then
    In (withUploaded f) (uploadedFiles (widget s'))
    /\ intervalOf (id f) (widget s') = None
    /\ interval (upload_handle u) (widget s') = None
  else
    In (withProgress f progress') (uploadedFiles (widget s'))
    /\ (progress' < 100)%Q.
Proof.
  intros Mono R If Iu R0 R1. cbn zeta.
  pose proof (reaches_uploadsInOrder addDraw RegExp_test p existing s Mono R) as Inv.
  set (m := Act (UploadTimer (upload_handle u) random)).
  assert (Mv : movable p m s = true).
  { cbn. apply andb_true_iff. split; [now apply Qle_bool_iff|].
    apply negb_true_iff. destruct (Qle_bool 1 random) eqn:E; [|reflexivity].
    apply Qle_bool_iff in E. destruct (Qlt_not_le _ _ R1 E). }
  pose proof (play_uploadsInOrder addDraw RegExp_test p m s Mono eq_refl Mv Inv) as Inv'.
  destruct Inv as (_ & _ & _ & N4 & _ & N6 & _).
  rewrite Forall_forall in N6. pose proof (N6 f If) as C.
  unfold coupled in C. rewrite Iu in C. destruct C as (_ & Pu & _).
  apply intervalOf_some in Iu as (Inu & Eu).
  assert (Fu : find (fun v => Nat.eqb (upload_handle v) (upload_handle u))
                    (uploads (widget s)) = Some u).
  { destruct (find _ _) as [v|] eqn:F.
    - apply find_some in F as (Iv & Ev). f_equal.
      now apply (handle_unique (widget s)).
    - pose proof (find_none _ _ F u Inu) as H. cbn in H.
      rewrite Nat.eqb_refl in H. discriminate. }
  assert (Pool : uploadedFiles (widget (play addDraw RegExp_test p m s))
                 = uploadedFiles (uploadTickWith addDraw u random (widget s))).
  { cbn [play widget stepWith m].
    pose proof (runEffects_pools
                  (fireUploadWith addDraw (upload_handle u) random (widget s)))
      as (U & _).
    rewrite U. unfold fireUploadWith. now rewrite Fu. }
  assert (Ups : uploads (widget (play addDraw RegExp_test p m s))
                = uploads (uploadTickWith addDraw u random (widget s))).
  { cbn [play widget stepWith m].
    pose proof (runEffects_pools
                  (fireUploadWith addDraw (upload_handle u) random (widget s)))
      as (_ & _ & T & _).
    rewrite T. unfold fireUploadWith. now rewrite Fu. }
  fold m. unfold uploadTickWith in Pool, Ups. rewrite Pu in Pool, Ups.
  destruct (done (addDraw (progress f) random)) eqn:Dn.
  - assert (I' : In (withUploaded f)
                    (uploadedFiles (widget (play addDraw RegExp_test p m s)))).
    { rewrite Pool. cbn. apply in_map_iff. exists f.
      rewrite Eu, String.eqb_refl. auto. }
    split; [exact I'|]. split.
    + destruct Inv' as (_ & _ & _ & _ & _ & N6' & _).
      rewrite Forall_forall in N6'. pose proof (N6' _ I') as C'.
      unfold coupled in C'. cbn [id withUploaded] in C'.
      destruct (intervalOf (id f) _); [|reflexivity].
      destruct C' as (X & _). discriminate X.
    + unfold interval. rewrite Ups. cbn. apply find_filter_out.
  - split.
    + rewrite Pool. cbn. apply in_map_iff. exists f.
      rewrite Eu, String.eqb_refl. auto.
    + apply Qnot_le_lt. intros H. apply Qle_bool_iff in H.
      unfold done in Dn. congruence.
Qed.

End CompletingTick.

(** ** Steps as sessions *)

(** A state of the widget reached by steps, every add storing its records
    at once, is the widget of a session reached by the same actions with
    the exact arithmetic and nothing in flight. *)
Lemma reachable_reaches RegExp_test p existing allowed w :
  reachable RegExp_test p existing allowed w ->
  reaches advance RegExp_test p existing (actsOnly allowed) (mkSession w []).
Proof.
  induction 1 as [|a w R IH Al En]; [apply reaches_mount|].
  rewrite <- (stepWith_advance RegExp_test p a w).
  exact (reaches_play advance RegExp_test p existing (actsOnly allowed)
           (Act a) (mkSession w []) IH Al En).
Qed.

(** ** The search of the combobox *)

(** X25.  The search of the combobox, for the platform's [toLowerCase]:
    an empty search lists every option; the result lists options of the
    list in their order; an option is listed exactly when the search is
    empty or its lower-cased label contains the lower-cased search text;
    and when label and search text are ASCII, where [toLowerCase] maps the
    letters A to Z only, every option whose label contains the search
    text is listed, and so is every option whose label contains it in
    another letter case. *)
Theorem combobox_search toLowerCase options searchValue :
  Combobox.filteredOptions toLowerCase options "" = options
  /\ subseq (Combobox.filteredOptions toLowerCase options searchValue) options
  /\ (forall option,
        In option (Combobox.filteredOptions toLowerCase options searchValue)
        <-> In option options
            /\ (searchValue = ""%string
                \/ Combobox.stringIncludes (toLowerCase (Combobox.label option))
                                           (toLowerCase searchValue) = true))
  /\ ((forall s, isAscii s = true -> toLowerCase s = JS.toLowerCase s) ->
      isAscii searchValue = true ->
      forall option,
        In option options ->
        isAscii (Combobox.label option) = true ->
        (Combobox.stringIncludes (Combobox.label option) searchValue = true
         \/ Combobox.stringIncludes (JS.toLowerCase (Combobox.label option))
                                    (JS.toLowerCase searchValue) = true) ->
        In option (Combobox.filteredOptions toLowerCase options searchValue)).
Proof.
  split; [reflexivity|]. unfold Combobox.filteredOptions.
  destruct (String.eqb_spec searchValue "") as [E|N].
  - split; [apply subseq_refl|]. split; [intros option; tauto|auto].
  - split; [apply subseq_filter|]. split.
    + intros option. rewrite filter_In. split; [tauto|].
      intros (I & [E|H]); [contradiction|auto].
    + intros Agree As option I Al H. apply filter_In. split; [exact I|].
      rewrite (Agree _ Al), (Agree _ As).
      destruct H as [H|H]; [now apply stringIncludes_toLowerCase|exact H].
Qed.
(** ** Sessions at concrete inputs *)

Lemma addInFlight_reaches ok :
  playable advance Wildcard.test defaultProps ok
    [Act (Add [photo]); Act (RemoveExisting logo 0); Call [report];
     Act (UploadTimer 0 (1 # 2))]
    (mkSession (mount [logo; banner]) []) = true ->
  reaches advance Wildcard.test defaultProps [logo; banner] ok addInFlight.
Proof.
  intros H. apply reaches_playAll; [apply reaches_mount|exact H].
Qed.

(** C4, the restriction to multiple-file mode.  In single-file mode the
    second half of an add empties the active remote list: a file whose
    removal was undone while the preview was read is then neither active
    nor pending nor confirmed. *)
Lemma single_file_add_loses_restored_file :
  reaches advance Wildcard.test singleProps [logo] keepsHostFiles undoneWhileReading
  /\ existingFiles (widget undoneWhileReading) = [logo]
  /\ removedImageIds (widget undoneWhileReading) = []
  /\ remoteUnion (widget undoneWhileReading) = []
  /\ ~ union_invariant (widget undoneWhileReading).
Proof.
  split.
  - apply reaches_playAll; [apply reaches_mount|vm_compute; reflexivity].
  - repeat split. intros H.
    destruct (proj2 (H logo)).
    split; [now left|intros []].
Qed.

(** C5, the restriction to one interval per file.  When Upload is pressed
    a second time while the upload of a file runs, a second interval
    starts at 0: its first tick puts the progress of the file back. *)
Lemma second_press_lowers_progress :
  let w := run Wildcard.test manualProps pressedTwice (mount []) in
  reachable Wildcard.test manualProps [] any_action w
  /\ map progress (uploadedFiles w) = [25 # 2]%Q
  /\ map progress
       (uploadedFiles (step Wildcard.test manualProps (UploadTimer 1 0) w))
     = [0 # 1]%Q.
Proof.
  cbn zeta. split.
  - apply reachable_run; [apply reachable_mount|vm_compute; reflexivity].
  - vm_compute. split; reflexivity.
Qed.

(** C5, the restriction to ids that do not repeat.  When a second file is
    given the id of a file whose upload runs, the first tick of its
    interval puts the progress of both back to its own. *)
Lemma repeated_id_lowers_progress :
  let w := run Wildcard.test defaultProps sameIdTwice (mount []) in
  reachable Wildcard.test defaultProps [] any_action w
  /\ map progress (uploadedFiles w) = [25 # 2; 0 # 1]%Q
  /\ map progress
       (uploadedFiles (step Wildcard.test defaultProps (UploadTimer 1 0) w))
     = [0 # 1; 0 # 1]%Q.
Proof.
  cbn zeta. split.
  - apply reachable_run; [apply reachable_mount|vm_compute; reflexivity].
  - vm_compute. split; reflexivity.
Qed.

(** C6, counterexample.  The removal of [logo] is confirmed, the host
    lists [logo] again, and its removal is requested once more at time
    100 and left alone: after the sweep at time 10100 the id of [logo] is
    twice in the confirmed list. *)
Lemma removal_confirmed_twice :
  let before := run Wildcard.test defaultProps (firstn 3 removedTwice)
                  (mount [logo; banner]) in
  let after := run Wildcard.test defaultProps
                 [RemoveExisting logo 100; SweepTimer 10100] before in
  reachable Wildcard.test defaultProps [logo; banner] any_action before
  /\ In logo (displayExistingFiles before)
  /\ enabled defaultProps (RemoveExisting logo 100) before = true
  /\ after = run Wildcard.test defaultProps removedTwice (mount [logo; banner])
  /\ removedImageIds after = [1; 1]
  /\ count_occ Z.eq_dec (removedImageIds after) (media_id logo) = 2%nat
  /\ undoableRemovals after = [].
Proof.
  cbn zeta. split.
  - apply reachable_run; [apply reachable_mount|vm_compute; reflexivity].
  - vm_compute. repeat split. now left.
Qed.

(** C7, counterexample.  With [maxFiles = 2]: two adds, of two files and
    of one, each called before the records of the other are stored, are
    both accepted without an error and leave three local files; and after
    a removal, an add and the undo of the removal the total is three, a
    further add is refused, and the total stays three. *)
Lemma total_exceeds_maxFiles :
  maxFiles twoFilesProps = 2
  /\ (reaches advance Wildcard.test twoFilesProps [] anyMove overlappingAdds
      /\ map id (uploadedFiles (widget overlappingAdds)) = ["ida"; "idb"; "idc"]%string
      /\ errors (calls (widget overlappingAdds)) = []
      /\ getTotalFileCount (widget overlappingAdds) = 3)
  /\ (reachable Wildcard.test twoFilesProps [logo; banner] any_action refilledThenUndone
      /\ errors (calls refilledThenUndone) = ["Maximum 2 files allowed"%string]
      /\ getTotalFileCount refilledThenUndone = 3).
Proof.
  split; [reflexivity|]. split; split.
  - apply reaches_playAll; [apply reaches_mount|vm_compute; reflexivity].
  - vm_compute. repeat split.
  - apply reachable_run; [apply reachable_mount|vm_compute; reflexivity].
  - vm_compute. repeat split.
Qed.

Lemma files_change_payload_witness :
  let w := uploading in
  let p := defaultProps in
  forallb valid (uploadedFiles w) = true
  /\ (fileChanges (calls (step Wildcard.test p Clear w))
      = fileChanges (calls w) ++ [payload (step Wildcard.test p Clear w)]
      /\ (forall fileId,
            let w' := step Wildcard.test p (RemoveNew fileId) w in
            fileChanges (calls w') = fileChanges (calls w) ++ [payload w'])
      /\ (forall files,
            fileChanges (calls (fst (callAdd Wildcard.test p files w)))
            = fileChanges (calls w))
      /\ (forall fl,
            flight_pool fl = uploadedFiles w ->
            (singleFile p = true -> uploadedFiles w = []) ->
            let w' := resumeAdd p fl w in
            fileChanges (calls w')
            = fileChanges (calls w)
              ++ (if existsb valid (flight_records fl) then [payload w'] else []))
      /\ (forall files,
            let w' := step Wildcard.test p (Add files) w in
            let new := if refused p w then [] else accepted Wildcard.test p files w in
            uploadedFiles w' = uploadedFiles w ++ new
            /\ fileChanges (calls w')
               = fileChanges (calls w)
                 ++ (if existsb valid new then [payload w'] else []))
      /\ (forall x,
            maxSize p * 1024 * 1024 < File_size (picked_file x) ->
            error (newUploadedFile Wildcard.test p x)
            = Some ("File size must be less than "
                    ++ JS.show (maxSize p) ++ "MB")%string
            /\ (forall pool w2,
                  let w' := resumeAdd p
                              (mkInFlight [newUploadedFile Wildcard.test p x] pool) w2 in
                  In (newUploadedFile Wildcard.test p x) (uploadedFiles w')
                  /\ fileChanges (calls w') = fileChanges (calls w2))
            /\ (refused p w = false ->
                let w' := step Wildcard.test p (Add [x]) w in
                uploadedFiles w'
                = uploadedFiles w ++ [newUploadedFile Wildcard.test p x]
                /\ fileChanges (calls w') = fileChanges (calls w)))).
Proof.
  cbn zeta. split; [reflexivity|].
  apply (files_change_payload Wildcard.test defaultProps uploading).
  reflexivity.
Defined.

Lemma remote_union_invariant_witness :
  let existing := [logo; banner] in
  let s := addInFlight in
  singleFile defaultProps = false
  /\ NoDup (map media_id existing)
  /\ reaches advance Wildcard.test defaultProps existing keepsHostFiles s
  /\ (existingFiles (widget s) = existing
      /\ forall f,
           In f (displayExistingFiles (widget s)
                 ++ map removal_file (undoableRemovals (widget s)))
           <-> In f existing /\ ~ In (media_id f) (removedImageIds (widget s))).
Proof.
  cbn zeta. split; [reflexivity|]. split; [exact logo_banner_distinct|].
  split; [apply addInFlight_reaches; vm_compute; reflexivity|].
  apply (remote_union_invariant advance Wildcard.test defaultProps [logo; banner]
           addInFlight).
  - reflexivity.
  - exact logo_banner_distinct.
  - apply addInFlight_reaches. vm_compute. reflexivity.
Defined.

Lemma halfwayPhoto_shown : In halfwayPhoto (uploadedFiles (widget addInFlight)).
Proof. vm_compute. left. reflexivity. Qed.

Lemma simulated_upload_progress_witness :
  let p := defaultProps in
  let s := addInFlight in
  let f := halfwayPhoto in
  neverLowers advance
  /\ reaches advance Wildcard.test p [logo; banner] oneUploadPerFile s
  /\ In f (uploadedFiles (widget s))
  /\ (((0 <= progress f)%Q /\ (progress f <= 100)%Q
       /\ (uploaded f = true <-> progress f = 100%Q))
      /\ (forall m f',
            oneUploadPerFile m s = true ->
            movable p m s = true ->
            In f' (uploadedFiles (widget (play advance Wildcard.test p m s))) ->
            id f' = id f ->
            (progress f <= progress f')%Q
            /\ (progress f' <= 100)%Q
            /\ (uploaded f' = true <-> progress f' = 100%Q)
            /\ (uploaded f = true -> f' = f))
      /\ (forall draws,
            Forall (fun t => 0 <= snd t /\ snd t < 1)%Q draws ->
            exists f',
              In f' (uploadedFiles
                       (widget (playAll advance Wildcard.test p (ticks draws) s)))
              /\ id f' = id f
              /\ (progress f <= progress f')%Q
              /\ (progress f' <= 100)%Q
              /\ (uploaded f' = true <-> progress f' = 100%Q)
              /\ (uploaded f = true -> f' = f))).
Proof.
  cbn zeta. split; [exact advance_neverLowers|].
  split; [apply addInFlight_reaches; vm_compute; reflexivity|].
  split; [exact halfwayPhoto_shown|].
  apply (simulated_upload_progress advance Wildcard.test defaultProps [logo; banner]
           addInFlight halfwayPhoto).
  - exact advance_neverLowers.
  - apply addInFlight_reaches. vm_compute. reflexivity.
  - exact halfwayPhoto_shown.
Defined.

Lemma total_within_maxFiles_witness :
  Z.of_nat (List.length [logo; banner]) <= maxFiles defaultProps
  /\ reaches advance Wildcard.test defaultProps [logo; banner] oneAddAtATime addInFlight
  /\ getTotalFileCount (widget addInFlight) <= maxFiles defaultProps.
Proof.
  split; [cbn; lia|].
  split; [apply addInFlight_reaches; vm_compute; reflexivity|].
  apply (total_within_maxFiles advance Wildcard.test defaultProps [logo; banner]
           addInFlight).
  - cbn. lia.
  - apply addInFlight_reaches. vm_compute. reflexivity.
Defined.


Lemma halfwayPhoto_interval :
  intervalOf (id halfwayPhoto) (widget addInFlight)
  = Some (mkUpload 0 "ida" (advance 0 (1 # 2))).
Proof. vm_compute. reflexivity. Qed.

Lemma upload_completes_witness :
  let p := defaultProps in
  let s := addInFlight in
  let f := halfwayPhoto in
  let u := mkUpload 0 "ida" (advance 0 (1 # 2)) in
  let random := (99 # 100)%Q in
  let s' := play advance Wildcard.test p (Act (UploadTimer (upload_handle u) random)) s in
  let progress' := advance (progress f) random in
  neverLowers advance
  /\ reaches advance Wildcard.test p [logo; banner] oneUploadPerFile s
  /\ In f (uploadedFiles (widget s))
  /\ intervalOf (id f) (widget s) = Some u
  /\ (0 <= random)%Q /\ (random < 1)%Q
  /\ if done progress' then
       In (withUploaded f) (uploadedFiles (widget s'))
       /\ intervalOf (id f) (widget s') = None
       /\ interval (upload_handle u) (widget s') = None
     else
       In (withProgress f progress') (uploadedFiles (widget s'))
       /\ (progress' < 100)%Q.
Proof.
  cbn zeta. split; [exact advance_neverLowers|].
  split; [apply addInFlight_reaches; vm_compute; reflexivity|].
  split; [exact halfwayPhoto_shown|]. split; [exact halfwayPhoto_interval|].
  split; [discriminate|]. split; [reflexivity|].
  apply (upload_completes advance Wildcard.test defaultProps [logo; banner]
           addInFlight halfwayPhoto (mkUpload 0 "ida" (advance 0 (1 # 2))) (99 # 100)%Q).
  - exact advance_neverLowers.
  - apply addInFlight_reaches. vm_compute. reflexivity.
  - exact halfwayPhoto_shown.
  - exact halfwayPhoto_interval.
  - discriminate.
  - reflexivity.
Defined.

(** The search at concrete inputs, with the ASCII [toLowerCase]: letter
    case is ignored and the order of the options is kept. *)
Lemma combobox_search_sample :
  map Combobox.label (Combobox.filteredOptions JS.toLowerCase sampleOptions "AN")
  = ["Germany"; "France"]%string
  /\ map Combobox.label (Combobox.filteredOptions JS.toLowerCase sampleOptions "way")
     = ["Norway"]%string
  /\ Combobox.filteredOptions JS.toLowerCase sampleOptions "x" = [].
Proof. vm_compute. repeat split. Qed.
